(** * Voxel sandbox: grid storage, persistence codec, picking, gestures, history

    A shallow embedding of the editing core of the voxel sandbox
    (the multi-block "sky island" build and the single-block build) and the
    properties its design document states about it.

    Conventions.
    - Cell coordinates and block ids are JavaScript numbers that only ever
      take integer values; they are modelled as [Z].
    - [chunk.data] is a [Uint8Array]; it is modelled as a [list Z] read with
      [!!] and written with [<[_:=_]>].  A read past the end yields
      [undefined] (here [None]); a write past the end is dropped; a written
      value is reduced modulo 256.
    - A JavaScript stack ([push]/[pop] on an array) is a list whose head is
      the most recently pushed element.
    - World-space coordinates are JavaScript numbers that take fractional
      values; they are IEEE 754 binary64 numbers, here Rocq's primitive
      [float], and are added, multiplied and divided with its (rounding)
      operations.  [Q] is used only to speak of the exact value of such a
      number. *)

From Stdlib Require Import ZArith QArith Qround Lia Bool Floats.
From stdpp Require Import base tactics option list.

Local Open Scope Z_scope.

(** ** Block ids *)

Module Block.
Definition AIR : Z := 0.
Definition GRASS : Z := 1.
Definition SAND : Z := 2.
Definition STONE : Z := 3.
Definition WATER : Z := 4.
Definition WOOD : Z := 5.
(** The single-block build knows one placeable block. *)
Definition SOLID : Z := 1.
End Block.

(** A number read back from the grid: [None] is JavaScript's [undefined]. *)
Definition JsNum : Type := option Z.

(** ** Uint8Array *)

Definition to_uint8 (v : Z) : Z := v mod 256.

Definition is_byte (b : Z) : Prop := 0 <= b < 256.

Definition u8_get (d : list Z) (i : Z) : JsNum :=
  if 0 <=? i then d !! Z.to_nat i else None.

Definition u8_set (d : list Z) (i : Z) (v : Z) : list Z :=
  if 0 <=? i then <[Z.to_nat i := to_uint8 v]> d else d.

(** ** VoxelChunk *)

Record VoxelChunk : Type := mkChunk {
  width : Z;
  height : Z;
  depth : Z;
  data : list Z
}.

(** [new VoxelChunk(width, height, depth)]: a zero-filled byte array.
    ([new Uint8Array(n)] throws for a negative [n]; the model is of the
    constructions that succeed.) *)
Definition newChunk (w h d : Z) : VoxelChunk :=
  mkChunk w h d (replicate (Z.to_nat (w * h * d)) 0).

Definition getIndex (c : VoxelChunk) (x y z : Z) : Z :=
  y * width c * depth c + z * width c + x.

Definition inBounds (c : VoxelChunk) (x y z : Z) : bool :=
  (0 <=? x) && (x <? width c) && (0 <=? y) && (y <? height c)
  && (0 <=? z) && (z <? depth c).

Definition getBlock (c : VoxelChunk) (x y z : Z) : JsNum :=
  if negb (inBounds c x y z) then Some Block.AIR
  else u8_get (data c) (getIndex c x y z).

Definition setBlock (c : VoxelChunk) (x y z : Z) (value : Z) : VoxelChunk :=
  if negb (inBounds c x y z) then c
  else mkChunk (width c) (height c) (depth c)
               (u8_set (data c) (getIndex c x y z) value).

Definition cellCount (c : VoxelChunk) : Z := width c * height c * depth c.

(** The shape every chunk built by [newChunk] has and every operation of the
    program keeps: the byte array has exactly [cellCount] entries, each a
    byte. *)
Definition wf_chunk (c : VoxelChunk) : Prop :=
  Z.of_nat (length (data c)) = cellCount c /\ Forall is_byte (data c).

(** ** Platform functions: strings and base64

    A JavaScript string is a sequence of UTF-16 code units, modelled as a
    [list Z].  [String.fromCharCode], [btoa] and [atob] belong to the
    browser, not to the program; they are modelled after the ECMAScript and
    WHATWG definitions ([btoa] throws on a code unit above 255; [atob] is the
    "forgiving base64 decode"). *)

Definition fromCharCode (codes : list Z) : list Z :=
  List.map (fun v => v mod 65536) codes.

(** [s.charCodeAt(i)]; [None] is [NaN]. *)
Definition charCodeAt (s : list Z) (i : nat) : option Z := s !! i.

Definition b64_char (s : Z) : Z :=
  if s <? 26 then s + 65
  else if s <? 52 then s + 71
  else if s <? 62 then s - 4
  else if s =? 62 then 43 else 47.

Definition b64_index (c : Z) : option Z :=
  if (65 <=? c) && (c <=? 90) then Some (c - 65)
  else if (97 <=? c) && (c <=? 122) then Some (c - 71)
  else if (48 <=? c) && (c <=? 57) then Some (c + 4)
  else if c =? 43 then Some 62
  else if c =? 47 then Some 63
  else None.

(** The code unit of the padding character. *)
Definition b64_pad : Z := 61.

Fixpoint b64_encode (bytes : list Z) : list Z :=
  match bytes with
  | [] => []
  | [a] => [b64_char (a / 4); b64_char (a mod 4 * 16); b64_pad; b64_pad]
  | [a; b] =>
      [b64_char (a / 4); b64_char (a mod 4 * 16 + b / 16);
       b64_char (b mod 16 * 4); b64_pad]
  | a :: b :: c :: rest =>
      b64_char (a / 4) :: b64_char (a mod 4 * 16 + b / 16)
      :: b64_char (b mod 16 * 4 + c / 64) :: b64_char (c mod 64)
      :: b64_encode rest
  end.

Definition btoa (s : list Z) : option (list Z) :=
  if forallb (fun c => c <=? 255) s then Some (b64_encode s) else None.

Definition is_ascii_whitespace (c : Z) : bool :=
  (c =? 9) || (c =? 10) || (c =? 12) || (c =? 13) || (c =? 32).

(** Removes one or two trailing padding characters. *)
Fixpoint strip_padding (s : list Z) : list Z :=
  match s with
  | [] => []
  | [a] => if a =? b64_pad then [] else [a]
  | [a; b] =>
      if b =? b64_pad then (if a =? b64_pad then [] else [a]) else [a; b]
  | a :: rest => a :: strip_padding rest
  end.

Fixpoint b64_sextets (s : list Z) : option (list Z) :=
  match s with
  | [] => Some []
  | c :: rest =>
      match b64_index c, b64_sextets rest with
      | Some v, Some vs => Some (v :: vs)
      | _, _ => None
      end
  end.

(** Four sextets make three bytes; a final group of three makes two bytes
    and a final group of two makes one, the spare low bits being dropped. *)
Fixpoint b64_bytes (sextets : list Z) : list Z :=
  match sextets with
  | a :: b :: c :: d :: rest =>
      (a * 4 + b / 16) :: (b mod 16 * 16 + c / 4) :: (c mod 4 * 64 + d)
      :: b64_bytes rest
  | [a; b; c] => [a * 4 + b / 16; b mod 16 * 16 + c / 4]
  | [a; b] => [a * 4 + b / 16]
  | _ => []
  end.

(** [None] is the [InvalidCharacterError] exception. *)
Definition atob (encoded : list Z) : option (list Z) :=
  let s1 := List.filter (fun c => negb (is_ascii_whitespace c)) encoded in
  let s2 := if (length s1 mod 4 =? 0)%nat then strip_padding s1 else s1 in
  if (length s2 mod 4 =? 1)%nat then None
  else match b64_sextets s2 with
       | Some sextets => Some (b64_bytes sextets)
       | None => None
       end.

(** ** Persistence codec *)

Inductive DecodeError : Type :=
  | InvalidCharacterError  (* thrown by [atob] *)
  | LengthMismatch.        (* 'Stored chunk length mismatch' *)

(** [None]: [btoa] threw. *)
Definition encodeChunkData (c : VoxelChunk) : option (list Z) :=
  let binaryString := fromCharCode (data c) in
  btoa binaryString.

(** The copy loop of [decodeChunkData], for [i] from [i0] upwards. *)
Fixpoint decode_loop (binaryString : list Z) (n : nat) (i0 : nat)
    (d : list Z) : list Z :=
  match n with
  | O => d
  | S n' =>
      let code := default 0 (charCodeAt binaryString i0) in
      decode_loop binaryString n' (S i0) (u8_set d (Z.of_nat i0) code)
  end.

(** Returns the chunk as the call leaves it, and the exception if one was
    thrown. *)
Definition decodeChunkData (c : VoxelChunk) (encoded : list Z)
    : VoxelChunk * option DecodeError :=
  match atob encoded with
  | None => (c, Some InvalidCharacterError)
  | Some binaryString =>
      let expectedLength := length (data c) in
      if negb (length binaryString =? expectedLength)%nat
      then (c, Some LengthMismatch)
      else (mkChunk (width c) (height c) (depth c)
              (decode_loop binaryString expectedLength 0 (data c)), None)
  end.

(** ** JavaScript numbers *)

(** The number an integer-valued variable holds, as an operand of
    floating-point arithmetic (exact up to 2^53 in magnitude). *)
Definition of_Z (z : Z) : float :=
  SF2Prim (binary_normalize prec emax z 0 false).

(** The exact value of a number; [None] for [NaN] and the infinities. *)
Definition F2Q (f : float) : option Q :=
  match Prim2SF f with
  | S754_zero _ => Some 0%Q
  | S754_finite s m e =>
      let v := if s then Z.neg m else Z.pos m in
      Some (if 0 <=? e then inject_Z (v * 2 ^ e)
            else (v # Z.to_pos (2 ^ (- e)))%Q)
  | S754_infinity _ | S754_nan => None
  end.

(** [Math.floor(f)] as an integer: the greatest integer not above the value
    of [f].  For [NaN] and the infinities [Math.floor] returns its argument,
    which is no integer and fails the comparisons of [inBounds]; that is
    [None]. *)
Definition Math_floor (f : float) : option Z := Qfloor <$> F2Q f.

(** ** Coordinate mapper *)

Definition VOXEL_SIZE : float := 1.

Definition halfWidth (c : VoxelChunk) : float :=
  (of_Z (width c) * VOXEL_SIZE / 2)%float.
Definition halfDepth (c : VoxelChunk) : float :=
  (of_Z (depth c) * VOXEL_SIZE / 2)%float.

Record Vec3 : Type := mkVec3 { vx : float; vy : float; vz : float }.

Record Cell : Type := mkCell { cell_x : Z; cell_y : Z; cell_z : Z }.

Definition cellToWorld (c : VoxelChunk) (x y z : Z) : Vec3 :=
  mkVec3 ((of_Z x + 0.5) * VOXEL_SIZE - halfWidth c)%float
         (of_Z y * VOXEL_SIZE)%float
         ((of_Z z + 0.5) * VOXEL_SIZE - halfDepth c)%float.

Definition worldPointToCell (c : VoxelChunk) (worldPoint : Vec3) (snapY : bool)
    : option Cell :=
  let x := Math_floor ((vx worldPoint + halfWidth c) / VOXEL_SIZE)%float in
  let yRaw :=
    if snapY then (vy worldPoint / VOXEL_SIZE)%float else vy worldPoint in
  let y := Math_floor (yRaw + 0.5)%float in
  let z := Math_floor ((vz worldPoint + halfDepth c) / VOXEL_SIZE)%float in
  match x, y, z with
  | Some x, Some y, Some z =>
      if negb (inBounds c x y z) then None else Some (mkCell x y z)
  | _, _, _ => None
  end.

(** The snapped policy as the design document words it: every axis floors
    [position / size] (the horizontal axes measured from the grid's corner).
    Stated for comparison with [worldPointToCell]. *)
Definition snappedFloorCell (c : VoxelChunk) (worldPoint : Vec3) : option Cell :=
  let x := Math_floor ((vx worldPoint + halfWidth c) / VOXEL_SIZE)%float in
  let y := Math_floor (vy worldPoint / VOXEL_SIZE)%float in
  let z := Math_floor ((vz worldPoint + halfDepth c) / VOXEL_SIZE)%float in
  match x, y, z with
  | Some x, Some y, Some z =>
      if negb (inBounds c x y z) then None else Some (mkCell x y z)
  | _, _, _ => None
  end.

(** ** Edit actions, ray hits and interaction state *)

Inductive ActionType : Type := place | remove.

Record Action : Type := mkAction {
  type : ActionType;
  blockId : JsNum;
  cell : option Cell
}.

(** A timeout id stored in a variable: its callback is still to run
    ([Armed]) or has run ([Spent]).  A cleared variable is [None]. *)
Inductive TimerHandle : Type := Armed | Spent.

Record PointerState : Type := mkPointerState {
  pointerId : option Z;
  timer : option TimerHandle;
  longPressFired : bool;
  placeCell : option Cell;
  removeCell : option Cell
}.

(** A face normal of [BoxGeometry]; its components are integers. *)
Record Normal : Type := mkNormal { nx : Z; ny : Z; nz : Z }.

(** One entry of [raycaster.intersectObjects(...)].  [hitIsBlock] tells
    whether [hit.object] is a block instance mesh; [face] is [None] when
    [hit.face] is null. *)
Record Hit : Type := mkHit {
  hitIsBlock : bool;
  face : option Normal;
  point : Vec3
}.

(** What a pointer event carries: [coords] are the normalised device
    coordinates [setPointerFromEvent] computes from it. *)
Record PointerEvent : Type := mkPointerEvent {
  ev_pointerId : Z;
  button : Z;
  coords : float * float
}.

Definition cloneCell (c : option Cell) : option Cell :=
  match c with
  | None => None
  | Some cl => Some (mkCell (cell_x cl) (cell_y cl) (cell_z cl))
  end.

(** [v === n] for a grid read [v] and a number [n]. *)
Definition num_eqb (v : JsNum) (n : Z) : bool :=
  match v with
  | Some m => m =? n
  | None => false
  end.

Definition cellInBounds (c : VoxelChunk) (cl : Cell) : bool :=
  inBounds c (cell_x cl) (cell_y cl) (cell_z cl).

Definition getCell (c : VoxelChunk) (cl : Cell) : JsNum :=
  getBlock c (cell_x cl) (cell_y cl) (cell_z cl).

Definition setCell (c : VoxelChunk) (cl : Cell) (v : Z) : VoxelChunk :=
  setBlock c (cell_x cl) (cell_y cl) (cell_z cl) v.

(** [hit.point.clone().addScaledVector(normal, -0.5 * VOXEL_SIZE)] *)
Definition pointInside (p : Vec3) (n : Normal) : Vec3 :=
  let k := (-0.5 * VOXEL_SIZE)%float in
  mkVec3 (vx p + of_Z (nx n) * k)%float
         (vy p + of_Z (ny n) * k)%float
         (vz p + of_Z (nz n) * k)%float.

Definition adjacentCell (hitCell : Cell) (n : Normal) : Cell :=
  mkCell (cell_x hitCell + nx n) (cell_y hitCell + ny n) (cell_z hitCell + nz n).

(** The part of [updateHoverFromPointer] both builds share: the candidates
    [(hoverPlaceCell, hoverRemoveCell)] for a hit on a block face. *)
Definition pickBlockFace (c : VoxelChunk) (hit : Hit) (n : Normal)
    : option Cell * option Cell :=
  match worldPointToCell c (pointInside (point hit) n) true with
  | Some hitCell =>
      let adjacent := adjacentCell hitCell n in
      if cellInBounds c adjacent then
        if num_eqb (getCell c adjacent) Block.AIR
        then (Some adjacent, Some hitCell)
        else (None, Some hitCell)
      else (None, Some hitCell)
  | None => (None, None)
  end.

Definition clearPointerTimer (p : PointerState) : PointerState :=
  match timer p with
  | Some _ => mkPointerState (pointerId p) None (longPressFired p)
                (placeCell p) (removeCell p)
  | None => p
  end.

Definition clearPointerState (p : PointerState) : PointerState :=
  let p := clearPointerTimer p in
  mkPointerState None (timer p) false None None.

Definition idlePointerState : PointerState :=
  mkPointerState None None false None None.

Definition CHUNK_SIZE : Z := 16.
Definition CHUNK_HEIGHT : Z := 12.

(** [fillDefaultTerrain] is a sequence of [chunk.setBlock] calls whose cells
    and values come out of floating-point noise; the sequence is a
    parameter. *)
Definition fillDefaultTerrain (c : VoxelChunk) (writes : list (Cell * Z))
    : VoxelChunk :=
  fold_left (fun acc w => setCell acc (fst w) (snd w)) writes c.

(** [chunk.data.fill(value)] *)
Definition fillData (c : VoxelChunk) (v : Z) : VoxelChunk :=
  mkChunk (width c) (height c) (depth c)
          (replicate (length (data c)) (to_uint8 v)).

(** [loadChunkFromStorage]: the chunk afterwards and the boolean returned.
    [stored] is the item under [STORAGE_KEY]. *)
Definition loadChunkFromStorage (c : VoxelChunk) (stored : option (list Z))
    : VoxelChunk * bool :=
  match stored with
  | None => (c, false)
  | Some [] => (c, false)
  | Some encoded =>
      match decodeChunkData c encoded with
      | (c', None) => (c', true)
      | (c', Some _) => (c', false)
      end
  end.

(** ** The multi-block build *)

Record BlockType : Type := mkBlockType { id : Z; placeable : bool }.

Definition BLOCK_TYPES : list BlockType :=
  [ mkBlockType Block.AIR false; mkBlockType Block.GRASS true;
    mkBlockType Block.SAND true; mkBlockType Block.STONE true;
    mkBlockType Block.WATER true; mkBlockType Block.WOOD true ].

(** [blockTypeById.get(blockId)] *)
Definition blockTypeById (blockId : Z) : option BlockType :=
  List.find (fun b => id b =? blockId) BLOCK_TYPES.

Definition placeableBlocks : list BlockType :=
  List.filter (fun b => placeable b && negb (id b =? Block.AIR)) BLOCK_TYPES.

Definition defaultBlockId : Z := Block.GRASS.

Record State : Type := mkState {
  chunk : VoxelChunk;
  selectedBlockId : Z;
  undoStack : list Action;
  redoStack : list Action;
  isRestoring : bool;
  saveTimer : option TimerHandle;
  storage : option (list Z);
  hoverPlaceCell : option Cell;
  hoverRemoveCell : option Cell;
  lastPointerCoords : option (float * float);
  pointerState : PointerState
}.

Definition with_chunk (s : State) (c : VoxelChunk) : State :=
  mkState c (selectedBlockId s) (undoStack s) (redoStack s) (isRestoring s)
    (saveTimer s) (storage s) (hoverPlaceCell s) (hoverRemoveCell s)
    (lastPointerCoords s) (pointerState s).

Definition with_selectedBlockId (s : State) (b : Z) : State :=
  mkState (chunk s) b (undoStack s) (redoStack s) (isRestoring s)
    (saveTimer s) (storage s) (hoverPlaceCell s) (hoverRemoveCell s)
    (lastPointerCoords s) (pointerState s).

Definition with_stacks (s : State) (u r : list Action) : State :=
  mkState (chunk s) (selectedBlockId s) u r (isRestoring s)
    (saveTimer s) (storage s) (hoverPlaceCell s) (hoverRemoveCell s)
    (lastPointerCoords s) (pointerState s).

Definition with_isRestoring (s : State) (b : bool) : State :=
  mkState (chunk s) (selectedBlockId s) (undoStack s) (redoStack s) b
    (saveTimer s) (storage s) (hoverPlaceCell s) (hoverRemoveCell s)
    (lastPointerCoords s) (pointerState s).

Definition with_saveTimer (s : State) (t : option TimerHandle) : State :=
  mkState (chunk s) (selectedBlockId s) (undoStack s) (redoStack s)
    (isRestoring s) t (storage s) (hoverPlaceCell s) (hoverRemoveCell s)
    (lastPointerCoords s) (pointerState s).

Definition with_storage (s : State) (v : option (list Z)) : State :=
  mkState (chunk s) (selectedBlockId s) (undoStack s) (redoStack s)
    (isRestoring s) (saveTimer s) v (hoverPlaceCell s) (hoverRemoveCell s)
    (lastPointerCoords s) (pointerState s).

Definition with_hover (s : State) (p r : option Cell) : State :=
  mkState (chunk s) (selectedBlockId s) (undoStack s) (redoStack s)
    (isRestoring s) (saveTimer s) (storage s) p r
    (lastPointerCoords s) (pointerState s).

Definition with_lastPointerCoords (s : State) (xy : option (float * float)) : State :=
  mkState (chunk s) (selectedBlockId s) (undoStack s) (redoStack s)
    (isRestoring s) (saveTimer s) (storage s) (hoverPlaceCell s)
    (hoverRemoveCell s) xy (pointerState s).

Definition with_pointerState (s : State) (p : PointerState) : State :=
  mkState (chunk s) (selectedBlockId s) (undoStack s) (redoStack s)
    (isRestoring s) (saveTimer s) (storage s) (hoverPlaceCell s)
    (hoverRemoveCell s) (lastPointerCoords s) p.

(** [refreshChunkInstances], [updateHighlight], [updateStats],
    [updateHistoryButtons], [triggerFeedback] and the save-status label only
    drive the renderer and the page; they touch none of the state above and
    are left out of the functions below. *)

Definition setSelectedBlock (s : State) (blockId : Z) : State :=
  match blockTypeById blockId with
  | None => s
  | Some blockType =>
      if id blockType =? Block.AIR then s
      else with_selectedBlockId s (id blockType)
  end.

(** [flushSave].  The pending timer is cleared first; encoding and
    [localStorage.setItem] run inside [try].  [setItemOk] tells whether
    [setItem] returns: when it throws (quota, storage unavailable) the
    [catch] branch only reports the failure, so the stored item stays as it
    was. *)
Definition flushSave (s : State) (setItemOk : bool) : State :=
  let s := with_saveTimer s None in
  match encodeChunkData (chunk s) with
  | Some encoded => if setItemOk then with_storage s (Some encoded) else s
  | None => s
  end.

Definition scheduleSave (s : State) : State := with_saveTimer s (Some Armed).

(** The callback [scheduleSave] hands to [setTimeout]. *)
Definition saveTimeout (s : State) (setItemOk : bool) : State :=
  with_saveTimer (flushSave s setItemOk) None.

Definition updateHoverFromPointer (s : State) (intersections : list Hit)
    : State :=
  match lastPointerCoords s with
  | None => with_hover s None None
  | Some _ =>
      let s := with_hover s None None in
      match intersections with
      | [] => s
      | hit :: _ =>
          match hitIsBlock hit, face hit with
          | true, Some n =>
              let '(p, r) := pickBlockFace (chunk s) hit n in
              with_hover s p r
          | _, _ => s
          end
      end
  end.

Definition updateHover (s : State) (event : PointerEvent)
    (intersections : list Hit) : State :=
  updateHoverFromPointer (with_lastPointerCoords s (Some (coords event)))
    intersections.

Definition clearHistory (s : State) : State := with_stacks s [] [].

Definition invertAction (action : option Action) : option Action :=
  match action with
  | None => None
  | Some a =>
      match type a with
      | place => Some (mkAction remove (blockId a) (cloneCell (cell a)))
      | remove => Some (mkAction place (blockId a) (cloneCell (cell a)))
      end
  end.

Definition applyAction (s : State) (action : option Action) : State * bool :=
  match action with
  | None => (s, false)
  | Some a =>
      match cell a with
      | None => (s, false)
      | Some cl =>
          if negb (cellInBounds (chunk s) cl) then (s, false)
          else
            let value :=
              match type a with
              | place => default Block.AIR (blockId a)
              | remove => Block.AIR
              end in
            let s := with_isRestoring s true in
            let s := with_chunk s (setCell (chunk s) cl value) in
            let s := scheduleSave s in
            (with_isRestoring s false, true)
      end
  end.

Definition pushAction (s : State) (action : option Action) : State :=
  match action with
  | None => s
  | Some a =>
      let stored := mkAction (type a) (blockId a) (cloneCell (cell a)) in
      with_stacks s (stored :: undoStack s) []
  end.

Definition undo (s : State) : State :=
  match undoStack s with
  | [] => s
  | action :: rest =>
      let s := with_stacks s rest (redoStack s) in
      match invertAction (Some action) with
      | None => s
      | Some inverse =>
          let '(s, ok) := applyAction s (Some inverse) in
          if ok
          then with_stacks s (undoStack s)
                 (mkAction (type action) (blockId action)
                    (cloneCell (cell action)) :: redoStack s)
          else s
      end
  end.

Definition redo (s : State) : State :=
  match redoStack s with
  | [] => s
  | action :: rest =>
      let s := with_stacks s (undoStack s) rest in
      let '(s, ok) := applyAction s (Some action) in
      if ok
      then with_stacks s
             (mkAction (type action) (blockId action)
                (cloneCell (cell action)) :: undoStack s)
             (redoStack s)
      else s
  end.

Definition resetChunkState (s : State) (writes : list (Cell * Z))
    (setItemOk : bool) : State :=
  let s := with_chunk s (fillData (chunk s) Block.AIR) in
  let s := with_chunk s (fillDefaultTerrain (chunk s) writes) in
  let s := clearHistory s in
  flushSave s setItemOk.

Definition attemptPlace (s : State) (cl : option Cell)
    (intersections : list Hit) : State :=
  match cl with
  | None => s
  | Some c =>
      match blockTypeById (selectedBlockId s) with
      | None => s
      | Some blockType =>
          if id blockType =? Block.AIR then s
          else if negb (num_eqb (getCell (chunk s) c) Block.AIR) then s
          else
            let s := with_chunk s (setCell (chunk s) c (id blockType)) in
            let s := scheduleSave s in
            let s :=
              if negb (isRestoring s)
              then pushAction s
                     (Some (mkAction place (Some (id blockType))
                              (cloneCell (Some c))))
              else s in
            updateHoverFromPointer (with_hover s None None) intersections
      end
  end.

Definition attemptRemove (s : State) (cl : option Cell)
    (intersections : list Hit) : State :=
  match cl with
  | None => s
  | Some c =>
      let existing := getCell (chunk s) c in
      if num_eqb existing Block.AIR then s
      else
        let s := with_chunk s (setCell (chunk s) c Block.AIR) in
        let s := scheduleSave s in
        let s :=
          if negb (isRestoring s)
          then pushAction s
                 (Some (mkAction remove existing (cloneCell (Some c))))
          else s in
        updateHoverFromPointer (with_hover s None None) intersections
  end.

(** ** Gesture controller *)

Definition is_some {A} (o : option A) : bool :=
  match o with Some _ => true | None => false end.

Definition sameId (tracked : option Z) (i : Z) : bool :=
  match tracked with
  | Some t => t =? i
  | None => false
  end.

Definition handlePointerMove (s : State) (event : PointerEvent)
    (intersections : list Hit) : State :=
  let s := updateHover s event intersections in
  if sameId (pointerId (pointerState s)) (ev_pointerId event) then
    let p := pointerState s in
    let p := mkPointerState (pointerId p) (timer p) (longPressFired p)
               (cloneCell (hoverPlaceCell s)) (cloneCell (hoverRemoveCell s)) in
    let p := if negb (is_some (removeCell p)) then clearPointerTimer p else p in
    with_pointerState s p
  else s.

Definition handlePointerDown (s : State) (event : PointerEvent)
    (intersections : list Hit) : State :=
  if is_some (pointerId (pointerState s)) || (0 <? button event) then s
  else
    let s := updateHover s event intersections in
    if negb (is_some (hoverPlaceCell s)) && negb (is_some (hoverRemoveCell s))
    then s
    else
      let p := pointerState s in
      let p := mkPointerState (Some (ev_pointerId event)) (timer p) false
                 (cloneCell (hoverPlaceCell s))
                 (cloneCell (hoverRemoveCell s)) in
      let p := if is_some (removeCell p)
               then mkPointerState (pointerId p) (Some Armed)
                      (longPressFired p) (placeCell p) (removeCell p)
               else p in
      with_pointerState s p.

(** The callback [handlePointerDown] hands to [setTimeout]. *)
Definition longPressTimeout (s : State) (intersections : list Hit) : State :=
  let s := attemptRemove s (removeCell (pointerState s)) intersections in
  let p := pointerState s in
  with_pointerState s
    (mkPointerState (pointerId p) (timer p) true (placeCell p) (removeCell p)).

Definition handlePointerUp (s : State) (event : PointerEvent)
    (intersections : list Hit) : State :=
  if negb (sameId (pointerId (pointerState s)) (ev_pointerId event)) then s
  else
    let placeCell := cloneCell (placeCell (pointerState s)) in
    let shouldPlace :=
      negb (longPressFired (pointerState s)) && is_some placeCell in
    let s := with_pointerState s (clearPointerState (pointerState s)) in
    if shouldPlace then attemptPlace s placeCell intersections else s.

Definition handlePointerCancel (s : State) (event : PointerEvent) : State :=
  if negb (sameId (pointerId (pointerState s)) (ev_pointerId event)) then s
  else with_pointerState s (clearPointerState (pointerState s)).

Definition handlePointerLeave (s : State) : State :=
  let s := with_hover s None None in
  let s := with_pointerState s (clearPointerState (pointerState s)) in
  with_lastPointerCoords s None.

(** ** Events *)

(** Everything that makes the program run after start-up.  A timeout event
    is delivered only while its handle is [Armed]; on delivery the handle
    is [Spent] and the callback runs.  (One handle per timer variable is
    enough: the save timer is cleared before it is started again, and the
    long-press timer is started only while no pointer is tracked, when none
    is pending.)  Each event that makes the program cast a ray carries what
    the ray caster returns, and each event that makes it write to storage
    carries whether [localStorage.setItem] succeeds. *)
Inductive Event : Type :=
  | PointerMove (event : PointerEvent) (intersections : list Hit)
  | PointerDown (event : PointerEvent) (intersections : list Hit)
  | PointerUp (event : PointerEvent) (intersections : list Hit)
  | PointerCancel (event : PointerEvent)
  | PointerLeave
  | LongPressTimeout (intersections : list Hit)
  | SaveTimeout (setItemOk : bool)
  | ClickUndo
  | ClickRedo
  | ClickReset (writes : list (Cell * Z)) (setItemOk : bool)
  | ClickBlock (blockId : Z).

Definition spendPointerTimer (s : State) : State :=
  let p := pointerState s in
  with_pointerState s
    (mkPointerState (pointerId p) (Some Spent) (longPressFired p)
       (placeCell p) (removeCell p)).

Definition step (s : State) (e : Event) : State :=
  match e with
  | PointerMove event hits => handlePointerMove s event hits
  | PointerDown event hits => handlePointerDown s event hits
  | PointerUp event hits => handlePointerUp s event hits
  | PointerCancel event => handlePointerCancel s event
  | PointerLeave => handlePointerLeave s
  | LongPressTimeout hits =>
      match timer (pointerState s) with
      | Some Armed => longPressTimeout (spendPointerTimer s) hits
      | _ => s
      end
  | SaveTimeout setItemOk =>
      match saveTimer s with
      | Some Armed => saveTimeout s setItemOk
      | _ => s
      end
  | ClickUndo => undo s
  | ClickRedo => redo s
  | ClickReset writes setItemOk => resetChunkState s writes setItemOk
  | ClickBlock blockId => setSelectedBlock s blockId
  end.

Definition run (s : State) (events : list Event) : State :=
  fold_left step events s.

(** The state the module's top level leaves behind: the chunk is built,
    loaded from storage or else filled with the default terrain and saved
    ([setItemOk]: whether that first write to storage succeeds). *)
Definition startup (stored : option (list Z)) (writes : list (Cell * Z))
    (setItemOk : bool) : State :=
  let c := newChunk CHUNK_SIZE CHUNK_HEIGHT CHUNK_SIZE in
  let s := mkState c defaultBlockId [] [] false None stored None None None
             idlePointerState in
  let '(c', didLoad) := loadChunkFromStorage c stored in
  let s := with_chunk s c' in
  if didLoad then s
  else flushSave (with_chunk s (fillDefaultTerrain (chunk s) writes))
         setItemOk.

Inductive reachable : State -> Prop :=
  | reachable_startup stored writes setItemOk :
      reachable (startup stored writes setItemOk)
  | reachable_step s e : reachable s -> reachable (step s e).

(** ** Edits, gestures and what the ray caster can report *)

(** A user edit as the history sees it: choose a block in the palette and
    place it, or remove a block. *)
Inductive Edit : Type :=
  | EditPlace (blockId : Z) (cl : Cell) (intersections : list Hit)
  | EditRemove (cl : Cell) (intersections : list Hit).

Definition doEdit (s : State) (e : Edit) : State :=
  match e with
  | EditPlace blockId cl hits =>
      attemptPlace (setSelectedBlock s blockId) (Some cl) hits
  | EditRemove cl hits => attemptRemove s (Some cl) hits
  end.

Definition doEdits (s : State) (edits : list Edit) : State :=
  fold_left doEdit edits s.

(** Every edit of the list was committed: it pushed its action. *)
Fixpoint allCommitted (s : State) (edits : list Edit) : Prop :=
  match edits with
  | [] => True
  | e :: rest =>
      length (undoStack (doEdit s e)) = S (length (undoStack s))
      /\ allCommitted (doEdit s e) rest
  end.

(** The value an action writes when [applyAction] applies it. *)
Definition actionValue (a : Action) : Z :=
  match type a with
  | place => default Block.AIR (blockId a)
  | remove => Block.AIR
  end.

Definition actionInBounds (c : VoxelChunk) (a : Action) : Prop :=
  exists cl, cell a = Some cl /\ cellInBounds c cl = true.

Definition tracking (s : State) : bool := is_some (pointerId (pointerState s)).

(** The events of a gesture: pointer events and timeouts (and a palette
    click, which commits nothing); not the history buttons. *)
Definition gestureEvent (e : Event) : bool :=
  match e with
  | ClickUndo | ClickRedo | ClickReset _ _ => false
  | _ => true
  end.

(** Runs the events that follow an accepted pointer-down; [Some] when the
    controller is back to idle exactly at the last event. *)
Fixpoint completeGesture (s : State) (events : list Event) : option State :=
  match events with
  | [] => None
  | e :: rest =>
      let s' := step s e in
      if tracking s' then completeGesture s' rest
      else match rest with
           | [] => Some s'
           | _ :: _ => None
           end
  end.

(** What one commit does to grid and history. *)
Definition oneCommit (s s' : State) (a : Action) : Prop :=
  exists cl, cell a = Some cl
    /\ chunk s' = setCell (chunk s) cl (actionValue a)
    /\ undoStack s' = a :: undoStack s /\ redoStack s' = [].

(** Whether [applyAction] goes through with the action. *)
Definition actionApplies (c : VoxelChunk) (a : Action) : bool :=
  match cell a with
  | Some cl => cellInBounds c cl
  | None => false
  end.

(** Action [a] took grid [c] to grid [c'], and its inverse takes [c'] back
    to [c]. *)
Definition commitStep (c : VoxelChunk) (a : Action) (c' : VoxelChunk) : Prop :=
  exists cl inv,
    cell a = Some cl /\ invertAction (Some a) = Some inv
    /\ c' = setCell c cl (actionValue a)
    /\ c = setCell c' cl (actionValue inv).

(** The actions [acts], oldest first, were committed one after the other
    and took grid [c0] to grid [c1]. *)
Inductive Recorded : VoxelChunk -> list Action -> VoxelChunk -> Prop :=
  | Recorded_nil c : Recorded c [] c
  | Recorded_cons c0 a c1 acts c2 :
      commitStep c0 a c1 -> Recorded c1 acts c2 -> Recorded c0 (a :: acts) c2.

(** What every reachable state satisfies: the grid is well formed, no
    restore is under way, and every cell kept for later use as a placement
    target or inside a recorded action lies within the grid. *)
Definition invariant (s : State) : Prop :=
  wf_chunk (chunk s)
  /\ isRestoring s = false
  /\ Forall (actionInBounds (chunk s)) (undoStack s)
  /\ Forall (actionInBounds (chunk s)) (redoStack s)
  /\ (forall x, hoverPlaceCell s = Some x -> cellInBounds (chunk s) x = true)
  /\ (forall x, placeCell (pointerState s) = Some x ->
        cellInBounds (chunk s) x = true).

(** The edit-relevant part of the state is the same. *)
Definition sameDocument (s s' : State) : Prop :=
  chunk s' = chunk s /\ selectedBlockId s' = selectedBlockId s
  /\ undoStack s' = undoStack s /\ redoStack s' = redoStack s
  /\ isRestoring s' = isRestoring s /\ saveTimer s' = saveTimer s
  /\ storage s' = storage s.

Definition noCommit (s s' : State) : Prop :=
  chunk s' = chunk s /\ undoStack s' = undoStack s
  /\ redoStack s' = redoStack s.

(** The state a committed edit leaves, up to the hover variables. *)
Definition committed (s : State) (a : Action) (cl : Cell) : State :=
  let s1 := scheduleSave (with_chunk s (setCell (chunk s) cl (actionValue a))) in
  if isRestoring s then s1 else pushAction s1 (Some a).

(** What holds of a state [s] inside a gesture that began in state [s0]:
    either nothing was committed yet, or the long press fired and committed
    one action; and once the long press has fired its timer is no longer
    pending. *)
Definition gestureInv (s0 s : State) : Prop :=
  isRestoring s = false
  /\ ((noCommit s0 s
       /\ (longPressFired (pointerState s) = true ->
             timer (pointerState s) <> Some Armed))
      \/ (exists a, oneCommit s0 s a /\ type a = remove
                    /\ longPressFired (pointerState s) = true
                    /\ timer (pointerState s) <> Some Armed)).

(** What the picker may leave in the hover variables: a placement candidate
    is an in-bounds cell that reads [Block.AIR], a removal candidate is an
    in-bounds cell. *)
Definition hoverOk (c : VoxelChunk) (p r : option Cell) : Prop :=
  (forall x, p = Some x ->
     cellInBounds c x = true /\ getCell c x = Some Block.AIR)
  /\ (forall x, r = Some x -> cellInBounds c x = true).

(** An instance is drawn for the cell: it holds a block that has a mesh. *)
Definition drawn (c : VoxelChunk) (cl : Cell) : Prop :=
  cellInBounds c cl = true
  /\ exists b, getCell c cl = Some b /\ b <> Block.AIR
               /\ is_some (blockTypeById b) = true.

(** ** Traversal and instanced meshes *)

(** [VoxelChunk.forEach(callback)].  The callback is run for its effect; the
    effect is threaded through as an accumulator.  The three [for] loops
    run [y], then [z], then [x] from 0 up to the dimension; a dimension that
    is not positive gives no iteration.  Every cell is read with [getBlock]
    just before its call. *)
Definition forEach {A : Type} (c : VoxelChunk)
    (callback : A -> JsNum -> Z -> Z -> Z -> A) (acc : A) : A :=
  fold_left
    (fun acc y =>
       fold_left
         (fun acc z =>
            fold_left
              (fun acc x => callback acc (getBlock c x y z) x y z)
              (seqZ 0 (width c)) acc)
         (seqZ 0 (depth c)) acc)
    (seqZ 0 (height c)) acc.

(** A [THREE.InstancedMesh] as far as the program uses it.  Every matrix the
    program writes is a translation ([makeTranslation]), so its position
    stands for it; [None] is a slot of the instance buffer that was never
    written.  The buffer is a typed array of fixed capacity.  The positions
    are half-integers of small magnitude, which the buffer holds exactly. *)
Record Mesh : Type := mkMesh {
  matrices : list (option Vec3);
  count : Z;
  visible : bool
}.

(** [mesh.setMatrixAt(index, matrix)]: a write past the end of the typed
    array is dropped. *)
Definition setMatrixAt (m : Mesh) (index : Z) (pos : Vec3) : Mesh :=
  mkMesh (if 0 <=? index
          then <[Z.to_nat index := Some pos]> (matrices m)
          else matrices m)
         (count m) (visible m).

(** [new THREE.InstancedMesh(geometry, material, capacity)] *)
Definition newMesh (capacity : Z) (vis : bool) : Mesh :=
  mkMesh (replicate (Z.to_nat capacity) None) capacity vis.

(** The positions of the instances that are drawn: the first [count]. *)
Definition instances (m : Mesh) : list (option Vec3) :=
  take (Z.to_nat (count m)) (matrices m).

(** ** The single-block build *)

Module SingleBlock.

Record State : Type := mkState {
  chunk : VoxelChunk;
  saveTimer : option TimerHandle;
  storage : option (list Z);
  hoverPlaceCell : option Cell;
  hoverRemoveCell : option Cell;
  lastPointerCoords : option (float * float);
  pointerState : PointerState
}.

Definition with_chunk (s : State) (c : VoxelChunk) : State :=
  mkState c (saveTimer s) (storage s) (hoverPlaceCell s)
    (hoverRemoveCell s) (lastPointerCoords s) (pointerState s).

Definition with_hover (s : State) (p r : option Cell) : State :=
  mkState (chunk s) (saveTimer s) (storage s) p r (lastPointerCoords s)
    (pointerState s).

Definition scheduleSave (s : State) : State :=
  mkState (chunk s) (Some Armed) (storage s) (hoverPlaceCell s)
    (hoverRemoveCell s) (lastPointerCoords s) (pointerState s).

(** The ground-plane branch of [updateHoverFromPointer]. *)
Definition pickGround (c : VoxelChunk) (hit : Hit)
    : option Cell * option Cell :=
  match worldPointToCell c (point hit) false with
  | Some groundCell =>
      let groundCell := mkCell (cell_x groundCell) 0 (cell_z groundCell) in
      if num_eqb (getCell c groundCell) Block.AIR
      then (Some groundCell, None)
      else (None, Some groundCell)
  | None => (None, None)
  end.

Definition updateHoverFromPointer (s : State) (intersections : list Hit)
    : State :=
  match lastPointerCoords s with
  | None => with_hover s None None
  | Some _ =>
      let s := with_hover s None None in
      match intersections with
      | [] => s
      | hit :: _ =>
          let '(p, r) :=
            match hitIsBlock hit, face hit with
            | true, Some n => pickBlockFace (chunk s) hit n
            | _, _ => pickGround (chunk s) hit
            end in
          with_hover s p r
      end
  end.

Definition attemptPlace (s : State) (cl : option Cell)
    (intersections : list Hit) : State :=
  match cl with
  | None => s
  | Some c =>
      if negb (num_eqb (getCell (chunk s) c) Block.AIR) then s
      else
        let s := with_chunk s (setCell (chunk s) c Block.SOLID) in
        let s := scheduleSave s in
        updateHoverFromPointer (with_hover s None None) intersections
  end.

Definition attemptRemove (s : State) (cl : option Cell)
    (intersections : list Hit) : State :=
  match cl with
  | None => s
  | Some c =>
      if num_eqb (getCell (chunk s) c) Block.AIR then s
      else
        let s := with_chunk s (setCell (chunk s) c Block.AIR) in
        let s := scheduleSave s in
        updateHoverFromPointer (with_hover s None None) intersections
  end.

(** [fillDefaultTerrain] of this build: a solid ground layer. *)
Definition fillDefaultTerrain (c : VoxelChunk) : VoxelChunk :=
  fold_left
    (fun c x =>
       fold_left (fun c z => setBlock c x 0 z Block.SOLID)
         (seqZ 0 CHUNK_SIZE) c)
    (seqZ 0 CHUNK_SIZE) c.

(** [refreshChunkInstances]: one mesh, an instance for every cell that reads
    [Block.SOLID]. *)
Definition refreshChunkInstances (solidMesh : Mesh) (c : VoxelChunk) : Mesh :=
  let '(solidMesh, solidIndex) :=
    forEach c
      (fun '(solidMesh, solidIndex) value x y z =>
         if negb (num_eqb value Block.SOLID) then (solidMesh, solidIndex)
         else
           let pos := cellToWorld c x y z in
           (setMatrixAt solidMesh solidIndex pos, solidIndex + 1))
      (solidMesh, 0) in
  mkMesh (matrices solidMesh) solidIndex (visible solidMesh).

End SingleBlock.


(** ** Notions used by the further properties *)

(** The undo stack [stack] (most recent action first) accounts for grid
    [c]: each action took the grid before it to the grid after it, and its
    inverse takes that back. *)
Inductive Past : VoxelChunk -> list Action -> Prop :=
  | Past_nil c : Past c []
  | Past_cons c0 a c stack :
      commitStep c0 a c -> Past c0 stack -> Past c (a :: stack).

(** The write to storage the event makes, if it makes one, succeeds. *)
Definition writeSucceeds (e : Event) : bool :=
  match e with
  | SaveTimeout setItemOk | ClickReset _ setItemOk => setItemOk
  | _ => true
  end.

(** The states the program reaches as long as no write to storage fails. *)
Inductive reachableSaving : State -> Prop :=
  | saving_startup stored writes :
      reachableSaving (startup stored writes true)
  | saving_step s e :
      reachableSaving s -> writeSucceeds e = true ->
      reachableSaving (step s e).

(** The stored item decodes to the bytes of the grid. *)
Definition storageCurrent (s : State) : Prop :=
  exists text, storage s = Some text /\ atob text = Some (data (chunk s)).

(** What one event does to the grid, the history, the block selection and
    the save machinery; [ok] tells whether the write to storage it may make
    succeeds. *)
Inductive StepEffect (ok : bool) (s s' : State) : Prop :=
  | Eff_none :
      sameDocument s s' -> StepEffect ok s s'
  | Eff_commit a :
      commitStep (chunk s) a (chunk s') ->
      (type a = place -> blockId a = Some (selectedBlockId s)) ->
      undoStack s' = a :: undoStack s -> redoStack s' = [] ->
      selectedBlockId s' = selectedBlockId s ->
      saveTimer s' = Some Armed -> storage s' = storage s ->
      StepEffect ok s s'
  | Eff_undo a rest cl inv :
      undoStack s = a :: rest -> cell a = Some cl ->
      invertAction (Some a) = Some inv ->
      chunk s' = setCell (chunk s) cl (actionValue inv) ->
      undoStack s' = rest -> redoStack s' = a :: redoStack s ->
      selectedBlockId s' = selectedBlockId s ->
      saveTimer s' = Some Armed -> storage s' = storage s ->
      StepEffect ok s s'
  | Eff_redo a rest cl :
      redoStack s = a :: rest -> cell a = Some cl ->
      chunk s' = setCell (chunk s) cl (actionValue a) ->
      undoStack s' = a :: undoStack s -> redoStack s' = rest ->
      selectedBlockId s' = selectedBlockId s ->
      saveTimer s' = Some Armed -> storage s' = storage s ->
      StepEffect ok s s'
  | Eff_save :
      chunk s' = chunk s -> undoStack s' = undoStack s ->
      redoStack s' = redoStack s ->
      selectedBlockId s' = selectedBlockId s ->
      saveTimer s' = None ->
      storage s' = (if ok then encodeChunkData (chunk s) else storage s) ->
      StepEffect ok s s'
  | Eff_reset writes :
      chunk s' = fillDefaultTerrain (fillData (chunk s) Block.AIR) writes ->
      undoStack s' = [] -> redoStack s' = [] ->
      selectedBlockId s' = selectedBlockId s ->
      saveTimer s' = None ->
      storage s' = (if ok then encodeChunkData (chunk s') else storage s) ->
      StepEffect ok s s'
  | Eff_select bt :
      chunk s' = chunk s -> undoStack s' = undoStack s ->
      redoStack s' = redoStack s -> saveTimer s' = saveTimer s ->
      storage s' = storage s ->
      blockTypeById (selectedBlockId s') = Some bt -> id bt <> Block.AIR ->
      StepEffect ok s s'.


(** The round trip cell to world position to cell, computed along one
    horizontal axis of a grid [w] cells wide for column [x], and along the
    vertical axis for layer [y]; [true] when it gives the coordinate back. *)
Definition horizontalRoundTrip (w x : Z) : bool :=
  let half := (of_Z w * VOXEL_SIZE / 2)%float in
  let position := ((of_Z x + 0.5) * VOXEL_SIZE - half)%float in
  match Math_floor ((position + half) / VOXEL_SIZE) with
  | Some k => k =? x
  | None => false
  end.

Definition verticalRoundTrip (snapY : bool) (y : Z) : bool :=
  let position := (of_Z y * VOXEL_SIZE)%float in
  let yRaw := if snapY then (position / VOXEL_SIZE)%float else position in
  match Math_floor (yRaw + 0.5) with
  | Some k => k =? y
  | None => false
  end.

(** All round trips of the grids of at most [n] cells a side. *)
Definition roundTripsUpTo (n : Z) : bool :=
  forallb (fun w => forallb (horizontalRoundTrip w) (seqZ 0 w))
    (seqZ 0 (n + 1))
  && forallb (fun y => verticalRoundTrip true y && verticalRoundTrip false y)
       (seqZ 0 n).

(** The cell stored at index [k] of the byte array. *)
Definition indexCell (c : VoxelChunk) (k : Z) : Cell :=
  mkCell (k mod width c) (k / (width c * depth c)) ((k / width c) mod depth c).

(** What [forEach] hands to its callback for a cell. *)
Definition visit {A : Type} (c : VoxelChunk)
    (callback : A -> JsNum -> Z -> Z -> Z -> A) (acc : A) (cl : Cell) : A :=
  callback acc (getCell c cl) (cell_x cl) (cell_y cl) (cell_z cl).

(** The calls [forEach] makes, in order: the value and the cell of each. *)
Definition calls (c : VoxelChunk) : list (JsNum * Cell) :=
  (fun k => (u8_get (data c) k, indexCell c k)) <$> seqZ 0 (cellCount c).

(** ** Rendering of the multi-block build *)

(** An entry of [blockMeshStates]: the mesh of a block type and the next
    free instance slot. *)
Record MeshState : Type := mkMeshState { mesh : Mesh; index : Z }.

(** [blockMeshStates], a [Map] from block id to its entry.  Every key has an
    entry object of its own, so a change to one is seen under that key
    only. *)
Definition MeshStates : Type := Z -> option MeshState.

Definition setState (states : MeshStates) (key : Z) (s : MeshState)
    : MeshStates :=
  fun k => if k =? key then Some s else states k.

(** [blockMeshStates.get(value)] for a value read from the grid. *)
Definition getState (states : MeshStates) (value : JsNum)
    : option MeshState :=
  match value with
  | Some v => states v
  | None => None
  end.

(** The map the module builds at its top level: a hidden mesh of capacity
    [CHUNK_CAPACITY] for every placeable block type. *)
Definition blockMeshStates (c : VoxelChunk) : MeshStates :=
  fold_left
    (fun states blockType =>
       setState states (id blockType)
         (mkMeshState (newMesh (cellCount c) false) 0))
    placeableBlocks (fun _ => None).

(** [refreshChunkInstances]: the entries afterwards and the total handed to
    [updateStats].  The colour tint of an instance is left out. *)
Definition refreshChunkInstances (states : MeshStates) (c : VoxelChunk)
    : MeshStates * Z :=
  let states : MeshStates :=
    fun k => (fun s => mkMeshState (mesh s) 0) <$> states k in
  let '(states, totalBlocks) :=
    forEach c
      (fun '(states, totalBlocks) value x y z =>
         if num_eqb value Block.AIR then (states, totalBlocks)
         else
           match value, getState states value with
           | Some v, Some state =>
               let pos := cellToWorld c x y z in
               let state :=
                 mkMeshState (setMatrixAt (mesh state) (index state) pos)
                   (index state + 1) in
               (setState states v state, totalBlocks + 1)
           | _, _ => (states, totalBlocks)
           end)
      (states, 0) in
  let states : MeshStates :=
    fun k =>
      (fun s =>
         mkMeshState
           (mkMesh (matrices (mesh s)) (index s) (0 <? index s))
           (index s)) <$> states k in
  (states, totalBlocks).

(** The world position of the instance drawn for a cell. *)
Definition cellPosition (c : VoxelChunk) (cl : Cell) : Vec3 :=
  cellToWorld c (cell_x cl) (cell_y cl) (cell_z cl).

(** The callback of [refreshChunkInstances] on one call of [forEach]. *)
Definition instanceStep (c : VoxelChunk) (acc : MeshStates * Z)
    (p : JsNum * Cell) : MeshStates * Z :=
  if num_eqb p.1 Block.AIR then acc
  else
    match p.1, getState acc.1 p.1 with
    | Some v, Some state =>
        (setState acc.1 v
           (mkMeshState
              (setMatrixAt (mesh state) (index state) (cellPosition c p.2))
              (index state + 1)),
         acc.2 + 1)
    | _, _ => acc
    end.

(** The cell of the call holds block [k], and [k] is not air. *)
Definition holds (k : Z) (p : JsNum * Cell) : bool :=
  negb (num_eqb p.1 Block.AIR) && num_eqb p.1 k.

(** The cell of the call holds a block that has a mesh. *)
Definition hasMesh (states : MeshStates) (p : JsNum * Cell) : bool :=
  negb (num_eqb p.1 Block.AIR) && is_some (getState states p.1).

(** ** Facts about the grid *)

Lemma inBounds_spec c x y z :
  inBounds c x y z = true <->
  0 <= x < width c /\ 0 <= y < height c /\ 0 <= z < depth c.
Proof. unfold inBounds. rewrite !andb_true_iff. lia. Qed.

Lemma getIndex_range c x y z :
  inBounds c x y z = true -> 0 <= getIndex c x y z < cellCount c.
Proof.
  rewrite inBounds_spec. unfold getIndex, cellCount.
  intros (Hx & Hy & Hz).
  set (w := width c) in *. set (h := height c) in *. set (d := depth c) in *.
  assert (Hzw : 0 <= z * w <= (d - 1) * w).
  { split; [apply Z.mul_nonneg_nonneg; lia|].
    apply Z.mul_le_mono_nonneg_r; lia. }
  assert (Hwd : 0 <= w * d) by (apply Z.mul_nonneg_nonneg; lia).
  assert (Hy' : 0 <= y * (w * d) <= (h - 1) * (w * d)).
  { split; [apply Z.mul_nonneg_nonneg; lia|].
    apply Z.mul_le_mono_nonneg_r; lia. }
  rewrite <- (Z.mul_assoc y w d).
  replace (w * h * d) with ((h - 1) * (w * d) + (d - 1) * w + w) by ring.
  lia.
Qed.

Lemma getIndex_inj c x y z x' y' z' :
  inBounds c x y z = true -> inBounds c x' y' z' = true ->
  getIndex c x y z = getIndex c x' y' z' -> x = x' /\ y = y' /\ z = z'.
Proof.
  rewrite !inBounds_spec. unfold getIndex.
  set (w := width c). set (h := height c). set (d := depth c).
  intros (Hx & Hy & Hz) (Hx' & Hy' & Hz') E.
  rewrite <- !(Z.mul_assoc _ w d) in E.
  assert (Hrow : forall a b, 0 <= a < d -> 0 <= b < w -> 0 <= a * w + b < w * d).
  { intros a b Ha Hb.
    assert (0 <= a * w <= (d - 1) * w).
    { split; [apply Z.mul_nonneg_nonneg; lia|].
      apply Z.mul_le_mono_nonneg_r; lia. }
    replace (w * d) with ((d - 1) * w + w) by ring. lia. }
  pose proof (Hrow z x Hz Hx) as R1. pose proof (Hrow z' x' Hz' Hx') as R2.
  assert (Ey : y = y').
  { destruct (Z.lt_trichotomy y y') as [L | [L | L]]; [exfalso | done | exfalso].
    - assert ((y + 1) * (w * d) <= y' * (w * d))
        by (apply Z.mul_le_mono_nonneg_r; lia).
      replace ((y + 1) * (w * d)) with (y * (w * d) + w * d) in * by ring. lia.
    - assert ((y' + 1) * (w * d) <= y * (w * d))
        by (apply Z.mul_le_mono_nonneg_r; lia).
      replace ((y' + 1) * (w * d)) with (y' * (w * d) + w * d) in * by ring. lia. }
  subst y'.
  assert (Ez : z = z').
  { destruct (Z.lt_trichotomy z z') as [L | [L | L]]; [exfalso | done | exfalso].
    - assert ((z + 1) * w <= z' * w) by (apply Z.mul_le_mono_nonneg_r; lia).
      replace ((z + 1) * w) with (z * w + w) in * by ring. lia.
    - assert ((z' + 1) * w <= z * w) by (apply Z.mul_le_mono_nonneg_r; lia).
      replace ((z' + 1) * w) with (z' * w + w) in * by ring. lia. }
  subst z'. lia.
Qed.

Lemma newChunk_wf w h d : 0 <= w * h * d -> wf_chunk (newChunk w h d).
Proof.
  intros. split; unfold cellCount; simpl.
  - rewrite length_replicate. lia.
  - apply Forall_replicate. unfold is_byte. lia.
Qed.

Lemma to_uint8_byte v : is_byte (to_uint8 v).
Proof. unfold is_byte, to_uint8. apply Z.mod_pos_bound. lia. Qed.

Lemma to_uint8_id v : is_byte v -> to_uint8 v = v.
Proof. unfold is_byte, to_uint8. intros. by apply Z.mod_small. Qed.

Lemma u8_set_length d i v : length (u8_set d i v) = length d.
Proof. unfold u8_set. case_match; [apply length_insert | done]. Qed.

Lemma u8_set_bytes d i v : Forall is_byte d -> Forall is_byte (u8_set d i v).
Proof.
  unfold u8_set. intros. case_match; [|done].
  apply Forall_insert; [done | apply to_uint8_byte].
Qed.

Lemma u8_get_set_eq d i v :
  0 <= i < Z.of_nat (length d) -> u8_get (u8_set d i v) i = Some (to_uint8 v).
Proof.
  intros. unfold u8_get, u8_set.
  destruct (0 <=? i) eqn:E; [|lia].
  apply list_lookup_insert_eq. lia.
Qed.

Lemma u8_get_set_ne d i j v :
  i <> j -> u8_get (u8_set d i v) j = u8_get d j.
Proof.
  intros. unfold u8_get, u8_set.
  destruct (0 <=? j) eqn:Ej; [|done].
  destruct (0 <=? i) eqn:Ei; [|done].
  apply list_lookup_insert_ne. lia.
Qed.

Lemma u8_get_in_range d i :
  Forall is_byte d -> 0 <= i < Z.of_nat (length d) ->
  exists b, u8_get d i = Some b /\ is_byte b.
Proof.
  intros Hb Hi. unfold u8_get. destruct (0 <=? i) eqn:E; [|lia].
  destruct (lookup_lt_is_Some_2 d (Z.to_nat i)) as [b Hl]; [lia|].
  exists b. split; [done|]. by eapply Forall_lookup_1.
Qed.

Lemma setBlock_dims c x y z v :
  width (setBlock c x y z v) = width c /\
  height (setBlock c x y z v) = height c /\
  depth (setBlock c x y z v) = depth c.
Proof. unfold setBlock. by case_match. Qed.

Lemma setBlock_cellCount c x y z v :
  cellCount (setBlock c x y z v) = cellCount c.
Proof. unfold cellCount. destruct (setBlock_dims c x y z v) as (-> & -> & ->). done. Qed.

Lemma setBlock_inBounds c x y z v x' y' z' :
  inBounds (setBlock c x y z v) x' y' z' = inBounds c x' y' z'.
Proof. unfold inBounds. destruct (setBlock_dims c x y z v) as (-> & -> & ->). done. Qed.

Lemma setBlock_wf c x y z v : wf_chunk c -> wf_chunk (setBlock c x y z v).
Proof.
  intros [Hl Hb]. split.
  - rewrite setBlock_cellCount. unfold setBlock. case_match; [done|].
    simpl. by rewrite u8_set_length.
  - unfold setBlock. case_match; [done|]. simpl. by apply u8_set_bytes.
Qed.

Lemma setBlock_oob c x y z v :
  inBounds c x y z = false -> setBlock c x y z v = c.
Proof. unfold setBlock. by intros ->. Qed.

Lemma getBlock_oob c x y z :
  inBounds c x y z = false -> getBlock c x y z = Some Block.AIR.
Proof. unfold getBlock. by intros ->. Qed.

Lemma getBlock_setBlock_eq c x y z v :
  wf_chunk c -> inBounds c x y z = true ->
  getBlock (setBlock c x y z v) x y z = Some (to_uint8 v).
Proof.
  intros [Hl _] Hin. unfold getBlock. rewrite setBlock_inBounds, Hin. simpl.
  unfold setBlock. rewrite Hin. simpl.
  pose proof (getIndex_range c x y z Hin) as Hr.
  unfold getIndex in *. cbn [width height depth data] in *.
  apply u8_get_set_eq. lia.
Qed.

Lemma getBlock_setBlock_ne c x y z v x' y' z' :
  (x', y', z') <> (x, y, z) ->
  getBlock (setBlock c x y z v) x' y' z' = getBlock c x' y' z'.
Proof.
  intros Hne. unfold getBlock. rewrite setBlock_inBounds.
  destruct (inBounds c x' y' z') eqn:Hin'; [|done]. simpl.
  unfold setBlock. destruct (inBounds c x y z) eqn:Hin; [|done]. simpl.
  apply u8_get_set_ne. intros E.
  destruct (getIndex_inj c x y z x' y' z' Hin Hin' E) as (-> & -> & ->).
  by apply Hne.
Qed.

Lemma getBlock_in_bounds c x y z :
  wf_chunk c -> inBounds c x y z = true ->
  exists b, getBlock c x y z = Some b /\ is_byte b.
Proof.
  intros [Hl Hb] Hin. unfold getBlock. rewrite Hin. simpl.
  apply u8_get_in_range; [done|].
  pose proof (getIndex_range c x y z Hin). lia.
Qed.

(** C1. For an in-bounds coordinate, reading the grid right after
    [setBlock(x,y,z,v)] returns the block value [v]; for an out-of-bounds
    coordinate [getBlock] returns [Block.AIR] whatever the grid holds and
    [setBlock] hands the grid back untouched; and a read of a well-formed
    grid always produces a byte, never [undefined]. *)
Theorem getBlock_after_setBlock (c : VoxelChunk) (x y z v : Z) :
  (inBounds c x y z = true -> wf_chunk c -> is_byte v ->
     getBlock (setBlock c x y z v) x y z = Some v)
  /\ (inBounds c x y z = false ->
        getBlock c x y z = Some Block.AIR /\ setBlock c x y z v = c)
  /\ (wf_chunk c -> exists b, getBlock c x y z = Some b /\ is_byte b).
Proof.
  split; [|split].
  - intros Hin Hwf Hv. rewrite getBlock_setBlock_eq by done.
    by rewrite to_uint8_id.
  - intros Hout. split; [by apply getBlock_oob | by apply setBlock_oob].
  - intros Hwf. destruct (inBounds c x y z) eqn:Hin.
    + by apply getBlock_in_bounds.
    + exists Block.AIR. split; [by apply getBlock_oob|].
      unfold is_byte, Block.AIR. lia.
Qed.

Lemma getBlock_after_setBlock_witness :
  getBlock (setBlock (newChunk 2 2 2) 1 0 1 Block.STONE) 1 0 1
    = Some Block.STONE
  /\ getBlock (newChunk 2 2 2) 2 0 0 = Some Block.AIR
  /\ exists b, getBlock (newChunk 2 2 2) 1 1 1 = Some b /\ is_byte b.
Proof.
  assert (Hwf : wf_chunk (newChunk 2 2 2)).
  { split; [reflexivity|]. vm_compute. repeat constructor; discriminate. }
  split; [|split].
  - apply (proj1 (getBlock_after_setBlock (newChunk 2 2 2) 1 0 1 Block.STONE)).
    + reflexivity.
    + exact Hwf.
    + unfold is_byte, Block.STONE. lia.
  - apply (proj1 (proj2 (getBlock_after_setBlock (newChunk 2 2 2) 2 0 0 0))).
    reflexivity.
  - apply (proj2 (proj2 (getBlock_after_setBlock (newChunk 2 2 2) 1 1 1 0))).
    exact Hwf.
Defined.

(** ** Base64 *)

Lemma list_ind3 {A} (P : list A -> Prop) :
  P [] -> (forall a, P [a]) -> (forall a b, P [a; b]) ->
  (forall a b c l, P l -> P (a :: b :: c :: l)) ->
  forall l, P l.
Proof.
  intros H0 H1 H2 H3.
  assert (H : forall l, P l /\ (forall a, P (a :: l)) /\ (forall a b, P (a :: b :: l))).
  { induction l as [|x l (IH0 & IH1 & IH2)]; [by repeat split|].
    repeat split; auto. }
  intros l. apply H.
Qed.

Lemma b64_char_facts s :
  0 <= s < 64 ->
  b64_index (b64_char s) = Some s
  /\ (b64_char s =? b64_pad) = false
  /\ is_ascii_whitespace (b64_char s) = false.
Proof.
  intros Hs. rewrite <- (Z2Nat.id s) by lia.
  assert (Hn : (Z.to_nat s < 64)%nat) by lia.
  revert Hn. generalize (Z.to_nat s). intros n Hn.
  do 64 (destruct n as [|n]; [by vm_compute|]). lia.
Qed.

Lemma sextets_of_bytes a b c :
  is_byte a -> is_byte b -> is_byte c ->
  0 <= a / 4 < 64 /\ 0 <= a mod 4 * 16 + b / 16 < 64
  /\ 0 <= b mod 16 * 4 + c / 64 < 64 /\ 0 <= c mod 64 < 64
  /\ 0 <= a mod 4 * 16 < 64 /\ 0 <= b mod 16 * 4 < 64.
Proof. unfold is_byte. intros. repeat split; Z.div_mod_to_equations; lia. Qed.

Lemma bytes_of_sextets a b c :
  is_byte a -> is_byte b -> is_byte c ->
  a / 4 * 4 + (a mod 4 * 16 + b / 16) / 16 = a
  /\ (a mod 4 * 16 + b / 16) mod 16 * 16 + (b mod 16 * 4 + c / 64) / 4 = b
  /\ (b mod 16 * 4 + c / 64) mod 4 * 64 + c mod 64 = c
  /\ a / 4 * 4 + (a mod 4 * 16) / 16 = a
  /\ (a mod 4 * 16 + b / 16) mod 16 * 16 + (b mod 16 * 4) / 4 = b.
Proof. unfold is_byte. intros. repeat split; Z.div_mod_to_equations; lia. Qed.

Lemma strip_padding_cons3 a b c l :
  strip_padding (a :: b :: c :: l) = a :: strip_padding (b :: c :: l).
Proof. reflexivity. Qed.

Lemma b64_encode_shape bytes :
  b64_encode bytes = []
  \/ exists e1 e2 e3 e4 l, b64_encode bytes = e1 :: e2 :: e3 :: e4 :: l.
Proof.
  destruct bytes as [|a [|b [|c rest]]]; [by left | right; simpl; eauto 10 ..].
Qed.

Lemma strip_padding_group c1 c2 c3 c4 bytes :
  (c3 =? b64_pad) = false -> (c4 =? b64_pad) = false ->
  strip_padding (c1 :: c2 :: c3 :: c4 :: b64_encode bytes)
  = c1 :: c2 :: c3 :: c4 :: strip_padding (b64_encode bytes).
Proof.
  intros H3 H4. rewrite !strip_padding_cons3.
  destruct (b64_encode_shape bytes) as [-> | (e1 & e2 & e3 & e4 & l & ->)].
  - cbn [strip_padding]. by rewrite H4.
  - by rewrite !strip_padding_cons3.
Qed.

Lemma mod4_step (n : nat) : (S (S (S (S n))) mod 4 = n mod 4)%nat.
Proof.
  replace (S (S (S (S n)))) with (n + 1 * 4)%nat by lia.
  apply Nat.Div0.mod_add.
Qed.

Lemma b64_encode_length bytes : (length (b64_encode bytes) mod 4 = 0)%nat.
Proof.
  induction bytes as [| a | a b | a b c l IH] using list_ind3; try reflexivity.
  cbn [b64_encode length]. by rewrite mod4_step.
Qed.

Lemma b64_encode_no_whitespace bytes :
  Forall is_byte bytes ->
  List.filter (fun c => negb (is_ascii_whitespace c)) (b64_encode bytes)
  = b64_encode bytes.
Proof.
  induction bytes as [| a | a b | a b c l IH] using list_ind3; intros Hb.
  - reflexivity.
  - apply Forall_cons in Hb as [Ha _].
    destruct (sextets_of_bytes a a a Ha Ha Ha) as (S1 & _ & _ & _ & S5 & _).
    cbn [b64_encode List.filter].
    destruct (b64_char_facts _ S1) as (_ & _ & ->).
    destruct (b64_char_facts _ S5) as (_ & _ & ->). reflexivity.
  - apply Forall_cons in Hb as [Ha Hb]. apply Forall_cons in Hb as [Hb _].
    destruct (sextets_of_bytes a b b Ha Hb Hb) as (S1 & S2 & _ & _ & _ & S6).
    cbn [b64_encode List.filter].
    destruct (b64_char_facts _ S1) as (_ & _ & ->).
    destruct (b64_char_facts _ S2) as (_ & _ & ->).
    destruct (b64_char_facts _ S6) as (_ & _ & ->). reflexivity.
  - apply Forall_cons in Hb as [Ha Hb]. apply Forall_cons in Hb as [Hb Hc].
    apply Forall_cons in Hc as [Hc Hl].
    destruct (sextets_of_bytes a b c Ha Hb Hc) as (S1 & S2 & S3 & S4 & _ & _).
    cbn [b64_encode List.filter].
    destruct (b64_char_facts _ S1) as (_ & _ & ->).
    destruct (b64_char_facts _ S2) as (_ & _ & ->).
    destruct (b64_char_facts _ S3) as (_ & _ & ->).
    destruct (b64_char_facts _ S4) as (_ & _ & ->).
    cbn [negb]. by rewrite IH.
Qed.

Lemma b64_decode_stripped bytes :
  Forall is_byte bytes ->
  exists sextets,
    b64_sextets (strip_padding (b64_encode bytes)) = Some sextets
    /\ b64_bytes sextets = bytes
    /\ (length (strip_padding (b64_encode bytes)) mod 4 <> 1)%nat.
Proof.
  induction bytes as [| a | a b | a b c l IH] using list_ind3; intros Hb.
  - exists []. by repeat split.
  - apply Forall_cons in Hb as [Ha _].
    destruct (sextets_of_bytes a a a Ha Ha Ha) as (S1 & _ & _ & _ & S5 & _).
    destruct (bytes_of_sextets a a a Ha Ha Ha) as (_ & _ & _ & B4 & _).
    exists [a / 4; a mod 4 * 16].
    cbn [b64_encode]. rewrite strip_padding_cons3.
    change (strip_padding [b64_char (a mod 4 * 16); b64_pad; b64_pad])
      with [b64_char (a mod 4 * 16)].
    cbn [b64_sextets b64_bytes length].
    destruct (b64_char_facts _ S1) as (-> & _ & _).
    destruct (b64_char_facts _ S5) as (-> & _ & _).
    repeat split; [by rewrite B4 | by vm_compute].
  - apply Forall_cons in Hb as [Ha Hb]. apply Forall_cons in Hb as [Hb _].
    destruct (sextets_of_bytes a b b Ha Hb Hb) as (S1 & S2 & _ & _ & _ & S6).
    destruct (bytes_of_sextets a b b Ha Hb Hb) as (B1 & _ & _ & _ & B5).
    exists [a / 4; a mod 4 * 16 + b / 16; b mod 16 * 4].
    cbn [b64_encode]. rewrite !strip_padding_cons3.
    destruct (b64_char_facts _ S1) as (E1 & _ & _).
    destruct (b64_char_facts _ S2) as (E2 & _ & _).
    destruct (b64_char_facts _ S6) as (E6 & P6 & _).
    cbn [strip_padding]. rewrite P6. change (b64_pad =? b64_pad) with true.
    cbn [b64_sextets b64_bytes length]. rewrite E1, E2, E6.
    repeat split; [by rewrite B1, B5 | by vm_compute].
  - apply Forall_cons in Hb as [Ha Hb]. apply Forall_cons in Hb as [Hb Hc].
    apply Forall_cons in Hc as [Hc Hl].
    destruct (IH Hl) as (sx & Esx & Ebytes & Hlen).
    destruct (sextets_of_bytes a b c Ha Hb Hc) as (S1 & S2 & S3 & S4 & _ & _).
    destruct (bytes_of_sextets a b c Ha Hb Hc) as (B1 & B2 & B3 & _ & _).
    destruct (b64_char_facts _ S1) as (E1 & _ & _).
    destruct (b64_char_facts _ S2) as (E2 & _ & _).
    destruct (b64_char_facts _ S3) as (E3 & P3 & _).
    destruct (b64_char_facts _ S4) as (E4 & P4 & _).
    exists (a / 4 :: (a mod 4 * 16 + b / 16) :: (b mod 16 * 4 + c / 64)
            :: c mod 64 :: sx).
    cbn [b64_encode]. rewrite strip_padding_group by done.
    cbn [b64_sextets length]. rewrite E1, E2, E3, E4, Esx.
    repeat split.
    + cbn [b64_bytes]. by rewrite B1, B2, B3, Ebytes.
    + by rewrite mod4_step.
Qed.

Lemma atob_b64_encode bytes :
  Forall is_byte bytes -> atob (b64_encode bytes) = Some bytes.
Proof.
  intros Hb. unfold atob.
  rewrite b64_encode_no_whitespace by done.
  rewrite b64_encode_length. cbn [Nat.eqb].
  destruct (b64_decode_stripped bytes Hb) as (sx & -> & -> & Hlen).
  by apply Nat.eqb_neq in Hlen as ->.
Qed.

Lemma fromCharCode_bytes bytes :
  Forall is_byte bytes -> fromCharCode bytes = bytes.
Proof.
  unfold fromCharCode. induction 1 as [|b l Hb _ IH]; [done|].
  cbn [List.map]. rewrite IH. f_equal.
  unfold is_byte in Hb. apply Z.mod_small. lia.
Qed.

Lemma btoa_bytes bytes :
  Forall is_byte bytes -> btoa bytes = Some (b64_encode bytes).
Proof.
  intros Hb. unfold btoa.
  replace (forallb (fun c => c <=? 255) bytes) with true; [done|].
  symmetry. induction Hb as [|b l Hb _ IH]; [done|].
  cbn [forallb]. rewrite IH. unfold is_byte in Hb.
  rewrite andb_true_r. apply Z.leb_le. lia.
Qed.

(** ** Codec *)

Lemma decode_loop_spec binaryString :
  Forall is_byte binaryString ->
  forall n i d,
    length d = length binaryString ->
    (i + n)%nat = length binaryString ->
    decode_loop binaryString n i d = take i d ++ drop i binaryString.
Proof.
  intros Hb. induction n as [|n IH]; intros i d Hd Hi.
  - cbn [decode_loop]. rewrite drop_ge by lia. rewrite take_ge by lia.
    by rewrite app_nil_r.
  - cbn [decode_loop].
    destruct (lookup_lt_is_Some_2 binaryString i) as [code Hcode]; [lia|].
    unfold charCodeAt. rewrite Hcode. cbn [default].
    assert (Hbyte : is_byte code) by (by eapply Forall_lookup_1).
    rewrite IH; [| by rewrite u8_set_length | lia].
    unfold u8_set. replace (0 <=? Z.of_nat i) with true by lia.
    rewrite Nat2Z.id, to_uint8_id by done.
    erewrite take_S_r; [| apply list_lookup_insert_eq; lia].
    rewrite take_insert_ge by lia.
    rewrite (drop_S binaryString code i) by done.
    by rewrite <- app_assoc.
Qed.

Lemma decode_loop_wf binaryString n i d :
  length (decode_loop binaryString n i d) = length d
  /\ (Forall is_byte d -> Forall is_byte (decode_loop binaryString n i d)).
Proof.
  revert i d. induction n as [|n IH]; intros i d; [done|].
  cbn [decode_loop].
  destruct (IH (S i) (u8_set d (Z.of_nat i)
                        (default 0 (charCodeAt binaryString i)))) as [Hl Hb].
  split.
  - by rewrite Hl, u8_set_length.
  - intros Hd. apply Hb. by apply u8_set_bytes.
Qed.

Lemma decodeChunkData_dims c encoded :
  width (fst (decodeChunkData c encoded)) = width c
  /\ height (fst (decodeChunkData c encoded)) = height c
  /\ depth (fst (decodeChunkData c encoded)) = depth c.
Proof. unfold decodeChunkData. repeat case_match; done. Qed.

Lemma decodeChunkData_wf c encoded :
  wf_chunk c -> wf_chunk (fst (decodeChunkData c encoded)).
Proof.
  intros [Hl Hb]. unfold decodeChunkData. repeat case_match; try done.
  cbn [fst]. split; cbn [data cellCount width height depth].
  - by rewrite (proj1 (decode_loop_wf _ _ _ _)).
  - by apply decode_loop_wf.
Qed.

(** C2. Encoding a well-formed grid always succeeds, and decoding the text
    into a grid of the same dimensions (whatever it held) raises no error
    and leaves exactly the encoded grid: same dimensions, same bytes, hence
    the same value at every cell. *)
Theorem encode_decode_roundtrip (c c0 : VoxelChunk) :
  wf_chunk c -> wf_chunk c0 ->
  width c0 = width c -> height c0 = height c -> depth c0 = depth c ->
  exists text,
    encodeChunkData c = Some text
    /\ decodeChunkData c0 text = (c, None)
    /\ forall x y z,
         getBlock (fst (decodeChunkData c0 text)) x y z = getBlock c x y z.
Proof.
  intros [Hl Hb] [Hl0 Hb0] Hw Hh Hd.
  exists (b64_encode (data c)).
  assert (Henc : encodeChunkData c = Some (b64_encode (data c))).
  { unfold encodeChunkData. rewrite fromCharCode_bytes by done.
    by apply btoa_bytes. }
  assert (Hlen : length (data c) = length (data c0)).
  { unfold cellCount in *. rewrite Hw, Hh, Hd in Hl0. lia. }
  assert (Hdec : decodeChunkData c0 (b64_encode (data c)) = (c, None)).
  { unfold decodeChunkData. rewrite atob_b64_encode by done.
    rewrite Hlen, Nat.eqb_refl. cbn [negb].
    rewrite decode_loop_spec by (done || lia).
    cbn [take drop app]. rewrite Hw, Hh, Hd. by destruct c. }
  split; [done|]. split; [done|]. intros x y z. by rewrite Hdec.
Qed.

Lemma encode_decode_roundtrip_witness :
  exists text,
    encodeChunkData (setBlock (newChunk 2 1 2) 1 0 1 Block.WOOD) = Some text
    /\ decodeChunkData (newChunk 2 1 2) text
       = (setBlock (newChunk 2 1 2) 1 0 1 Block.WOOD, None)
    /\ forall x y z,
         getBlock (fst (decodeChunkData (newChunk 2 1 2) text)) x y z
         = getBlock (setBlock (newChunk 2 1 2) 1 0 1 Block.WOOD) x y z.
Proof.
  apply (encode_decode_roundtrip
           (setBlock (newChunk 2 1 2) 1 0 1 Block.WOOD) (newChunk 2 1 2)).
  - split; [reflexivity|]. vm_compute. repeat constructor; discriminate.
  - split; [reflexivity|]. vm_compute. repeat constructor; discriminate.
  - reflexivity.
  - reflexivity.
  - reflexivity.
Defined.

(** C3. When the text decodes to a byte string whose length differs from
    [width * height * depth], [decodeChunkData] throws the length-mismatch
    error and the grid it leaves is the grid it was given. *)
Theorem decode_length_mismatch (c : VoxelChunk) (encoded bytes : list Z) :
  wf_chunk c ->
  atob encoded = Some bytes ->
  Z.of_nat (length bytes) <> width c * height c * depth c ->
  decodeChunkData c encoded = (c, Some LengthMismatch).
Proof.
  intros [Hl _] Hatob Hne. unfold decodeChunkData. rewrite Hatob.
  replace (length bytes =? length (data c))%nat with false; [done|].
  symmetry. apply Nat.eqb_neq. unfold cellCount in Hl. lia.
Qed.

Lemma decode_length_mismatch_witness :
  decodeChunkData (newChunk 2 1 2) [65; 65; 61; 61]
  = (newChunk 2 1 2, Some LengthMismatch).
Proof.
  apply (decode_length_mismatch (newChunk 2 1 2) [65; 65; 61; 61] [0]).
  - split; [reflexivity|]. vm_compute. repeat constructor; discriminate.
  - reflexivity.
  - vm_compute. discriminate.
Defined.

(** "Man" encodes to "TWFu" and back. *)
Example btoa_Man : btoa [77; 97; 110] = Some [84; 87; 70; 117].
Proof. reflexivity. Qed.

Example atob_TWFu : atob [84; 87; 70; 117] = Some [77; 97; 110].
Proof. reflexivity. Qed.

(** ** Coordinate mapper *)

Lemma Qfloor_unique (q : Q) (k : Z) :
  Qfloor q = k <-> (inject_Z k <= q /\ q < inject_Z k + 1)%Q.
Proof.
  split.
  - intros <-. split; [apply Qfloor_le|].
    pose proof (Qlt_floor q) as H. rewrite inject_Z_plus in H. exact H.
  - intros [Hlo Hhi].
    assert (H1 : k <= Qfloor q).
    { rewrite <- (Qfloor_Z k). by apply Qfloor_resp_le. }
    assert (H2 : Qfloor q < k + 1).
    { rewrite Zlt_Qlt, inject_Z_plus.
      eapply Qle_lt_trans; [apply Qfloor_le | exact Hhi]. }
    lia.
Qed.

(** [Math.floor] returns the integer [k] exactly for the numbers whose value
    lies in [[k, k + 1)]. *)
Lemma Math_floor_spec (f : float) (k : Z) :
  Math_floor f = Some k <->
  exists q, F2Q f = Some q /\ (inject_Z k <= q /\ q < inject_Z k + 1)%Q.
Proof.
  unfold Math_floor. destruct (F2Q f) as [q|]; cbn.
  - split.
    + intros [= E]. exists q. split; [done|]. by apply Qfloor_unique.
    + intros (q' & [= <-] & H). f_equal. by apply Qfloor_unique.
  - split; [done|]. by intros (q & ? & _).
Qed.

Lemma worldPointToCell_some c p snapY cl :
  worldPointToCell c p snapY = Some cl -> cellInBounds c cl = true.
Proof.
  unfold worldPointToCell. cbv zeta.
  destruct (Math_floor _) as [x|]; [|done].
  destruct (Math_floor _) as [y|]; [|done].
  destruct (Math_floor _) as [z|]; [|done].
  destruct (inBounds c x y z) eqn:Hin; [|done]. by intros [= <-].
Qed.

Lemma worldPointToCell_some_iff c p snapY cl :
  worldPointToCell c p snapY = Some cl <->
  cellInBounds c cl = true
  /\ Math_floor ((vx p + halfWidth c) / VOXEL_SIZE) = Some (cell_x cl)
  /\ Math_floor ((if snapY then vy p / VOXEL_SIZE else vy p) + 0.5)
     = Some (cell_y cl)
  /\ Math_floor ((vz p + halfDepth c) / VOXEL_SIZE) = Some (cell_z cl).
Proof.
  unfold worldPointToCell, cellInBounds. cbv zeta.
  destruct cl as [x y z]. cbn [cell_x cell_y cell_z].
  destruct (Math_floor ((vx p + halfWidth c) / VOXEL_SIZE)) as [fx|];
    [|by split; [|intros (_ & ? & _)]].
  destruct (Math_floor ((if snapY then vy p / VOXEL_SIZE else vy p) + 0.5))
    as [fy|]; [|by split; [|intros (_ & _ & ? & _)]].
  destruct (Math_floor ((vz p + halfDepth c) / VOXEL_SIZE)) as [fz|];
    [|by split; [|intros (_ & _ & _ & ?)]].
  split.
  - destruct (inBounds c fx fy fz) eqn:Hin; [|done]. by intros [= -> -> ->].
  - intros (Hin & [= ->] & [= ->] & [= ->]). by rewrite Hin.
Qed.

(** The claim of C8 for snapped mode (every axis floors [position / size],
    the horizontal axes after the offset to the grid's corner) fails on the
    vertical axis: a point three quarters of a voxel above ground level
    resolves to layer 1, not layer 0. *)
Lemma worldPointToCell_snapped_not_floor :
  let c := newChunk 16 12 16 in
  let p := mkVec3 0 0.75 0 in
  worldPointToCell c p true = Some (mkCell 8 1 8)
  /\ snappedFloorCell c p = Some (mkCell 8 0 8)
  /\ worldPointToCell c p true <> snappedFloorCell c p.
Proof. repeat split. by vm_compute. Qed.

(** C8 (as the code has it). Every step is an operation on binary64
    numbers.  In both modes the x and z cells are the floors of the number
    [(position + half extent) / size]; on the vertical axis neither mode
    floors [y / size]: snapped mode floors the number [y / size + 0.5] and
    ground mode the number [y + 0.5].  A cell is returned exactly when the
    three numbers are finite, their values lie in the unit intervals that
    start at the cell's coordinates, and the cell is inside the grid; the
    result is [None] exactly when one of the numbers is [NaN] or infinite
    or the resolved cell lies outside the grid bounds.  The numbers are the
    rounded sums, so a point closer than a rounding error to the upper side
    of a cell resolves to the next cell. *)
Theorem worldPointToCell_policies (c : VoxelChunk) (p : Vec3) (snapY : bool) :
  let fx := ((vx p + halfWidth c) / VOXEL_SIZE)%float in
  let fy := ((if snapY then vy p / VOXEL_SIZE else vy p) + 0.5)%float in
  let fz := ((vz p + halfDepth c) / VOXEL_SIZE)%float in
  (forall cl,
     worldPointToCell c p snapY = Some cl <->
     cellInBounds c cl = true
     /\ exists qx qy qz,
          F2Q fx = Some qx /\ F2Q fy = Some qy /\ F2Q fz = Some qz
          /\ (inject_Z (cell_x cl) <= qx /\ qx < inject_Z (cell_x cl) + 1)%Q
          /\ (inject_Z (cell_y cl) <= qy /\ qy < inject_Z (cell_y cl) + 1)%Q
          /\ (inject_Z (cell_z cl) <= qz /\ qz < inject_Z (cell_z cl) + 1)%Q)
  /\ (worldPointToCell c p snapY = None <->
      F2Q fx = None \/ F2Q fy = None \/ F2Q fz = None
      \/ exists x y z,
           Math_floor fx = Some x /\ Math_floor fy = Some y
           /\ Math_floor fz = Some z /\ inBounds c x y z = false).
Proof.
  cbv zeta. split.
  - intros cl. rewrite worldPointToCell_some_iff. rewrite !Math_floor_spec.
    split.
    + intros (Hin & (qx & Ex & Hx) & (qy & Ey & Hy) & (qz & Ez & Hz)).
      split; [done|]. by exists qx, qy, qz.
    + intros (Hin & qx & qy & qz & Ex & Ey & Ez & Hx & Hy & Hz).
      split; [done|]. split; [by exists qx|]. split; [by exists qy|].
      by exists qz.
  - unfold worldPointToCell, Math_floor. cbv zeta.
    destruct (F2Q ((vx p + halfWidth c) / VOXEL_SIZE)) as [qx|];
      [|split; [by left | done]].
    destruct (F2Q ((if snapY then vy p / VOXEL_SIZE else vy p) + 0.5))
      as [qy|]; [|split; [by right; left | done]].
    destruct (F2Q ((vz p + halfDepth c) / VOXEL_SIZE)) as [qz|];
      [|split; [by right; right; left | done]].
    cbn [fmap option_fmap option_map].
    destruct (inBounds c (Qfloor qx) (Qfloor qy) (Qfloor qz)) eqn:Hin;
      cbn [negb].
    + split; [done|].
      intros [?|[?|[?|(x & y & z & [= <-] & [= <-] & [= <-] & Hout)]]];
        congruence.
    + split; [|done]. intros _. right; right; right.
      by exists (Qfloor qx), (Qfloor qy), (Qfloor qz).
Qed.

Example worldPointToCell_ground_plane :
  worldPointToCell (newChunk 16 12 16) (mkVec3 (-2.5) 0 1.75) false
  = Some (mkCell 5 0 9).
Proof. reflexivity. Qed.

(** Rounding at work.  The largest number below one half is 0.5 - 2^-54:
    adding 0.5 to it rounds to 1, so the point resolves to layer 1 although
    it is nearer to layer 0.  The largest number below 8 is 8 - 2^-50:
    adding the half width 8 rounds to 16, so the point, which lies inside
    the last column of the grid, resolves to no cell. *)
Example worldPointToCell_rounds_up :
  let c := newChunk 16 12 16 in
  F2Q 0x1.fffffffffffffp-2 = Some (9007199254740991 # 18014398509481984)%Q
  /\ worldPointToCell c (mkVec3 0 0x1.fffffffffffffp-2 0) true
     = Some (mkCell 8 1 8)
  /\ F2Q 0x1.fffffffffffffp+2 = Some (9007199254740991 # 1125899906842624)%Q
  /\ worldPointToCell c (mkVec3 0x1.fffffffffffffp+2 0 0) true = None.
Proof. by vm_compute. Qed.

(** ** Candidates and hover state *)

Lemma cloneCell_id o : cloneCell o = o.
Proof. by destruct o as [[x y z]|]. Qed.

Lemma stored_action_id a :
  mkAction (type a) (blockId a) (cloneCell (cell a)) = a.
Proof. rewrite cloneCell_id. by destruct a. Qed.

Lemma num_eqb_true v n : num_eqb v n = true <-> v = Some n.
Proof.
  destruct v as [m|]; cbn; [|done]. rewrite Z.eqb_eq.
  split; [by intros -> | by intros [= ->]].
Qed.

Lemma num_eqb_false v n : num_eqb v n = false <-> v <> Some n.
Proof.
  rewrite <- num_eqb_true. by destruct (num_eqb v n).
Qed.

Lemma cellInBounds_dims c c' cl :
  width c' = width c -> height c' = height c -> depth c' = depth c ->
  cellInBounds c' cl = cellInBounds c cl.
Proof. unfold cellInBounds, inBounds. by intros -> -> ->. Qed.

Lemma setCell_cellInBounds c cl v x :
  cellInBounds (setCell c cl v) x = cellInBounds c x.
Proof. apply setBlock_inBounds. Qed.

Lemma pickBlockFace_ok c hit n :
  hoverOk c (fst (pickBlockFace c hit n)) (snd (pickBlockFace c hit n)).
Proof.
  unfold pickBlockFace.
  destruct (worldPointToCell c _ true) as [hitCell|] eqn:Hw; [|by split].
  apply worldPointToCell_some in Hw.
  destruct (cellInBounds c (adjacentCell hitCell n)) eqn:Hadj.
  - destruct (num_eqb _ Block.AIR) eqn:Hair; cbn [fst snd].
    + apply num_eqb_true in Hair. split; by intros x [= <-].
    + split; [done | by intros x [= <-]].
  - split; [done | by intros x [= <-]].
Qed.

Lemma updateHoverFromPointer_shape s hits :
  exists p r,
    updateHoverFromPointer s hits = with_hover s p r
    /\ hoverOk (chunk s) p r.
Proof.
  unfold updateHoverFromPointer.
  destruct (lastPointerCoords s) as [xy|]; [|by exists None, None].
  destruct hits as [|hit ?]; [by exists None, None|].
  destruct (hitIsBlock hit); [|by exists None, None].
  destruct (face hit) as [n|]; [|by exists None, None].
  cbn [chunk with_hover].
  pose proof (pickBlockFace_ok (chunk s) hit n) as Hok.
  destruct (pickBlockFace (chunk s) hit n) as [p r].
  by exists p, r.
Qed.

Lemma updateHover_shape s event hits :
  exists p r,
    updateHover s event hits
    = with_hover (with_lastPointerCoords s (Some (coords event))) p r
    /\ hoverOk (chunk s) p r.
Proof.
  exact (updateHoverFromPointer_shape
           (with_lastPointerCoords s (Some (coords event))) hits).
Qed.

(** ** Committing edits *)

Lemma blockTypeById_id b bt : blockTypeById b = Some bt -> id bt = b.
Proof.
  unfold blockTypeById. intros H. apply find_some in H as [_ H].
  by apply Z.eqb_eq in H.
Qed.

Lemma blockTypeById_byte b bt : blockTypeById b = Some bt -> is_byte b.
Proof.
  intros H. pose proof (blockTypeById_id _ _ H) as <-.
  unfold blockTypeById in H. apply find_some in H as [Hin _].
  unfold is_byte. cbn in Hin.
  repeat (destruct Hin as [<- | Hin];
    [cbn; unfold Block.AIR, Block.GRASS, Block.SAND, Block.STONE,
       Block.WATER, Block.WOOD; lia|]).
  done.
Qed.

Lemma attemptPlace_cases s cl hits :
  attemptPlace s (Some cl) hits = s
  \/ exists bt p r,
       blockTypeById (selectedBlockId s) = Some bt
       /\ id bt <> Block.AIR
       /\ getCell (chunk s) cl = Some Block.AIR
       /\ let a := mkAction place (Some (id bt)) (Some cl) in
          attemptPlace s (Some cl) hits = with_hover (committed s a cl) p r
          /\ hoverOk (chunk (committed s a cl)) p r.
Proof.
  unfold attemptPlace.
  destruct (blockTypeById (selectedBlockId s)) as [bt|] eqn:Hbt; [|by left].
  destruct (id bt =? Block.AIR) eqn:Hid; [by left|].
  destruct (num_eqb (getCell (chunk s) cl) Block.AIR) eqn:Hair; [|by left].
  right. cbv zeta. cbn [negb].
  apply num_eqb_true in Hair. apply Z.eqb_neq in Hid.
  match goal with
  | |- context [updateHoverFromPointer ?t hits] =>
      destruct (updateHoverFromPointer_shape t hits) as (p & r & E & Hok)
  end.
  exists bt, p, r. split; [done|]. split; [done|]. split; [done|].
  cbv zeta. split.
  - rewrite E. unfold committed. cbn. by destruct (isRestoring s).
  - revert Hok. unfold committed. cbn. by destruct (isRestoring s).
Qed.

Lemma attemptRemove_cases s cl hits :
  attemptRemove s (Some cl) hits = s
  \/ exists p r,
       getCell (chunk s) cl <> Some Block.AIR
       /\ let a := mkAction remove (getCell (chunk s) cl) (Some cl) in
          attemptRemove s (Some cl) hits = with_hover (committed s a cl) p r
          /\ hoverOk (chunk (committed s a cl)) p r.
Proof.
  unfold attemptRemove. cbv zeta.
  destruct (num_eqb (getCell (chunk s) cl) Block.AIR) eqn:Hair; [by left|].
  right. apply num_eqb_false in Hair.
  match goal with
  | |- context [updateHoverFromPointer ?t hits] =>
      destruct (updateHoverFromPointer_shape t hits) as (p & r & E & Hok)
  end.
  exists p, r. split; [done|]. cbv zeta. split.
  - rewrite E. unfold committed. cbn. by destruct (isRestoring s).
  - revert Hok. unfold committed. cbn. by destruct (isRestoring s).
Qed.

Lemma committed_fields s a cl :
  chunk (committed s a cl) = setCell (chunk s) cl (actionValue a)
  /\ undoStack (committed s a cl)
     = (if isRestoring s then undoStack s else a :: undoStack s)
  /\ redoStack (committed s a cl)
     = (if isRestoring s then redoStack s else [])
  /\ isRestoring (committed s a cl) = isRestoring s
  /\ selectedBlockId (committed s a cl) = selectedBlockId s
  /\ pointerState (committed s a cl) = pointerState s
  /\ saveTimer (committed s a cl) = Some Armed
  /\ lastPointerCoords (committed s a cl) = lastPointerCoords s.
Proof.
  unfold committed. destruct (isRestoring s) eqn:E; cbn; rewrite ?E;
    rewrite ?stored_action_id; done.
Qed.

(** C10. An attempt the guards reject does nothing at all: the state that
    comes back is the state that went in, so every grid cell, both history
    stacks and the save timer are as before.  This holds for a place on a
    cell that does not read [Block.AIR], for a place while the selected
    block is not one of the placeable blocks, and for a remove on a cell
    that reads [Block.AIR]; in the multi-block build and in the single-block
    build (which has no block selection). *)
Theorem rejected_attempt_is_noop (s : State) (t : SingleBlock.State) (cl : Cell)
    (hits : list Hit) :
  (getCell (chunk s) cl <> Some Block.AIR ->
     attemptPlace s (Some cl) hits = s)
  /\ (existsb (fun b => id b =? selectedBlockId s) placeableBlocks = false ->
        attemptPlace s (Some cl) hits = s)
  /\ (getCell (chunk s) cl = Some Block.AIR ->
        attemptRemove s (Some cl) hits = s)
  /\ (getCell (SingleBlock.chunk t) cl <> Some Block.AIR ->
        SingleBlock.attemptPlace t (Some cl) hits = t)
  /\ (getCell (SingleBlock.chunk t) cl = Some Block.AIR ->
        SingleBlock.attemptRemove t (Some cl) hits = t).
Proof.
  repeat split.
  - intros Hne. apply num_eqb_false in Hne. unfold attemptPlace.
    rewrite Hne. cbn [negb]. by repeat case_match.
  - intros Hsel. unfold attemptPlace.
    destruct (blockTypeById (selectedBlockId s)) as [bt|] eqn:Hbt; [|done].
    destruct (id bt =? Block.AIR) eqn:Hid; [done|]. exfalso.
    pose proof (blockTypeById_id _ _ Hbt) as Eid.
    unfold blockTypeById in Hbt. apply find_some in Hbt as [Hin _].
    assert (Hex : existsb (fun b => id b =? selectedBlockId s) placeableBlocks
                  = true); [|by rewrite Hex in Hsel].
    apply existsb_exists. exists bt. split; [|by apply Z.eqb_eq].
    unfold placeableBlocks. apply filter_In. split; [done|].
    rewrite Hid. cbn [negb]. rewrite andb_true_r.
    cbn in Hin. repeat (destruct Hin as [<- | Hin]; [done|]). done.
  - intros Hair. apply num_eqb_true in Hair. unfold attemptRemove.
    cbv zeta. by rewrite Hair.
  - intros Hne. apply num_eqb_false in Hne. unfold SingleBlock.attemptPlace.
    by rewrite Hne.
  - intros Hair. apply num_eqb_true in Hair. unfold SingleBlock.attemptRemove.
    by rewrite Hair.
Qed.

Lemma rejected_attempt_is_noop_witness :
  let s := startup None [(mkCell 8 0 8, Block.STONE)] true in
  let t := SingleBlock.mkState (chunk s) None None None None None idlePointerState in
  attemptPlace s (Some (mkCell 8 0 8)) [] = s
  /\ attemptPlace (with_selectedBlockId s 9) (Some (mkCell 8 1 8)) []
     = with_selectedBlockId s 9
  /\ attemptRemove s (Some (mkCell 8 1 8)) [] = s
  /\ SingleBlock.attemptPlace t (Some (mkCell 8 0 8)) [] = t
  /\ SingleBlock.attemptRemove t (Some (mkCell 8 1 8)) [] = t.
Proof.
  cbv zeta.
  set (s := startup None [(mkCell 8 0 8, Block.STONE)] true).
  set (t := SingleBlock.mkState (chunk s) None None None None None idlePointerState).
  split; [|split; [|split; [|split]]].
  - apply (proj1 (rejected_attempt_is_noop s t (mkCell 8 0 8) [])).
    vm_compute. discriminate.
  - apply (proj1 (proj2 (rejected_attempt_is_noop (with_selectedBlockId s 9)
                           t (mkCell 8 1 8) []))).
    reflexivity.
  - apply (proj1 (proj2 (proj2 (rejected_attempt_is_noop s t
                                  (mkCell 8 1 8) [])))).
    reflexivity.
  - apply (proj1 (proj2 (proj2 (proj2 (rejected_attempt_is_noop s t
                                         (mkCell 8 0 8) []))))).
    vm_compute. discriminate.
  - apply (proj2 (proj2 (proj2 (proj2 (rejected_attempt_is_noop s t
                                         (mkCell 8 1 8) []))))).
    reflexivity.
Defined.

(** ** What each handler leaves alone *)

Lemma sameDocument_refl s : sameDocument s s.
Proof. by repeat split. Qed.

Lemma handlePointerMove_same s event hits :
  sameDocument s (handlePointerMove s event hits).
Proof.
  unfold handlePointerMove.
  destruct (updateHover_shape s event hits) as (p & r & -> & _).
  cbv zeta. case_match; by repeat split.
Qed.

Lemma handlePointerDown_same s event hits :
  sameDocument s (handlePointerDown s event hits).
Proof.
  unfold handlePointerDown.
  destruct (_ || _); [apply sameDocument_refl|].
  destruct (updateHover_shape s event hits) as (p & r & -> & _).
  cbv zeta. repeat case_match; by repeat split.
Qed.

Lemma handlePointerCancel_same s event :
  sameDocument s (handlePointerCancel s event).
Proof. unfold handlePointerCancel. case_match; by repeat split. Qed.

Lemma handlePointerLeave_same s : sameDocument s (handlePointerLeave s).
Proof. by repeat split. Qed.

Lemma flushSave_fields s ok :
  chunk (flushSave s ok) = chunk s
  /\ undoStack (flushSave s ok) = undoStack s
  /\ redoStack (flushSave s ok) = redoStack s
  /\ isRestoring (flushSave s ok) = isRestoring s
  /\ selectedBlockId (flushSave s ok) = selectedBlockId s
  /\ pointerState (flushSave s ok) = pointerState s
  /\ hoverPlaceCell (flushSave s ok) = hoverPlaceCell s
  /\ hoverRemoveCell (flushSave s ok) = hoverRemoveCell s.
Proof.
  unfold flushSave. cbv zeta. case_match; destruct ok; by repeat split.
Qed.

Lemma setSelectedBlock_fields s b :
  chunk (setSelectedBlock s b) = chunk s
  /\ undoStack (setSelectedBlock s b) = undoStack s
  /\ redoStack (setSelectedBlock s b) = redoStack s
  /\ isRestoring (setSelectedBlock s b) = isRestoring s
  /\ pointerState (setSelectedBlock s b) = pointerState s
  /\ hoverPlaceCell (setSelectedBlock s b) = hoverPlaceCell s
  /\ hoverRemoveCell (setSelectedBlock s b) = hoverRemoveCell s.
Proof. unfold setSelectedBlock. repeat case_match; by repeat split. Qed.

Lemma attemptPlace_redo_nil s ocl hits :
  redoStack s = [] -> redoStack (attemptPlace s ocl hits) = [].
Proof.
  intros Hnil. destruct ocl as [cl|]; [|done].
  destruct (attemptPlace_cases s cl hits)
    as [-> | (bt & p & r & _ & _ & _ & -> & _)]; [done|].
  cbn [with_hover redoStack].
  rewrite (proj1 (proj2 (proj2 (committed_fields s _ cl)))).
  by destruct (isRestoring s).
Qed.

Lemma attemptRemove_redo_nil s ocl hits :
  redoStack s = [] -> redoStack (attemptRemove s ocl hits) = [].
Proof.
  intros Hnil. destruct ocl as [cl|]; [|done].
  destruct (attemptRemove_cases s cl hits)
    as [-> | (p & r & _ & -> & _)]; [done|].
  cbn [with_hover redoStack].
  rewrite (proj1 (proj2 (proj2 (committed_fields s _ cl)))).
  by destruct (isRestoring s).
Qed.

Lemma redo_nil s : redoStack s = [] -> redo s = s.
Proof. unfold redo. by intros ->. Qed.

Lemma undo_nil s : undoStack s = [] -> undo s = s.
Proof. unfold undo. by intros ->. Qed.

Lemma step_redo_nil s e :
  e <> ClickUndo -> redoStack s = [] -> redoStack (step s e) = [].
Proof.
  intros He Hnil.
  destruct e as [event hits | event hits | event hits | event | | hits
                | ok | | | writes ok | b]; cbn [step].
  - by rewrite (proj1 (proj2 (proj2 (proj2 (handlePointerMove_same s event hits))))).
  - by rewrite (proj1 (proj2 (proj2 (proj2 (handlePointerDown_same s event hits))))).
  - unfold handlePointerUp. case_match; [done|]. cbv zeta.
    case_match; [|done]. by apply attemptPlace_redo_nil.
  - by rewrite (proj1 (proj2 (proj2 (proj2 (handlePointerCancel_same s event))))).
  - done.
  - destruct (timer (pointerState s)) as [[|]|]; try done.
    unfold longPressTimeout. cbv zeta. cbn [with_pointerState redoStack].
    by apply attemptRemove_redo_nil.
  - destruct (saveTimer s) as [[|]|]; try done.
    unfold saveTimeout. cbn [with_saveTimer redoStack].
    by rewrite (proj1 (proj2 (proj2 (flushSave_fields s ok)))).
  - done.
  - by rewrite redo_nil.
  - unfold resetChunkState. cbv zeta.
    by rewrite (proj1 (proj2 (proj2 (flushSave_fields _ ok)))).
  - by rewrite (proj1 (proj2 (proj2 (setSelectedBlock_fields s b)))).
Qed.

(** C5. Recording an action leaves the redo stack empty, whatever the
    history held before; [redo] then changes nothing, and this stays so
    through every later event until the undo button is used. *)
Theorem pushAction_clears_redo (s : State) (a : Action) (events : list Event) :
  Forall (fun e => e <> ClickUndo) events ->
  let s1 := pushAction s (Some a) in
  redoStack s1 = [] /\ length (redoStack s1) = 0%nat /\ redo s1 = s1
  /\ redoStack (run s1 events) = [] /\ redo (run s1 events) = run s1 events.
Proof.
  intros Hev. cbv zeta.
  assert (H1 : redoStack (pushAction s (Some a)) = []) by done.
  assert (H2 : redoStack (run (pushAction s (Some a)) events) = []).
  { unfold run. revert H1. generalize (pushAction s (Some a)).
    induction Hev as [|e events He _ IH]; intros s0 H0; [done|].
    cbn [fold_left]. apply IH. by apply step_redo_nil. }
  split; [done|]. split; [by rewrite H1|].
  split; [by apply redo_nil|]. split; [done | by apply redo_nil].
Qed.

Lemma pushAction_clears_redo_witness :
  let s := with_stacks (startup None [] true) []
             [mkAction place (Some Block.SAND) (Some (mkCell 1 1 1))] in
  let a := mkAction remove (Some Block.GRASS) (Some (mkCell 2 0 2)) in
  let s1 := pushAction s (Some a) in
  redoStack s1 = [] /\ length (redoStack s1) = 0%nat /\ redo s1 = s1
  /\ redoStack (run s1 [ClickRedo; ClickBlock Block.WOOD]) = []
  /\ redo (run s1 [ClickRedo; ClickBlock Block.WOOD])
     = run s1 [ClickRedo; ClickBlock Block.WOOD].
Proof.
  apply (pushAction_clears_redo
           (with_stacks (startup None [] true) []
              [mkAction place (Some Block.SAND) (Some (mkCell 1 1 1))])
           (mkAction remove (Some Block.GRASS) (Some (mkCell 2 0 2)))
           [ClickRedo; ClickBlock Block.WOOD]).
  repeat constructor; discriminate.
Defined.

(** ** Undo and redo *)

Lemma u8_set_restore d i v old :
  u8_get d i = Some old -> is_byte old -> u8_set (u8_set d i v) i old = d.
Proof.
  unfold u8_get, u8_set. destruct (0 <=? i); [|done].
  intros Hget Hold. rewrite list_insert_insert_eq, to_uint8_id by done.
  by apply list_insert_id.
Qed.

Lemma setCell_restore c cl v old :
  wf_chunk c -> getCell c cl = Some old ->
  setCell (setCell c cl v) cl old = c.
Proof.
  intros Hwf Hget. unfold setCell, getCell in *.
  destruct (inBounds c (cell_x cl) (cell_y cl) (cell_z cl)) eqn:Hin.
  - destruct (getBlock_in_bounds c _ _ _ Hwf Hin) as (b & Hb & Hbyte).
    rewrite Hget in Hb. injection Hb as ->.
    unfold getBlock in Hget. rewrite Hin in Hget. cbn [negb] in Hget.
    unfold setBlock at 1. rewrite setBlock_inBounds, Hin. cbn [negb].
    unfold setBlock. rewrite Hin. cbn [negb width height depth data].
    unfold getIndex. cbn [width height depth].
    fold (getIndex c (cell_x cl) (cell_y cl) (cell_z cl)).
    rewrite u8_set_restore by done. by destruct c.
  - by rewrite !setBlock_oob by (by rewrite ?setBlock_oob).
Qed.

Lemma commitStep_dims c a c' :
  commitStep c a c' -> forall x, cellInBounds c' x = cellInBounds c x.
Proof.
  intros (cl & inv & _ & _ & -> & _) x. apply setCell_cellInBounds.
Qed.

Lemma commitStep_applies c a c' b :
  commitStep c a c' -> actionApplies c' b = actionApplies c b.
Proof.
  intros H. unfold actionApplies. destruct (cell b); [|done].
  by apply (commitStep_dims c a c').
Qed.

Lemma applyAction_in_bounds s a cl :
  cell a = Some cl -> cellInBounds (chunk s) cl = true ->
  applyAction s (Some a)
  = (with_isRestoring
       (scheduleSave
          (with_chunk (with_isRestoring s true)
             (setCell (chunk s) cl (actionValue a))))
       false, true).
Proof.
  intros Hcell Hin. unfold applyAction. rewrite Hcell, Hin. cbn [negb].
  done.
Qed.

Lemma applyAction_out_of_bounds s a cl :
  cell a = Some cl -> cellInBounds (chunk s) cl = false ->
  applyAction s (Some a) = (s, false).
Proof. intros Hcell Hin. unfold applyAction. by rewrite Hcell, Hin. Qed.

Lemma undo_step t a U cl inv :
  undoStack t = a :: U -> cell a = Some cl ->
  invertAction (Some a) = Some inv ->
  chunk (undo t) = setCell (chunk t) cl (actionValue inv)
  /\ undoStack (undo t) = U
  /\ redoStack (undo t)
     = (if cellInBounds (chunk t) cl then a :: redoStack t else redoStack t).
Proof.
  intros HU Hcell Hinv. unfold undo. rewrite HU, Hinv. cbv zeta.
  assert (Hc : cell inv = Some cl).
  { unfold invertAction in Hinv. destruct (type a); injection Hinv as <-;
      cbn [cell]; by rewrite cloneCell_id. }
  destruct (cellInBounds (chunk t) cl) eqn:Hin.
  - rewrite (applyAction_in_bounds _ inv cl) by done.
    cbn. by rewrite stored_action_id.
  - rewrite (applyAction_out_of_bounds _ inv cl) by done.
    cbn. unfold setCell. by rewrite setBlock_oob.
Qed.

Lemma redo_step t a R cl :
  redoStack t = a :: R -> cell a = Some cl ->
  cellInBounds (chunk t) cl = true ->
  chunk (redo t) = setCell (chunk t) cl (actionValue a)
  /\ redoStack (redo t) = R
  /\ undoStack (redo t) = a :: undoStack t.
Proof.
  intros HR Hcell Hin. unfold redo. rewrite HR. cbv zeta.
  rewrite (applyAction_in_bounds _ a cl) by done.
  cbn. by rewrite stored_action_id.
Qed.

Lemma undo_all c0 acts c1 :
  Recorded c0 acts c1 ->
  forall t U,
    chunk t = c1 -> undoStack t = rev acts ++ U ->
    chunk (Nat.iter (length acts) undo t) = c0
    /\ undoStack (Nat.iter (length acts) undo t) = U
    /\ redoStack (Nat.iter (length acts) undo t)
       = List.filter (actionApplies c0) acts ++ redoStack t.
Proof.
  induction 1 as [c | c0 a c1 acts c2 Hstep Hrec IH]; intros t U Hc HU.
  - by cbn in *.
  - cbn [rev] in HU. rewrite <- app_assoc in HU. cbn [app] in HU.
    destruct (IH t (a :: U) Hc HU) as (Ec & EU & ER).
    cbn [length]. rewrite !Nat.iter_succ.
    pose proof Hstep as (cl & inv & Hcell & Hinv & E1 & E0).
    destruct (undo_step _ a U cl inv EU Hcell Hinv) as (Ec' & EU' & ER').
    rewrite Ec', EU', ER', Ec, ER. split; [by rewrite E0|]. split; [done|].
    assert (Ha : actionApplies c0 a = cellInBounds c0 cl)
      by (unfold actionApplies; by rewrite Hcell).
    cbn [List.filter]. rewrite Ha, (commitStep_dims _ _ _ Hstep).
    (* the later actions apply to [c1] exactly when they apply to [c0] *)
    assert (Ef : List.filter (actionApplies c1) acts
                 = List.filter (actionApplies c0) acts).
    { apply filter_ext. intros b. by apply (commitStep_applies c0 a c1). }
    rewrite Ef. by destruct (cellInBounds c0 cl).
Qed.

Lemma redo_all c0 acts c1 :
  Recorded c0 acts c1 ->
  forall t R,
    chunk t = c0 ->
    redoStack t = List.filter (actionApplies c0) acts ++ R ->
    let k := length (List.filter (actionApplies c0) acts) in
    chunk (Nat.iter k redo t) = c1 /\ redoStack (Nat.iter k redo t) = R.
Proof.
  induction 1 as [c | c0 a c1 acts c2 Hstep Hrec IH]; intros t R Hc HR.
  - by cbn in *.
  - pose proof Hstep as (cl & inv & Hcell & Hinv & E1 & E0).
    assert (Ef : List.filter (actionApplies c1) acts
                 = List.filter (actionApplies c0) acts).
    { apply filter_ext. intros b. by apply (commitStep_applies c0 a c1). }
    assert (Ha : actionApplies c0 a = cellInBounds c0 cl)
      by (unfold actionApplies; by rewrite Hcell).
    cbn [List.filter] in *. rewrite Ha in *.
    destruct (cellInBounds c0 cl) eqn:Hin.
    + cbn [length app] in *. rewrite Nat.iter_succ_r.
      rewrite <- Hc in Hin.
      destruct (redo_step t a _ cl HR Hcell Hin) as (Ec & ER & _).
      rewrite <- Ef. apply IH; [by rewrite Ec, Hc, E1 | by rewrite ER, Ef].
    + rewrite <- Ef. apply IH; [|by rewrite Ef].
      rewrite Hc, E1. unfold setCell. by rewrite setBlock_oob.
Qed.

Lemma redo_iter_nil n t : redoStack t = [] -> Nat.iter n redo t = t.
Proof.
  intros Hnil. induction n as [|n IH]; [done|].
  rewrite Nat.iter_succ, IH. by apply redo_nil.
Qed.

Lemma getCell_defined c cl :
  wf_chunk c -> exists b, getCell c cl = Some b /\ is_byte b.
Proof.
  intros Hwf. unfold getCell.
  destruct (inBounds c (cell_x cl) (cell_y cl) (cell_z cl)) eqn:Hin.
  - by apply getBlock_in_bounds.
  - exists Block.AIR. split; [by apply getBlock_oob|].
    unfold is_byte, Block.AIR. lia.
Qed.

Lemma doEdit_committed s e :
  wf_chunk (chunk s) ->
  length (undoStack (doEdit s e)) = S (length (undoStack s)) ->
  exists a,
    commitStep (chunk s) a (chunk (doEdit s e))
    /\ undoStack (doEdit s e) = a :: undoStack s
    /\ redoStack (doEdit s e) = [].
Proof.
  intros Hwf Hlen. destruct e as [b cl hits | cl hits]; cbn [doEdit] in *.
  - destruct (setSelectedBlock_fields s b) as (Ec & EU & ER & EI & _).
    destruct (attemptPlace_cases (setSelectedBlock s b) cl hits)
      as [E | (bt & p & r & Hbt & Hid & Hair & E & _)].
    { rewrite E, EU in Hlen. lia. }
    rewrite E in *. cbn [with_hover chunk undoStack redoStack] in *.
    destruct (committed_fields (setSelectedBlock s b)
                (mkAction place (Some (id bt)) (Some cl)) cl)
      as (Fc & FU & FR & _).
    rewrite Fc, FU, FR in *. rewrite EI, EU, Ec in *.
    destruct (isRestoring s); [lia|].
    eexists. split; [|done].
    exists cl, (mkAction remove (Some (id bt)) (Some cl)).
    split; [done|].
    split; [unfold invertAction; cbn [type blockId cell];
            by rewrite cloneCell_id|].
    split; [done|].
    cbn. symmetry. by apply setCell_restore.
  - destruct (attemptRemove_cases s cl hits) as [E | (p & r & Hne & E & _)].
    { rewrite E in Hlen. lia. }
    rewrite E in *. cbn [with_hover chunk undoStack redoStack] in *.
    destruct (committed_fields s
                (mkAction remove (getCell (chunk s) cl) (Some cl)) cl)
      as (Fc & FU & FR & _).
    rewrite Fc, FU, FR in *.
    destruct (isRestoring s); [lia|].
    eexists. split; [|done].
    exists cl, (mkAction place (getCell (chunk s) cl) (Some cl)).
    split; [done|].
    split; [unfold invertAction; cbn [type blockId cell];
            by rewrite cloneCell_id|].
    split; [done|].
    destruct (getCell_defined (chunk s) cl Hwf) as (old & Hold & _).
    cbn. rewrite Hold. cbn. symmetry. by apply setCell_restore.
Qed.

Lemma commitStep_wf c a c' : commitStep c a c' -> wf_chunk c -> wf_chunk c'.
Proof. intros (cl & inv & _ & _ & -> & _) Hwf. by apply setBlock_wf. Qed.

Lemma doEdits_recorded edits :
  forall s,
    wf_chunk (chunk s) -> allCommitted s edits ->
    exists acts,
      length acts = length edits
      /\ Recorded (chunk s) acts (chunk (doEdits s edits))
      /\ undoStack (doEdits s edits) = rev acts ++ undoStack s
      /\ (edits <> [] -> redoStack (doEdits s edits) = []).
Proof.
  induction edits as [|e edits IH]; intros s Hwf Hall.
  - exists []. repeat split; [constructor | done].
  - destruct Hall as [Hlen Hall]. unfold doEdits. cbn [fold_left].
    fold (doEdits (doEdit s e) edits).
    destruct (doEdit_committed s e Hwf Hlen) as (a & Hstep & EU & ER).
    destruct (IH (doEdit s e) (commitStep_wf _ _ _ Hstep Hwf) Hall)
      as (acts & Hn & Hrec & EU' & ER').
    exists (a :: acts). split; [by cbn; rewrite Hn|].
    split; [by econstructor|]. split.
    + rewrite EU', EU. cbn [rev]. by rewrite <- app_assoc.
    + intros _. destruct edits as [|e' edits']; [done|]. by apply ER'.
Qed.

(** C4. After any sequence of N committed place and remove edits, from any
    grid and any history, N calls of [undo] followed by N calls of [redo]
    leave the grid exactly as it was after the N edits (and the N undos on
    their own bring back the grid the edits started from). *)
Theorem undo_redo_roundtrip (s : State) (edits : list Edit) :
  wf_chunk (chunk s) -> allCommitted s edits ->
  let n := length edits in
  let s1 := doEdits s edits in
  chunk (Nat.iter n redo (Nat.iter n undo s1)) = chunk s1
  /\ chunk (Nat.iter n undo s1) = chunk s.
Proof.
  intros Hwf Hall. cbv zeta.
  destruct (doEdits_recorded edits s Hwf Hall) as (acts & Hn & Hrec & EU & ER).
  destruct edits as [|e edits]; [done|].
  rewrite <- Hn.
  destruct (undo_all _ _ _ Hrec (doEdits s (e :: edits)) (undoStack s)
              eq_refl EU) as (Ec & _ & ERu).
  split; [|done].
  rewrite ER in ERu by done.
  set (k := length (List.filter (actionApplies (chunk s)) acts)).
  assert (Hk : (k <= length acts)%nat).
  { pose proof (List.filter_length (actionApplies (chunk s)) acts). lia. }
  assert (Hsplit : forall t,
            Nat.iter (length acts) redo t
            = Nat.iter (length acts - k) redo (Nat.iter k redo t)).
  { intros t. rewrite <- Nat.iter_add. f_equal. lia. }
  rewrite Hsplit.
  destruct (redo_all _ _ _ Hrec (Nat.iter (length acts) undo
                                   (doEdits s (e :: edits))) [] Ec ERu)
    as (Ec' & ER').
  fold k in Ec', ER'. by rewrite redo_iter_nil.
Qed.

Lemma undo_redo_roundtrip_witness :
  let s := startup None [(mkCell 8 0 8, Block.STONE)] true in
  let edits := [EditPlace Block.WOOD (mkCell 8 1 8) [];
                EditRemove (mkCell 8 0 8) [];
                EditPlace Block.SAND (mkCell 8 0 8) []] in
  chunk (Nat.iter 3 redo (Nat.iter 3 undo (doEdits s edits)))
  = chunk (doEdits s edits)
  /\ chunk (Nat.iter 3 undo (doEdits s edits)) = chunk s.
Proof.
  apply (undo_redo_roundtrip
           (startup None [(mkCell 8 0 8, Block.STONE)] true)
           [EditPlace Block.WOOD (mkCell 8 1 8) [];
            EditRemove (mkCell 8 0 8) [];
            EditPlace Block.SAND (mkCell 8 0 8) []]).
  - split; [reflexivity|].
    apply Forall_forall. intros b Hb.
    assert (Hok : forallb (fun b => (0 <=? b) && (b <? 256))
                    (data (chunk (startup None [(mkCell 8 0 8, Block.STONE)] true)))
                  = true) by (vm_compute; reflexivity).
    rewrite forallb_forall in Hok. specialize (Hok b).
    unfold is_byte. apply list_elem_of_In in Hb. specialize (Hok Hb). lia.
  - vm_compute. repeat split.
Defined.

(** ** The reachable states *)

Lemma actionInBounds_dims c c' a :
  (forall x, cellInBounds c' x = cellInBounds c x) ->
  actionInBounds c a -> actionInBounds c' a.
Proof. intros Hd (cl & Hc & Hin). exists cl. by rewrite Hd. Qed.

Lemma invariant_build s s' :
  (forall x, cellInBounds (chunk s') x = cellInBounds (chunk s) x) ->
  wf_chunk (chunk s') -> isRestoring s' = false ->
  Forall (actionInBounds (chunk s)) (undoStack s') ->
  Forall (actionInBounds (chunk s)) (redoStack s') ->
  (forall x, hoverPlaceCell s' = Some x -> cellInBounds (chunk s) x = true) ->
  (forall x, placeCell (pointerState s') = Some x ->
     cellInBounds (chunk s) x = true) ->
  invariant s'.
Proof.
  intros Hd Hwf Hr HU HR Hh Hp. split; [done|]. split; [done|].
  split; [|split; [|split]].
  - eapply Forall_impl; [exact HU|]. intros a. by apply actionInBounds_dims.
  - eapply Forall_impl; [exact HR|]. intros a. by apply actionInBounds_dims.
  - intros x Hx. rewrite Hd. by apply Hh.
  - intros x Hx. rewrite Hd. by apply Hp.
Qed.

Lemma fillDefaultTerrain_wf writes c :
  wf_chunk c ->
  wf_chunk (fillDefaultTerrain c writes)
  /\ forall x, cellInBounds (fillDefaultTerrain c writes) x = cellInBounds c x.
Proof.
  unfold fillDefaultTerrain. revert c.
  induction writes as [|w writes IH]; intros c Hwf; [done|].
  cbn [fold_left].
  destruct (IH (setCell c w.1 w.2)) as [Hwf' Hd]; [by apply setBlock_wf|].
  split; [done|]. intros x. by rewrite Hd, setCell_cellInBounds.
Qed.

Lemma fillData_wf c v :
  wf_chunk c ->
  wf_chunk (fillData c v)
  /\ forall x, cellInBounds (fillData c v) x = cellInBounds c x.
Proof.
  intros [Hl Hb]. split; [|done]. split.
  - unfold cellCount in *. cbn. by rewrite length_replicate.
  - cbn. apply Forall_replicate, to_uint8_byte.
Qed.

Lemma loadChunkFromStorage_wf c stored :
  wf_chunk c ->
  wf_chunk (loadChunkFromStorage c stored).1
  /\ forall x, cellInBounds (loadChunkFromStorage c stored).1 x
               = cellInBounds c x.
Proof.
  intros Hwf. unfold loadChunkFromStorage.
  destruct stored as [[|ch encoded]|]; [done| |done].
  pose proof (decodeChunkData_wf c (ch :: encoded) Hwf) as Hwf'.
  destruct (decodeChunkData_dims c (ch :: encoded)) as (Hw & Hh & Hd).
  destruct (decodeChunkData c (ch :: encoded)) as [c' [err|]]; cbn [fst] in *;
    (split; [done|]); intros x; by apply cellInBounds_dims.
Qed.

Lemma startup_invariant stored writes ok :
  invariant (startup stored writes ok).
Proof.
  unfold startup. cbv zeta.
  assert (Hwf0 : wf_chunk (newChunk CHUNK_SIZE CHUNK_HEIGHT CHUNK_SIZE))
    by (by apply newChunk_wf).
  destruct (loadChunkFromStorage_wf _ stored Hwf0) as [Hwf1 Hd1].
  destruct (loadChunkFromStorage _ stored) as [c' didLoad]. cbn [fst] in *.
  destruct didLoad.
  - split; [exact Hwf1|]. cbn. repeat split; (done || constructor).
  - destruct (fillDefaultTerrain_wf writes c' Hwf1) as [Hwf2 Hd2].
    match goal with
    | |- invariant (flushSave ?t ?ok) =>
        destruct (flushSave_fields t ok) as (Ec & EU & ER & EI & _ & EP & EH & _)
    end.
    unfold invariant. rewrite Ec, EU, ER, EI, EP, EH. cbn.
    split; [exact Hwf2|]. repeat split; (done || constructor).
Qed.

Lemma applyAction_fields s a :
  let s' := (applyAction s a).1 in
  (forall x, cellInBounds (chunk s') x = cellInBounds (chunk s) x)
  /\ (wf_chunk (chunk s) -> wf_chunk (chunk s'))
  /\ (isRestoring s = false -> isRestoring s' = false)
  /\ undoStack s' = undoStack s /\ redoStack s' = redoStack s
  /\ hoverPlaceCell s' = hoverPlaceCell s
  /\ hoverRemoveCell s' = hoverRemoveCell s
  /\ pointerState s' = pointerState s
  /\ selectedBlockId s' = selectedBlockId s.
Proof.
  cbv zeta. unfold applyAction.
  destruct a as [a|]; [|by repeat (split; [done|])].
  destruct (cell a) as [cl|]; [|by repeat (split; [done|])].
  destruct (cellInBounds (chunk s) cl); [|by repeat (split; [done|])].
  cbn. split; [intros x; apply setCell_cellInBounds|].
  split; [intros Hwf; by apply setBlock_wf|]. by repeat (split; [done|]).
Qed.

Lemma undo_invariant s : invariant s -> invariant (undo s).
Proof.
  intros Hs. pose proof Hs as (Hwf & Hr & HU & HR & Hh & Hp). unfold undo.
  destruct (undoStack s) as [|a U] eqn:EU; [done|].
  apply Forall_cons in HU as [Ha HU]. cbv zeta.
  destruct (invertAction (Some a)) as [inv|] eqn:Hinv;
    [|by apply (invariant_build s)].
  match goal with
  | |- context [applyAction ?t ?i] =>
      destruct (applyAction_fields t i)
        as (Fd & Fwf & Fr & FU & FR & Fh & _ & Fp & _);
      destruct (applyAction t i) as [s2 ok]
  end.
  cbn [fst] in *. cbn in Fd, Fwf, Fr, FU, FR, Fh, Fp.
  destruct ok; apply (invariant_build s); cbn; rewrite ?FU, ?FR, ?Fh, ?Fp;
    auto.
  apply Forall_cons. split; [|done]. by rewrite stored_action_id.
Qed.

Lemma redo_invariant s : invariant s -> invariant (redo s).
Proof.
  intros Hs. pose proof Hs as (Hwf & Hr & HU & HR & Hh & Hp). unfold redo.
  destruct (redoStack s) as [|a R] eqn:ER; [done|].
  apply Forall_cons in HR as [Ha HR]. cbv zeta.
  match goal with
  | |- context [applyAction ?t ?i] =>
      destruct (applyAction_fields t i)
        as (Fd & Fwf & Fr & FU & FR & Fh & _ & Fp & _);
      destruct (applyAction t i) as [s2 ok]
  end.
  cbn [fst] in *. cbn in Fd, Fwf, Fr, FU, FR, Fh, Fp.
  destruct ok; apply (invariant_build s); cbn; rewrite ?FU, ?FR, ?Fh, ?Fp;
    auto.
  apply Forall_cons. split; [|done]. by rewrite stored_action_id.
Qed.

Lemma with_hover_invariant s p r :
  invariant s ->
  (forall x, p = Some x -> cellInBounds (chunk s) x = true) ->
  invariant (with_hover s p r).
Proof.
  intros (Hwf & Hr & HU & HR & Hh & Hp) Hp'. by apply (invariant_build s).
Qed.

Lemma with_pointerState_invariant s p :
  invariant s ->
  (forall x, placeCell p = Some x -> cellInBounds (chunk s) x = true) ->
  invariant (with_pointerState s p).
Proof.
  intros (Hwf & Hr & HU & HR & Hh & Hp) Hp'. by apply (invariant_build s).
Qed.

Lemma with_lastPointerCoords_invariant s xy :
  invariant s -> invariant (with_lastPointerCoords s xy).
Proof.
  intros (Hwf & Hr & HU & HR & Hh & Hp). by apply (invariant_build s).
Qed.

Lemma clearPointerTimer_placeCell p :
  placeCell (clearPointerTimer p) = placeCell p
  /\ removeCell (clearPointerTimer p) = removeCell p
  /\ longPressFired (clearPointerTimer p) = longPressFired p
  /\ pointerId (clearPointerTimer p) = pointerId p
  /\ timer (clearPointerTimer p) = None.
Proof. unfold clearPointerTimer. by destruct (timer p) eqn:E. Qed.

Lemma committed_invariant s a cl p r :
  invariant s -> cell a = Some cl -> cellInBounds (chunk s) cl = true ->
  hoverOk (chunk (committed s a cl)) p r ->
  invariant (with_hover (committed s a cl) p r).
Proof.
  intros (Hwf & Hr & HU & HR & Hh & Hp) Hcell Hin [Hok _].
  destruct (committed_fields s a cl) as (Fc & FU & FR & FI & _ & FP & _).
  rewrite Hr in FU, FR.
  assert (Hd : forall x, cellInBounds (chunk (committed s a cl)) x
                         = cellInBounds (chunk s) x).
  { intros x. rewrite Fc. apply setCell_cellInBounds. }
  apply (invariant_build s); cbn [with_hover chunk undoStack redoStack
    isRestoring hoverPlaceCell pointerState].
  - done.
  - rewrite Fc. by apply setBlock_wf.
  - by rewrite FI.
  - rewrite FU. apply Forall_cons. split; [by exists cl | done].
  - rewrite FR. constructor.
  - intros x ->. rewrite <- Hd. by apply Hok.
  - by rewrite FP.
Qed.

Lemma attemptPlace_invariant s ocl hits :
  invariant s ->
  (forall cl, ocl = Some cl -> cellInBounds (chunk s) cl = true) ->
  invariant (attemptPlace s ocl hits).
Proof.
  intros Hs Hcl. destruct ocl as [cl|]; [|done].
  destruct (attemptPlace_cases s cl hits)
    as [-> | (bt & p & r & _ & _ & _ & -> & Hok)]; [done|].
  apply committed_invariant; auto.
Qed.

Lemma attemptRemove_invariant s ocl hits :
  invariant s -> invariant (attemptRemove s ocl hits).
Proof.
  intros Hs. destruct ocl as [cl|]; [|done].
  destruct (attemptRemove_cases s cl hits)
    as [-> | (p & r & Hne & -> & Hok)]; [done|].
  apply committed_invariant; auto.
  destruct (cellInBounds (chunk s) cl) eqn:Hin; [done|].
  exfalso. apply Hne. by apply getBlock_oob.
Qed.

Lemma updateHover_invariant s event hits :
  invariant s ->
  invariant (updateHover s event hits)
  /\ chunk (updateHover s event hits) = chunk s
  /\ pointerState (updateHover s event hits) = pointerState s.
Proof.
  intros Hs.
  destruct (updateHover_shape s event hits) as (p & r & -> & [Hok _]).
  split; [|done].
  apply with_hover_invariant; [by apply with_lastPointerCoords_invariant|].
  intros x Hx. by apply Hok.
Qed.

Lemma step_invariant s e : invariant s -> invariant (step s e).
Proof.
  intros Hs.
  destruct e as [event hits | event hits | event hits | event | | hits
                | ok | | | writes ok | b]; cbn [step].
  - unfold handlePointerMove.
    destruct (updateHover_invariant s event hits Hs) as (Hs' & Ec & Ep).
    cbv zeta. destruct (sameId _ _); [|done].
    apply with_pointerState_invariant; [done|].
    pose proof Hs' as (_ & _ & _ & _ & Hh & _).
    intros x. case_match.
    + rewrite (proj1 (clearPointerTimer_placeCell _)). cbn [placeCell].
      rewrite cloneCell_id. apply Hh.
    + cbn [placeCell]. rewrite cloneCell_id. apply Hh.
  - unfold handlePointerDown. destruct (_ || _); [done|].
    destruct (updateHover_invariant s event hits Hs) as (Hs' & Ec & Ep).
    cbv zeta. destruct (_ && _); [done|].
    apply with_pointerState_invariant; [done|].
    pose proof Hs' as (_ & _ & _ & _ & Hh & _).
    intros x. case_match; cbn [placeCell]; rewrite cloneCell_id; apply Hh.
  - unfold handlePointerUp. destruct (negb _); [done|]. cbv zeta.
    pose proof Hs as (_ & _ & _ & _ & _ & Hp).
    assert (Hs' : invariant
                    (with_pointerState s (clearPointerState (pointerState s))))
      by (by apply with_pointerState_invariant).
    destruct (_ && _); [|done].
    apply attemptPlace_invariant; [done|].
    intros cl. rewrite cloneCell_id. apply Hp.
  - unfold handlePointerCancel. destruct (negb _); [done|].
    by apply with_pointerState_invariant.
  - unfold handlePointerLeave. cbv zeta.
    apply with_lastPointerCoords_invariant.
    apply with_pointerState_invariant; [|done].
    by apply with_hover_invariant.
  - destruct (timer (pointerState s)) as [[|]|]; try done.
    unfold longPressTimeout. cbv zeta.
    pose proof Hs as (_ & _ & _ & _ & _ & Hp).
    assert (Hs' : invariant (spendPointerTimer s))
      by (by apply with_pointerState_invariant).
    pose proof (attemptRemove_invariant (spendPointerTimer s)
                  (removeCell (pointerState (spendPointerTimer s))) hits Hs')
      as Hs''.
    apply with_pointerState_invariant; [done|].
    pose proof Hs'' as (_ & _ & _ & _ & _ & Hp''). apply Hp''.
  - destruct (saveTimer s) as [[|]|]; try done.
    unfold saveTimeout.
    pose proof Hs as (Hwf & Hr & HU & HR & Hh & Hp).
    destruct (flushSave_fields s ok) as (Ec & EU & ER & EI & _ & EP & EH & _).
    apply (invariant_build s); cbn; rewrite ?Ec, ?EU, ?ER, ?EI, ?EP, ?EH;
      done.
  - by apply undo_invariant.
  - by apply redo_invariant.
  - unfold resetChunkState. cbv zeta.
    pose proof Hs as (Hwf & Hr & HU & HR & Hh & Hp).
    destruct (fillData_wf (chunk s) Block.AIR Hwf) as [Hwf1 Hd1].
    destruct (fillDefaultTerrain_wf writes _ Hwf1) as [Hwf2 Hd2].
    match goal with
    | |- invariant (flushSave ?t ?ok) =>
        destruct (flushSave_fields t ok) as (Ec & EU & ER & EI & _ & EP & EH & _)
    end.
    apply (invariant_build s); rewrite ?Ec, ?EU, ?ER, ?EI, ?EP, ?EH;
      cbn [chunk with_chunk clearHistory with_stacks undoStack redoStack
             isRestoring pointerState hoverPlaceCell]; try done.
    all: intros x; by rewrite Hd2, Hd1.
  - pose proof Hs as (Hwf & Hr & HU & HR & Hh & Hp).
    destruct (setSelectedBlock_fields s b) as (Ec & EU & ER & EI & EP & EH & _).
    apply (invariant_build s); rewrite ?Ec, ?EU, ?ER, ?EI, ?EP, ?EH; done.
Qed.

Lemma reachable_invariant s : reachable s -> invariant s.
Proof.
  induction 1 as [stored writes ok | s e _ IH].
  - apply startup_invariant.
  - by apply step_invariant.
Qed.

Lemma reachable_chunk_wf s : reachable s -> wf_chunk (chunk s).
Proof. intros H. by destruct (reachable_invariant s H). Qed.

(** C9. In every state the program can reach, every action on the undo
    stack and on the redo stack names a cell inside the grid; so when
    [undo] applies the inverse of the top undo action, or [redo] the top
    redo action, [applyAction] passes its bounds check and reports
    success. *)
Theorem history_cells_in_bounds (s : State) :
  reachable s ->
  Forall (actionInBounds (chunk s)) (undoStack s)
  /\ Forall (actionInBounds (chunk s)) (redoStack s)
  /\ (forall a rest,
        undoStack s = a :: rest ->
        (applyAction (with_stacks s rest (redoStack s))
           (invertAction (Some a))).2 = true)
  /\ (forall a rest,
        redoStack s = a :: rest ->
        (applyAction (with_stacks s (undoStack s) rest) (Some a)).2 = true).
Proof.
  intros Hreach.
  destruct (reachable_invariant s Hreach) as (_ & _ & HU & HR & _).
  split; [done|]. split; [done|]. split.
  - intros a rest E. rewrite E in HU. apply Forall_cons in HU as [Ha _].
    destruct Ha as (cl & Hcell & Hin).
    unfold invertAction.
    destruct (type a); rewrite cloneCell_id; unfold applyAction;
      cbn [cell with_stacks chunk]; by rewrite Hcell, Hin.
  - intros a rest E. rewrite E in HR. apply Forall_cons in HR as [Ha _].
    destruct Ha as (cl & Hcell & Hin).
    unfold applyAction. rewrite Hcell. cbn [with_stacks chunk].
    by rewrite Hin.
Qed.

Lemma history_cells_in_bounds_witness :
  let hit := mkHit true (Some (mkNormal 0 1 0))
               (mkVec3 0.5 0.5 0.5) in
  let down := mkPointerEvent 1 0 (0, 0)%float in
  let s := step (step (startup None [(mkCell 8 0 8, Block.STONE)] true)
                   (PointerDown down [hit]))
             (PointerUp down []) in
  Forall (actionInBounds (chunk s)) (undoStack s)
  /\ Forall (actionInBounds (chunk s)) (redoStack s)
  /\ (forall a rest,
        undoStack s = a :: rest ->
        (applyAction (with_stacks s rest (redoStack s))
           (invertAction (Some a))).2 = true)
  /\ (forall a rest,
        redoStack s = a :: rest ->
        (applyAction (with_stacks s (undoStack s) rest) (Some a)).2 = true).
Proof.
  cbv zeta. apply history_cells_in_bounds.
  apply reachable_step. apply reachable_step. apply reachable_startup.
Defined.

(** The design document's scenario: a grid holding only stone at (8,0,8);
    a hit on the top face of that block offers (8,0,8) for removal and
    (8,1,8) for placement; the tap places grass there and records it;
    [undo] brings the first grid back. *)
Example scenario_tap_then_undo :
  let hit := mkHit true (Some (mkNormal 0 1 0))
               (mkVec3 0.5 0.5 0.5) in
  let down := mkPointerEvent 1 0 (0, 0)%float in
  let s0 := startup None [(mkCell 8 0 8, Block.STONE)] true in
  let s1 := step s0 (PointerDown down [hit]) in
  let s2 := step s1 (PointerUp down []) in
  removeCell (pointerState s1) = Some (mkCell 8 0 8)
  /\ placeCell (pointerState s1) = Some (mkCell 8 1 8)
  /\ getBlock (chunk s2) 8 1 8 = Some Block.GRASS
  /\ undoStack s2 = [mkAction place (Some Block.GRASS) (Some (mkCell 8 1 8))]
  /\ chunk (undo s2) = chunk s0.
Proof. vm_compute. repeat split. Qed.

(** ** Gestures *)

Lemma sameDocument_noCommit s s' : sameDocument s s' -> noCommit s s'.
Proof. intros (Ec & _ & EU & ER & _). by repeat split. Qed.

Lemma noCommit_refl s : noCommit s s.
Proof. by repeat split. Qed.

(** Closes a goal of the shape "state unchanged, hence nothing committed". *)
Ltac unchanged :=
  repeat match goal with
         | |- _ /\ _ => split
         | |- noCommit ?s ?s \/ _ => left; by repeat split
         | |- ?s = ?s \/ _ => left; reflexivity
         | |- _ => done
         end.

Lemma noCommit_trans s0 s s' : noCommit s0 s -> noCommit s s' -> noCommit s0 s'.
Proof.
  intros (Ec & EU & ER) (Ec' & EU' & ER'). repeat split; congruence.
Qed.

Lemma noCommit_oneCommit s0 s s' a :
  noCommit s0 s -> oneCommit s s' a -> oneCommit s0 s' a.
Proof.
  intros (Ec & EU & ER) (cl & Hcell & Ec' & EU' & ER').
  exists cl. repeat split; congruence.
Qed.

Lemma oneCommit_noCommit s0 s s' a :
  oneCommit s0 s a -> noCommit s s' -> oneCommit s0 s' a.
Proof.
  intros (cl & Hcell & Ec' & EU' & ER') (Ec & EU & ER).
  exists cl. repeat split; congruence.
Qed.

Lemma committed_oneCommit s a cl p r :
  isRestoring s = false -> cell a = Some cl ->
  oneCommit s (with_hover (committed s a cl) p r) a.
Proof.
  intros Hr Hcell.
  destruct (committed_fields s a cl) as (Fc & FU & FR & _).
  rewrite Hr in FU, FR. exists cl. by repeat split.
Qed.

Lemma attemptPlace_commit s ocl hits :
  isRestoring s = false ->
  pointerState (attemptPlace s ocl hits) = pointerState s
  /\ isRestoring (attemptPlace s ocl hits) = false
  /\ (noCommit s (attemptPlace s ocl hits)
      \/ exists a, oneCommit s (attemptPlace s ocl hits) a /\ type a = place).
Proof.
  intros Hr. destruct ocl as [cl|];
    [|cbn [attemptPlace attemptRemove]; by unchanged].
  destruct (attemptPlace_cases s cl hits)
    as [-> | (bt & p & r & _ & _ & _ & -> & _)];
    [by unchanged|].
  destruct (committed_fields s (mkAction place (Some (id bt)) (Some cl)) cl)
    as (_ & _ & _ & FI & _ & FP & _).
  split; [done|]. split; [by rewrite <- Hr|]. right. eexists.
  split; [by apply committed_oneCommit | done].
Qed.

Lemma attemptRemove_commit s ocl hits :
  isRestoring s = false ->
  pointerState (attemptRemove s ocl hits) = pointerState s
  /\ isRestoring (attemptRemove s ocl hits) = false
  /\ (noCommit s (attemptRemove s ocl hits)
      \/ exists a, oneCommit s (attemptRemove s ocl hits) a /\ type a = remove).
Proof.
  intros Hr. destruct ocl as [cl|];
    [|cbn [attemptPlace attemptRemove]; by unchanged].
  destruct (attemptRemove_cases s cl hits)
    as [-> | (p & r & _ & -> & _)];
    [by unchanged|].
  destruct (committed_fields s
              (mkAction remove (getCell (chunk s) cl) (Some cl)) cl)
    as (_ & _ & _ & FI & _ & FP & _).
  split; [done|]. split; [by rewrite <- Hr|]. right. eexists.
  split; [by apply committed_oneCommit | done].
Qed.

Lemma handlePointerMove_pointer s event hits :
  let p := pointerState s in
  let p' := pointerState (handlePointerMove s event hits) in
  pointerId p' = pointerId p /\ longPressFired p' = longPressFired p
  /\ (timer p' = timer p \/ timer p' = None).
Proof.
  cbv zeta. unfold handlePointerMove.
  destruct (updateHover_shape s event hits) as (p & r & -> & _).
  cbv zeta. cbn [with_hover with_lastPointerCoords pointerState].
  destruct (sameId _ _); [|split; [done|]; split; [done|]; by left].
  cbn [with_pointerState pointerState]. case_match.
  - destruct (clearPointerTimer_placeCell
                (mkPointerState (pointerId (pointerState s))
                   (timer (pointerState s))
                   (longPressFired (pointerState s))
                   (cloneCell (hoverPlaceCell
                      (with_hover (with_lastPointerCoords s
                         (Some (coords event))) p r)))
                   (cloneCell (hoverRemoveCell
                      (with_hover (with_lastPointerCoords s
                         (Some (coords event))) p r)))))
      as (_ & _ & -> & -> & ->).
    split; [done|]. split; [done|]. by right.
  - split; [done|]. split; [done|]. by left.
Qed.

Lemma handlePointerDown_tracking s event hits :
  tracking s = true -> handlePointerDown s event hits = s.
Proof.
  unfold tracking, handlePointerDown. by intros ->.
Qed.

Lemma handlePointerDown_accepted s event hits :
  tracking s = false -> tracking (handlePointerDown s event hits) = true ->
  sameDocument s (handlePointerDown s event hits)
  /\ longPressFired (pointerState (handlePointerDown s event hits)) = false.
Proof.
  intros Hidle Htr. split; [apply handlePointerDown_same|].
  revert Htr. unfold handlePointerDown.
  destruct (_ || _); [by rewrite Hidle|].
  destruct (updateHover_shape s event hits) as (p & r & -> & _).
  cbv zeta. destruct (_ && _).
  - unfold tracking in *. cbn. by rewrite Hidle.
  - intros _. cbn [with_pointerState pointerState]. by case_match.
Qed.

Lemma clearPointerState_idle p :
  clearPointerState p = idlePointerState.
Proof.
  unfold clearPointerState. cbv zeta.
  by rewrite (proj2 (proj2 (proj2 (proj2 (clearPointerTimer_placeCell p))))).
Qed.

Lemma noCommit_with_pointerState s p : noCommit s (with_pointerState s p).
Proof. by repeat split. Qed.

Lemma handlePointerUp_effect s event hits :
  isRestoring s = false ->
  let s' := handlePointerUp s event hits in
  isRestoring s' = false
  /\ (s' = s
      \/ (pointerState s' = idlePointerState
          /\ (longPressFired (pointerState s) = true -> noCommit s s')
          /\ (noCommit s s' \/ exists a, oneCommit s s' a /\ type a = place))).
Proof.
  intros Hr. cbv zeta. unfold handlePointerUp.
  destruct (negb _); [by split; [|left]|]. cbv zeta.
  rewrite clearPointerState_idle.
  destruct (longPressFired (pointerState s)); cbn [negb andb].
  - split; [done|]. right. split; [done|].
    split; [intros _ | left]; apply noCommit_with_pointerState.
  - destruct (is_some _).
    + destruct (attemptPlace_commit (with_pointerState s idlePointerState)
                  (cloneCell (placeCell (pointerState s))) hits Hr)
        as (EP & EI & Hc).
      split; [done|]. right. split; [done|]. split; [done|].
      destruct Hc as [Hn | (a & Ha & Ht)]; [left | right].
      * eapply noCommit_trans; [apply noCommit_with_pointerState | exact Hn].
      * exists a. split; [|done].
        eapply noCommit_oneCommit;
          [apply noCommit_with_pointerState | exact Ha].
    + split; [done|]. right. split; [done|].
      split; [done | left; apply noCommit_with_pointerState].
Qed.

Lemma gestureInv_result s0 s :
  gestureInv s0 s -> noCommit s0 s \/ exists a, oneCommit s0 s a.
Proof.
  intros (_ & [[Hn _] | (a & Ha & _)]); [by left | right; by exists a].
Qed.

Lemma gestureInv_same s0 s s' :
  gestureInv s0 s -> noCommit s s' -> isRestoring s' = false ->
  longPressFired (pointerState s') = longPressFired (pointerState s) ->
  (timer (pointerState s') = timer (pointerState s)
   \/ timer (pointerState s') = None) ->
  gestureInv s0 s'.
Proof.
  intros (_ & Hg) Hn Hr Hl Ht. split; [done|].
  assert (Harm : timer (pointerState s) <> Some Armed ->
                 timer (pointerState s') <> Some Armed).
  { intros H. destruct Ht as [-> | ->]; done. }
  destruct Hg as [[Hn0 Hl0] | (a & Ha & Hty & Hl0 & Ht0)].
  - left. split; [by eapply noCommit_trans|].
    rewrite Hl. intros H. by apply Harm, Hl0.
  - right. exists a. split; [by eapply oneCommit_noCommit|].
    split; [done|]. split; [by rewrite Hl | by apply Harm].
Qed.

Lemma idle_not_tracking s :
  pointerState s = idlePointerState -> tracking s = false.
Proof. unfold tracking. by intros ->. Qed.

Lemma longPressTimeout_effect s hits :
  isRestoring s = false -> timer (pointerState s) = Some Armed ->
  let s' := step s (LongPressTimeout hits) in
  isRestoring s' = false
  /\ longPressFired (pointerState s') = true
  /\ timer (pointerState s') = Some Spent
  /\ pointerId (pointerState s') = pointerId (pointerState s)
  /\ placeCell (pointerState s') = placeCell (pointerState s)
  /\ (noCommit s s' \/ exists a, oneCommit s s' a /\ type a = remove).
Proof.
  intros Hr Harm. cbv zeta. cbn [step]. rewrite Harm.
  unfold longPressTimeout. cbv zeta.
  destruct (attemptRemove_commit (spendPointerTimer s)
              (removeCell (pointerState (spendPointerTimer s))) hits Hr)
    as (EP & EI & Hc).
  cbn [with_pointerState isRestoring pointerState pointerId timer
       longPressFired placeCell].
  rewrite EP. cbn [spendPointerTimer with_pointerState pointerState pointerId
                   timer placeCell].
  split; [done|]. split; [done|]. split; [done|]. split; [done|].
  split; [done|].
  assert (Hn : noCommit s (spendPointerTimer s))
    by apply noCommit_with_pointerState.
  destruct Hc as [Hc | (a & Ha & Hty)]; [left | right].
  - eapply noCommit_trans; [|apply noCommit_with_pointerState].
    by eapply noCommit_trans.
  - exists a. split; [|done].
    eapply oneCommit_noCommit; [|apply noCommit_with_pointerState].
    by eapply noCommit_oneCommit.
Qed.

Lemma gesture_step s0 s e :
  tracking s = true -> gestureInv s0 s -> gestureEvent e = true ->
  (noCommit s0 (step s e) \/ exists a, oneCommit s0 (step s e) a)
  /\ (tracking (step s e) = true -> gestureInv s0 (step s e)).
Proof.
  intros Htr Hg He. pose proof Hg as (Hr & Hcases).
  assert (Hkeep : forall s',
            noCommit s s' -> isRestoring s' = false ->
            longPressFired (pointerState s') = longPressFired (pointerState s) ->
            (timer (pointerState s') = timer (pointerState s)
             \/ timer (pointerState s') = None) ->
            (noCommit s0 s' \/ exists a, oneCommit s0 s' a)
            /\ (tracking s' = true -> gestureInv s0 s')).
  { intros s' Hn Hr' Hl Ht.
    assert (gestureInv s0 s') by (by eapply gestureInv_same).
    split; [by apply gestureInv_result | done]. }
  assert (Hend : forall s',
            noCommit s s' -> tracking s' = false ->
            (noCommit s0 s' \/ exists a, oneCommit s0 s' a)
            /\ (tracking s' = true -> gestureInv s0 s')).
  { intros s' Hn Hidle. split; [|by rewrite Hidle].
    destruct (gestureInv_result _ _ Hg) as [H | (a & H)]; [left | right].
    - by eapply noCommit_trans.
    - exists a. by eapply oneCommit_noCommit. }
  destruct e as [event hits | event hits | event hits | event | | hits
                | ok | | | writes ok | b]; cbn [step]; try done.
  - destruct (handlePointerMove_pointer s event hits) as (_ & Hl & Ht).
    destruct (handlePointerMove_same s event hits)
      as (Ec & _ & EU & ER & EI & _).
    apply Hkeep; [by repeat split | by rewrite EI | done | done].
  - rewrite handlePointerDown_tracking by done.
    apply Hkeep; [apply noCommit_refl | done | done | by left].
  - destruct (handlePointerUp_effect s event hits Hr)
      as (EI & [-> | (Eidle & Hfired & Hc)]).
    { apply Hkeep; [apply noCommit_refl | done | done | by left]. }
    split; [|by rewrite (idle_not_tracking _ Eidle)].
    destruct Hcases as [[Hn0 _] | (a & Ha & _ & Hl0 & _)].
    + destruct Hc as [Hn | (a & Ha & _)]; [left | right].
      * by eapply noCommit_trans.
      * exists a. by eapply noCommit_oneCommit.
    + right. exists a. eapply oneCommit_noCommit; [done|]. by apply Hfired.
  - unfold handlePointerCancel. destruct (negb _).
    { apply Hkeep; [apply noCommit_refl | done | done | by left]. }
    apply Hend; [apply noCommit_with_pointerState|].
    apply idle_not_tracking. cbn. apply clearPointerState_idle.
  - apply Hend; [by apply sameDocument_noCommit, handlePointerLeave_same|].
    apply idle_not_tracking. cbn. apply clearPointerState_idle.
  - destruct (timer (pointerState s)) as [[|]|] eqn:Harm;
      try (apply Hkeep; [apply noCommit_refl | done | done | by left]).
    destruct (longPressTimeout_effect s hits Hr Harm)
      as (EI & El & Et & _ & _ & Hc).
    cbn [step] in *. rewrite Harm in *.
    destruct Hcases as [[Hn0 _] | (a & _ & _ & _ & Ht0)]; [|done].
    split.
    + destruct Hc as [Hn | (a & Ha & _)]; [left | right].
      * by eapply noCommit_trans.
      * exists a. by eapply noCommit_oneCommit.
    + intros _. split; [done|].
      destruct Hc as [Hn | (a & Ha & Hty)]; [left | right].
      * split; [by eapply noCommit_trans|]. intros _. by rewrite Et.
      * exists a. split; [by eapply noCommit_oneCommit|].
        split; [done|]. split; [done|]. by rewrite Et.
  - destruct (saveTimer s) as [[|]|];
      try (apply Hkeep; [apply noCommit_refl | done | done | by left]).
    unfold saveTimeout.
    destruct (flushSave_fields s ok) as (Ec & EU & ER & EI & _ & EP & _).
    apply Hkeep; cbn [with_saveTimer chunk undoStack redoStack isRestoring
                      pointerState].
    + by repeat split.
    + by rewrite EI.
    + by rewrite EP.
    + left. by rewrite EP.
  - destruct (setSelectedBlock_fields s b) as (Ec & EU & ER & EI & EP & _).
    apply Hkeep.
    + by repeat split.
    + by rewrite EI.
    + by rewrite EP.
    + left. by rewrite EP.
Qed.

(** The controller keeps one timer handle.  That is exact: a long-press
    timer is started only by an accepted pointer-down, and in a reachable
    state with no pointer tracked no timer is pending. *)
Lemma attemptPlace_pointerState s ocl hits :
  pointerState (attemptPlace s ocl hits) = pointerState s.
Proof.
  destruct ocl as [cl|]; [|done].
  destruct (attemptPlace_cases s cl hits)
    as [-> | (bt & p & r & _ & _ & _ & -> & _)]; [done|].
  cbn [with_hover pointerState].
  apply (committed_fields s (mkAction place (Some (id bt)) (Some cl)) cl).
Qed.

Lemma attemptRemove_pointerState s ocl hits :
  pointerState (attemptRemove s ocl hits) = pointerState s.
Proof.
  destruct ocl as [cl|]; [|done].
  destruct (attemptRemove_cases s cl hits)
    as [-> | (p & r & _ & -> & _)]; [done|].
  cbn [with_hover pointerState].
  apply (committed_fields s
           (mkAction remove (getCell (chunk s) cl) (Some cl)) cl).
Qed.

Lemma undo_pointerState s : pointerState (undo s) = pointerState s.
Proof.
  unfold undo. destruct (undoStack s) as [|a U]; [done|]. cbv zeta.
  destruct (invertAction (Some a)) as [inv|]; [|done].
  match goal with
  | |- context [applyAction ?t ?i] =>
      destruct (applyAction_fields t i) as (_ & _ & _ & _ & _ & _ & _ & Fp & _);
      destruct (applyAction t i) as [s2 ok]
  end.
  cbn [fst] in Fp. by destruct ok.
Qed.

Lemma redo_pointerState s : pointerState (redo s) = pointerState s.
Proof.
  unfold redo. destruct (redoStack s) as [|a R]; [done|]. cbv zeta.
  match goal with
  | |- context [applyAction ?t ?i] =>
      destruct (applyAction_fields t i) as (_ & _ & _ & _ & _ & _ & _ & Fp & _);
      destruct (applyAction t i) as [s2 ok]
  end.
  cbn [fst] in Fp. by destruct ok.
Qed.

Lemma step_idle_timer s e :
  (tracking s = false -> timer (pointerState s) = None) ->
  tracking (step s e) = false -> timer (pointerState (step s e)) = None.
Proof.
  intros Hs.
  destruct e as [event hits | event hits | event hits | event | | hits
                | ok | | | writes ok | b]; cbn [step].
  - destruct (handlePointerMove_pointer s event hits) as (Ei & _ & Et).
    unfold tracking in *. rewrite Ei. intros Hidle.
    destruct Et as [-> | ->]; auto.
  - unfold handlePointerDown.
    destruct (is_some (pointerId (pointerState s)) || (0 <? button event))
      eqn:Hguard; [done|].
    destruct (updateHover_shape s event hits) as (p & r & -> & _).
    cbv zeta. destruct (_ && _); [done|].
    unfold tracking. cbn. by case_match.
  - unfold handlePointerUp. destruct (negb _); [done|]. cbv zeta.
    rewrite clearPointerState_idle. intros _.
    destruct (_ && _); [|done]. by rewrite attemptPlace_pointerState.
  - unfold handlePointerCancel. destruct (negb _); [done|]. intros _.
    cbn [with_pointerState pointerState]. by rewrite clearPointerState_idle.
  - intros _. unfold handlePointerLeave. cbv zeta.
    cbn [with_lastPointerCoords with_pointerState pointerState].
    by rewrite clearPointerState_idle.
  - destruct (timer (pointerState s)) as [[|]|] eqn:Harm;
      try (rewrite Harm; exact Hs).
    unfold tracking, longPressTimeout in *. cbv zeta.
    cbn [with_pointerState pointerState pointerId].
    rewrite attemptRemove_pointerState.
    cbn [spendPointerTimer with_pointerState pointerState pointerId].
    intros Hidle. specialize (Hs Hidle). congruence.
  - destruct (saveTimer s) as [[|]|]; try done.
    unfold saveTimeout, tracking. cbn [with_saveTimer pointerState].
    by rewrite (proj1 (proj2 (proj2 (proj2 (proj2 (proj2
                  (flushSave_fields s ok))))))).
  - unfold tracking. by rewrite undo_pointerState.
  - unfold tracking. by rewrite redo_pointerState.
  - unfold resetChunkState, tracking. cbv zeta.
    by rewrite (proj1 (proj2 (proj2 (proj2 (proj2 (proj2
                  (flushSave_fields _ ok))))))).
  - unfold tracking.
    by rewrite (proj1 (proj2 (proj2 (proj2 (proj2
                  (setSelectedBlock_fields s b)))))).
Qed.

Lemma reachable_idle_no_timer s :
  reachable s -> tracking s = false -> timer (pointerState s) = None.
Proof.
  induction 1 as [stored writes ok | s e _ IH].
  - intros _. unfold startup. cbv zeta.
    destruct (loadChunkFromStorage _ stored) as [c' didLoad].
    destruct didLoad; [done|].
    by rewrite (proj1 (proj2 (proj2 (proj2 (proj2 (proj2
                  (flushSave_fields _ ok))))))).
  - by apply step_idle_timer.
Qed.

Lemma completeGesture_result s0 events :
  Forall (fun e => gestureEvent e = true) events ->
  forall s s',
    tracking s = true -> gestureInv s0 s ->
    completeGesture s events = Some s' ->
    tracking s' = false /\ (noCommit s0 s' \/ exists a, oneCommit s0 s' a).
Proof.
  induction 1 as [|e events He _ IH]; intros s s' Htr Hg Hrun; [done|].
  cbn [completeGesture] in Hrun. cbv zeta in Hrun.
  destruct (gesture_step s0 s e Htr Hg He) as [Hres Hnext].
  destruct (tracking (step s e)) eqn:Htr'.
  - by apply (IH (step s e)); [| apply Hnext |].
  - destruct events; [|done]. injection Hrun as <-. done.
Qed.

(** C7. (1) In every reachable state with no pointer tracked, a gesture,
    from its pointer-down to the event that returns the controller to idle,
    commits at most one action: the grid and the history are either as they
    were at pointer-down or changed by exactly one recorded action.  (2) Once the long-press timeout has run, [longPressFired] is
    set, and a pointer-up in that state commits nothing, whatever placement
    candidate is held.  (3) A pointer-cancel for the tracked pointer and a
    pointer-leave put the controller back to idle and leave the grid, the
    history and the save timer as they were. *)
Theorem gesture_commits_at_most_once :
  (forall s0 event hits events s',
     reachable s0 -> tracking s0 = false ->
     tracking (handlePointerDown s0 event hits) = true ->
     Forall (fun e => gestureEvent e = true) events ->
     completeGesture (handlePointerDown s0 event hits) events = Some s' ->
     tracking s' = false
     /\ (noCommit s0 s' \/ exists a, oneCommit s0 s' a))
  /\ (forall s hits,
        isRestoring s = false -> timer (pointerState s) = Some Armed ->
        let s' := step s (LongPressTimeout hits) in
        longPressFired (pointerState s') = true
        /\ placeCell (pointerState s') = placeCell (pointerState s)
        /\ (noCommit s s' \/ exists a, oneCommit s s' a /\ type a = remove))
  /\ (forall s event hits,
        longPressFired (pointerState s) = true ->
        noCommit s (handlePointerUp s event hits))
  /\ (forall s event,
        sameId (pointerId (pointerState s)) (ev_pointerId event) = true ->
        tracking (handlePointerCancel s event) = false
        /\ sameDocument s (handlePointerCancel s event))
  /\ (forall s,
        tracking (handlePointerLeave s) = false
        /\ sameDocument s (handlePointerLeave s)).
Proof.
  split; [|split; [|split; [|split]]].
  - intros s0 event hits events s' Hreach Hidle Htr Hev Hrun.
    destruct (reachable_invariant s0 Hreach) as (_ & Hr & _).
    destruct (handlePointerDown_accepted s0 event hits Hidle Htr)
      as [Hsame Hl].
    apply (completeGesture_result s0 events Hev
             (handlePointerDown s0 event hits) s'); [done| |done].
    split; [by rewrite (proj1 (proj2 (proj2 (proj2 (proj2 Hsame)))))|].
    left. split; [by apply sameDocument_noCommit|]. by rewrite Hl.
  - intros s hits Hr Harm.
    destruct (longPressTimeout_effect s hits Hr Harm)
      as (_ & El & _ & _ & Ep & Hc). done.
  - intros s event hits Hl. unfold handlePointerUp.
    destruct (negb _); [apply noCommit_refl|]. cbv zeta.
    rewrite Hl. cbn [negb andb]. apply noCommit_with_pointerState.
  - intros s event Hid. unfold handlePointerCancel. rewrite Hid. cbn [negb].
    split; [|by repeat split].
    apply idle_not_tracking. cbn. apply clearPointerState_idle.
  - intros s. split; [|apply handlePointerLeave_same].
    apply idle_not_tracking. cbn. apply clearPointerState_idle.
Qed.

Lemma gesture_commits_at_most_once_witness :
  let hit := mkHit true (Some (mkNormal 0 1 0))
               (mkVec3 0.5 0.5 0.5) in
  let down := mkPointerEvent 1 0 (0, 0)%float in
  let s0 := startup None [(mkCell 8 0 8, Block.STONE)] true in
  let s' := step (step (handlePointerDown s0 down [hit]) (LongPressTimeout []))
              (PointerUp down []) in
  tracking s' = false /\ (noCommit s0 s' \/ exists a, oneCommit s0 s' a).
Proof.
  cbv zeta.
  apply (proj1 gesture_commits_at_most_once
           (startup None [(mkCell 8 0 8, Block.STONE)] true)
           (mkPointerEvent 1 0 (0, 0)%float)
           [mkHit true (Some (mkNormal 0 1 0)) (mkVec3 0.5 0.5 0.5)]
           [LongPressTimeout []; PointerUp (mkPointerEvent 1 0 (0, 0)%float) []]).
  - apply reachable_startup.
  - reflexivity.
  - vm_compute. reflexivity.
  - repeat constructor.
  - vm_compute. reflexivity.
Defined.

(** The long press of that gesture removed the stone and the release placed
    nothing, although (8,1,8) was held as placement candidate. *)
Example scenario_long_press :
  let hit := mkHit true (Some (mkNormal 0 1 0))
               (mkVec3 0.5 0.5 0.5) in
  let down := mkPointerEvent 1 0 (0, 0)%float in
  let s0 := startup None [(mkCell 8 0 8, Block.STONE)] true in
  let s1 := handlePointerDown s0 down [hit] in
  let s2 := step s1 (LongPressTimeout []) in
  let s3 := step s2 (PointerUp down []) in
  placeCell (pointerState s2) = Some (mkCell 8 1 8)
  /\ getBlock (chunk s3) 8 0 8 = Some Block.AIR
  /\ getBlock (chunk s3) 8 1 8 = Some Block.AIR
  /\ undoStack s3 = [mkAction remove (Some Block.STONE) (Some (mkCell 8 0 8))].
Proof. vm_compute. repeat split. Qed.

(** ** The picker *)


Lemma singleBlock_pickGround_ok c hit :
  hoverOk c (SingleBlock.pickGround c hit).1 (SingleBlock.pickGround c hit).2
  /\ forall x, (SingleBlock.pickGround c hit).2 = Some x ->
               getCell c x <> Some Block.AIR.
Proof.
  unfold SingleBlock.pickGround.
  destruct (worldPointToCell c (point hit) false) as [g|] eqn:Hw;
    [|by repeat split].
  apply worldPointToCell_some in Hw.
  assert (Hin : cellInBounds c (mkCell (cell_x g) 0 (cell_z g)) = true).
  { unfold cellInBounds in *. cbn [cell_x cell_y cell_z].
    apply inBounds_spec in Hw. apply inBounds_spec. lia. }
  destruct (num_eqb _ Block.AIR) eqn:Hair; cbn [fst snd].
  - apply num_eqb_true in Hair.
    split; [split|]; [by intros ? [= <-] | done | done].
  - apply num_eqb_false in Hair.
    split; [split|]; [done | by intros ? [= <-] | by intros ? [= <-]].
Qed.

Lemma singleBlock_updateHoverFromPointer_shape (t : SingleBlock.State) hits :
  exists p r,
    SingleBlock.updateHoverFromPointer t hits = SingleBlock.with_hover t p r
    /\ hoverOk (SingleBlock.chunk t) p r.
Proof.
  unfold SingleBlock.updateHoverFromPointer.
  destruct (SingleBlock.lastPointerCoords t) as [xy|]; [|by exists None, None].
  destruct hits as [|hit ?]; [by exists None, None|].
  cbn [SingleBlock.chunk SingleBlock.with_hover].
  destruct (hitIsBlock hit); [destruct (face hit) as [n|]|].
  - pose proof (pickBlockFace_ok (SingleBlock.chunk t) hit n) as Hok.
    destruct (pickBlockFace (SingleBlock.chunk t) hit n) as [p r]. by exists p, r.
  - pose proof (proj1 (singleBlock_pickGround_ok (SingleBlock.chunk t) hit)) as Hok.
    destruct (SingleBlock.pickGround (SingleBlock.chunk t) hit) as [p r].
    by exists p, r.
  - pose proof (proj1 (singleBlock_pickGround_ok (SingleBlock.chunk t) hit)) as Hok.
    destruct (SingleBlock.pickGround (SingleBlock.chunk t) hit) as [p r].
    by exists p, r.
Qed.




(** * Further properties of the code *)

(** ** Grid storage *)

Lemma getIndex_decompose c k :
  0 < width c -> 0 < depth c -> 0 <= k < cellCount c ->
  let x := k mod width c in
  let z := (k / width c) mod depth c in
  let y := k / (width c * depth c) in
  inBounds c x y z = true /\ getIndex c x y z = k.
Proof.
  intros Hw Hd Hk. cbv zeta. unfold cellCount, getIndex in *.
  set (w := width c) in *. set (d := depth c) in *. set (h := height c) in *.
  assert (Hwd : 0 < w * d) by (apply Z.mul_pos_pos; lia).
  assert (Hx : 0 <= k mod w < w) by (apply Z.mod_pos_bound; lia).
  assert (Hz : 0 <= (k / w) mod d < d) by (apply Z.mod_pos_bound; lia).
  assert (Hy0 : 0 <= k / (w * d)) by (apply Z.div_pos; lia).
  assert (Hy1 : k / (w * d) < h).
  { apply Z.div_lt_upper_bound; [lia|].
    replace (w * d * h) with (w * h * d) by ring. lia. }
  split; [apply inBounds_spec; lia|].
  rewrite <- (Z.div_div k w d) by lia.
  pose proof (Z.div_mod k w ltac:(lia)) as E1.
  pose proof (Z.div_mod (k / w) d ltac:(lia)) as E2.
  set (q := k / w) in *. set (y := q / d) in *.
  rewrite <- Z.mul_assoc. rewrite (Z.mul_comm w d).
  replace (y * (d * w) + q mod d * w + k mod w)
    with (w * (d * y + q mod d) + k mod w) by ring.
  rewrite <- E2. lia.
Qed.

(** X1. [getIndex] numbers the in-bounds cells of a grid one-to-one onto
    the indices [0 .. cellCount - 1] of the byte array: the index of an
    in-bounds cell is in range, two in-bounds cells with the same index are
    the same cell, and every index in range is the index of an in-bounds
    cell. *)
Theorem getIndex_bijection (c : VoxelChunk) :
  0 < width c -> 0 < depth c ->
  (forall x y z, inBounds c x y z = true -> 0 <= getIndex c x y z < cellCount c)
  /\ (forall x y z x' y' z',
        inBounds c x y z = true -> inBounds c x' y' z' = true ->
        getIndex c x y z = getIndex c x' y' z' -> (x, y, z) = (x', y', z'))
  /\ (forall k, 0 <= k < cellCount c ->
        exists x y z, inBounds c x y z = true /\ getIndex c x y z = k).
Proof.
  intros Hw Hd. split; [apply getIndex_range|]. split.
  - intros x y z x' y' z' H1 H2 E.
    by destruct (getIndex_inj c x y z x' y' z' H1 H2 E) as (-> & -> & ->).
  - intros k Hk. destruct (getIndex_decompose c k Hw Hd Hk) as [Hin E].
    eauto.
Qed.

Lemma getIndex_bijection_witness :
  let c := newChunk 16 12 16 in
  (forall x y z, inBounds c x y z = true -> 0 <= getIndex c x y z < cellCount c)
  /\ (forall x y z x' y' z',
        inBounds c x y z = true -> inBounds c x' y' z' = true ->
        getIndex c x y z = getIndex c x' y' z' -> (x, y, z) = (x', y', z'))
  /\ (forall k, 0 <= k < cellCount c ->
        exists x y z, inBounds c x y z = true /\ getIndex c x y z = k).
Proof.
  apply (getIndex_bijection (newChunk 16 12 16)); reflexivity.
Defined.

(** X2. [setBlock] touches one cell: every other cell reads as before, the
    dimensions stay, and a well-formed grid stays well formed. *)
Theorem setBlock_frame (c : VoxelChunk) (x y z v x' y' z' : Z) :
  (x', y', z') <> (x, y, z) ->
  getBlock (setBlock c x y z v) x' y' z' = getBlock c x' y' z'
  /\ width (setBlock c x y z v) = width c
  /\ height (setBlock c x y z v) = height c
  /\ depth (setBlock c x y z v) = depth c
  /\ (wf_chunk c -> wf_chunk (setBlock c x y z v)).
Proof.
  intros Hne. split; [by apply getBlock_setBlock_ne|].
  destruct (setBlock_dims c x y z v) as (Hw & Hh & Hd).
  repeat (split; [done|]). apply setBlock_wf.
Qed.

Lemma setBlock_frame_witness :
  let c := setBlock (newChunk 4 4 4) 1 2 3 Block.SAND in
  getBlock (setBlock c 3 2 1 Block.WOOD) 1 2 3 = getBlock c 1 2 3
  /\ width (setBlock c 3 2 1 Block.WOOD) = width c
  /\ height (setBlock c 3 2 1 Block.WOOD) = height c
  /\ depth (setBlock c 3 2 1 Block.WOOD) = depth c
  /\ (wf_chunk c -> wf_chunk (setBlock c 3 2 1 Block.WOOD)).
Proof.
  apply (setBlock_frame (setBlock (newChunk 4 4 4) 1 2 3 Block.SAND)
           3 2 1 Block.WOOD 1 2 3).
  discriminate.
Defined.

Lemma u8_set_set d i v w : u8_set (u8_set d i v) i w = u8_set d i w.
Proof.
  unfold u8_set. destruct (0 <=? i); [|done]. apply list_insert_insert_eq.
Qed.

(** X3. Writes overwrite and wrap.  A second [setBlock] on a cell makes the
    first one invisible; what is read back after writing any number [v] is
    [v] modulo 256, as a [Uint8Array] stores it; and writing the value a
    cell already holds leaves the grid as it is. *)
Theorem setBlock_overwrite (c : VoxelChunk) (x y z v w : Z) :
  setBlock (setBlock c x y z v) x y z w = setBlock c x y z w
  /\ (wf_chunk c -> inBounds c x y z = true ->
        getBlock (setBlock c x y z v) x y z = Some (v mod 256))
  /\ (wf_chunk c -> getBlock c x y z = Some v -> setBlock c x y z v = c).
Proof.
  split; [|split].
  - unfold setBlock at 1. rewrite setBlock_inBounds.
    destruct (inBounds c x y z) eqn:Hin; cbn [negb].
    + unfold setBlock. rewrite Hin. cbn [negb width height depth data].
      unfold getIndex. cbn [width height depth]. by rewrite u8_set_set.
    + by rewrite !setBlock_oob.
  - intros Hwf Hin. by apply getBlock_setBlock_eq.
  - intros Hwf Hget. destruct (inBounds c x y z) eqn:Hin;
      [|by apply setBlock_oob].
    destruct (getBlock_in_bounds c x y z Hwf Hin) as (b & Hb & Hbyte).
    rewrite Hget in Hb. injection Hb as ->.
    unfold getBlock in Hget. rewrite Hin in Hget. cbn [negb] in Hget.
    unfold setBlock. rewrite Hin. cbn [negb]. unfold u8_set, u8_get in *.
    destruct (0 <=? getIndex c x y z); [|by destruct c].
    rewrite to_uint8_id by done. rewrite list_insert_id by done.
    by destruct c.
Qed.

Lemma setBlock_overwrite_witness :
  getBlock (setBlock (newChunk 2 2 2) 1 1 0 259) 1 1 0 = Some (259 mod 256).
Proof.
  apply (proj1 (proj2 (setBlock_overwrite (newChunk 2 2 2) 1 1 0 259 0))).
  - split; [reflexivity|]. vm_compute. repeat constructor; discriminate.
  - reflexivity.
Defined.

(** ** Coordinate mapper *)

Lemma roundTrips_64 : roundTripsUpTo 64 = true.
Proof. by vm_compute. Qed.

Lemma roundTripsUpTo_spec (n : Z) :
  roundTripsUpTo n = true ->
  (forall w x, w <= n -> 0 <= x < w -> horizontalRoundTrip w x = true)
  /\ (forall snapY y, 0 <= y < n -> verticalRoundTrip snapY y = true).
Proof.
  unfold roundTripsUpTo. intros H. apply andb_prop in H as [Hh Hv].
  rewrite forallb_forall in Hh. rewrite forallb_forall in Hv. split.
  - intros w x Hw Hx.
    assert (Hrow : forallb (horizontalRoundTrip w) (seqZ 0 w) = true).
    { apply Hh. apply list_elem_of_In, elem_of_seqZ. lia. }
    rewrite forallb_forall in Hrow. apply Hrow.
    apply list_elem_of_In, elem_of_seqZ. lia.
  - intros snapY y Hy.
    assert (Hboth : verticalRoundTrip true y && verticalRoundTrip false y
                    = true).
    { apply Hv. apply list_elem_of_In, elem_of_seqZ. lia. }
    apply andb_prop in Hboth as [H1 H2]. by destruct snapY.
Qed.

Lemma horizontalRoundTrip_64 w x :
  w <= 64 -> 0 <= x < w ->
  Math_floor
    (((of_Z x + 0.5) * VOXEL_SIZE - of_Z w * VOXEL_SIZE / 2
      + of_Z w * VOXEL_SIZE / 2) / VOXEL_SIZE)
  = Some x.
Proof.
  intros Hw Hx.
  pose proof (proj1 (roundTripsUpTo_spec 64 roundTrips_64) w x Hw Hx) as E.
  unfold horizontalRoundTrip in E. cbv zeta in E. revert E.
  destruct (Math_floor _) as [k|]; [|done].
  intros E. apply Z.eqb_eq in E. by subst.
Qed.

Lemma verticalRoundTrip_64 (snapY : bool) (y : Z) :
  0 <= y < 64 ->
  Math_floor
    ((if snapY then of_Z y * VOXEL_SIZE / VOXEL_SIZE
      else of_Z y * VOXEL_SIZE) + 0.5)
  = Some y.
Proof.
  intros Hy.
  pose proof (proj2 (roundTripsUpTo_spec 64 roundTrips_64) snapY y Hy) as E.
  unfold verticalRoundTrip in E. cbv zeta in E. revert E.
  destruct (Math_floor _) as [k|]; [|done].
  intros E. apply Z.eqb_eq in E. by subst.
Qed.

(** X4. [worldPointToCell] undoes [cellToWorld]: on a grid of at most 64
    cells a side (the program's measures 16 x 12 x 16) the world position of
    an in-bounds cell resolves to that cell, under either snapping policy.
    The positions are half-integers of small magnitude, on which the
    binary64 operations of both functions are exact. *)
Theorem worldPointToCell_cellToWorld (c : VoxelChunk) (x y z : Z)
    (snapY : bool) :
  width c <= 64 -> height c <= 64 -> depth c <= 64 ->
  inBounds c x y z = true ->
  worldPointToCell c (cellToWorld c x y z) snapY = Some (mkCell x y z).
Proof.
  intros Hw Hh Hd Hin. pose proof Hin as Hb.
  apply inBounds_spec in Hb as (Hx & Hy & Hz).
  apply worldPointToCell_some_iff. split; [done|].
  unfold cellToWorld, halfWidth, halfDepth. cbn [vx vy vz cell_x cell_y cell_z].
  split; [by apply horizontalRoundTrip_64|].
  split; [apply verticalRoundTrip_64; lia|].
  by apply horizontalRoundTrip_64.
Qed.

Lemma worldPointToCell_cellToWorld_witness :
  worldPointToCell (newChunk 16 12 16)
    (cellToWorld (newChunk 16 12 16) 3 11 15) false
  = Some (mkCell 3 11 15).
Proof.
  apply (worldPointToCell_cellToWorld (newChunk 16 12 16) 3 11 15 false).
  - by vm_compute.
  - by vm_compute.
  - by vm_compute.
  - reflexivity.
Defined.

(** The bound on the grid is needed in binary64: integers above 2^53 are
    not all representable, so on a grid 2^54 cells wide the cell 2^53 + 1
    gets the position of cell 2^53 and resolves to that one. *)
Example worldPointToCell_cellToWorld_wide_grid :
  let c := mkChunk (2 ^ 54) 1 1 [] in
  inBounds c (2 ^ 53 + 1) 0 0 = true
  /\ worldPointToCell c (cellToWorld c (2 ^ 53 + 1) 0 0) true
     = Some (mkCell (2 ^ 53) 0 0).
Proof. by vm_compute. Qed.

(** ** Persistence codec *)

Lemma list_ind4 {A} (P : list A -> Prop) :
  P [] -> (forall a, P [a]) -> (forall a b, P [a; b]) ->
  (forall a b c, P [a; b; c]) ->
  (forall a b c d l, P l -> P (a :: b :: c :: d :: l)) ->
  forall l, P l.
Proof.
  intros H0 H1 H2 H3 H4.
  assert (H : forall l, P l /\ (forall a, P (a :: l))
                        /\ (forall a b, P (a :: b :: l))
                        /\ (forall a b c, P (a :: b :: c :: l))).
  { induction l as [|x l (IH0 & IH1 & IH2 & IH3)]; [by repeat split|].
    repeat split; auto. }
  intros l. apply H.
Qed.

Lemma b64_index_range c v : b64_index c = Some v -> 0 <= v < 64.
Proof.
  unfold b64_index.
  destruct ((65 <=? c) && (c <=? 90)) eqn:E1;
    [apply andb_true_iff in E1; intros [= <-]; lia|].
  destruct ((97 <=? c) && (c <=? 122)) eqn:E2;
    [apply andb_true_iff in E2; intros [= <-]; lia|].
  destruct ((48 <=? c) && (c <=? 57)) eqn:E3;
    [apply andb_true_iff in E3; intros [= <-]; lia|].
  destruct (c =? 43); [intros [= <-]; lia|].
  destruct (c =? 47); [intros [= <-]; lia|]. done.
Qed.

Lemma b64_sextets_range s : forall sextets,
  b64_sextets s = Some sextets -> Forall (fun v => 0 <= v < 64) sextets.
Proof.
  induction s as [|c s IH]; intros sextets; cbn [b64_sextets].
  - intros [= <-]. constructor.
  - destruct (b64_index c) as [v|] eqn:Hv; [|done].
    destruct (b64_sextets s) as [vs|]; [|done].
    intros [= <-]. constructor; [by eapply b64_index_range | by apply IH].
Qed.

Lemma b64_bytes_are_bytes sextets :
  Forall (fun v => 0 <= v < 64) sextets -> Forall is_byte (b64_bytes sextets).
Proof.
  unfold is_byte.
  induction sextets as [| a | a b | a b c | a b c d l IH] using list_ind4;
    intros Hs; cbn [b64_bytes].
  - apply Forall_nil_2.
  - apply Forall_nil_2.
  - apply Forall_cons in Hs as [Ha Hs]. apply Forall_cons in Hs as [Hb _].
    apply Forall_cons. split; [|apply Forall_nil_2].
    Z.div_mod_to_equations. lia.
  - apply Forall_cons in Hs as [Ha Hs]. apply Forall_cons in Hs as [Hb Hs].
    apply Forall_cons in Hs as [Hc _].
    repeat (apply Forall_cons; split; [Z.div_mod_to_equations; lia|]).
    apply Forall_nil_2.
  - apply Forall_cons in Hs as [Ha Hs]. apply Forall_cons in Hs as [Hb Hs].
    apply Forall_cons in Hs as [Hc Hs]. apply Forall_cons in Hs as [Hd Hs].
    repeat (apply Forall_cons; split; [Z.div_mod_to_equations; lia|]).
    by apply IH.
Qed.

Lemma atob_bytes encoded bytes :
  atob encoded = Some bytes -> Forall is_byte bytes.
Proof.
  unfold atob. cbv zeta. destruct (_ =? 1)%nat; [done|].
  destruct (b64_sextets _) as [sextets|] eqn:Hs; [|done].
  intros [= <-]. by eapply b64_bytes_are_bytes, b64_sextets_range.
Qed.

Lemma decode_loop_all binaryString d :
  Forall is_byte binaryString -> length d = length binaryString ->
  decode_loop binaryString (length d) 0 d = binaryString.
Proof.
  intros Hb Hl. rewrite decode_loop_spec by (done || lia). done.
Qed.

Lemma decodeChunkData_accepts c encoded bytes :
  wf_chunk c -> atob encoded = Some bytes ->
  Z.of_nat (length bytes) = cellCount c ->
  decodeChunkData c encoded
  = (mkChunk (width c) (height c) (depth c) bytes, None)
  /\ wf_chunk (mkChunk (width c) (height c) (depth c) bytes).
Proof.
  intros [Hl Hb] Hatob Hlen. unfold decodeChunkData. rewrite Hatob.
  pose proof (atob_bytes _ _ Hatob) as Hbytes.
  assert (E : length (data c) = length bytes) by lia.
  rewrite <- E, Nat.eqb_refl. cbn [negb].
  rewrite decode_loop_all by done. split; [done|]. by split.
Qed.

(** X5. What [decodeChunkData] does with any text: if [atob] rejects the
    text, its exception passes through and the grid is untouched; if the
    text decodes to exactly as many bytes as the grid has cells, the call
    succeeds and the grid holds exactly those bytes, dimensions unchanged;
    otherwise it throws the length-mismatch error and the grid is
    untouched. *)
Theorem decodeChunkData_outcomes (c : VoxelChunk) (encoded : list Z) :
  wf_chunk c ->
  match atob encoded with
  | None => decodeChunkData c encoded = (c, Some InvalidCharacterError)
  | Some bytes =>
      if Z.of_nat (length bytes) =? cellCount c
      then decodeChunkData c encoded
           = (mkChunk (width c) (height c) (depth c) bytes, None)
           /\ wf_chunk (mkChunk (width c) (height c) (depth c) bytes)
      else decodeChunkData c encoded = (c, Some LengthMismatch)
  end.
Proof.
  intros Hwf.
  destruct (atob encoded) as [bytes|] eqn:Hatob.
  - destruct (Z.of_nat (length bytes) =? cellCount c) eqn:Hlen.
    + apply Z.eqb_eq in Hlen. by apply decodeChunkData_accepts.
    + apply Z.eqb_neq in Hlen. destruct Hwf as [Hl _].
      unfold decodeChunkData. rewrite Hatob.
      replace (length bytes =? length (data c))%nat with false; [done|].
      symmetry. apply Nat.eqb_neq. lia.
  - unfold decodeChunkData. by rewrite Hatob.
Qed.

Lemma decodeChunkData_outcomes_witness :
  decodeChunkData (newChunk 2 1 2) [65; 81; 73; 68; 66; 65; 61; 61]
  = (mkChunk 2 1 2 [1; 2; 3; 4], None)
  /\ wf_chunk (mkChunk 2 1 2 [1; 2; 3; 4]).
Proof.
  apply (decodeChunkData_outcomes (newChunk 2 1 2)
           [65; 81; 73; 68; 66; 65; 61; 61]).
  split; [reflexivity|]. vm_compute. repeat constructor; discriminate.
Defined.

Lemma loadChunkFromStorage_cases c stored :
  wf_chunk c ->
  loadChunkFromStorage c stored = (c, false)
  \/ exists encoded bytes,
       stored = Some encoded /\ atob encoded = Some bytes
       /\ Z.of_nat (length bytes) = cellCount c
       /\ loadChunkFromStorage c stored
          = (mkChunk (width c) (height c) (depth c) bytes, true)
       /\ wf_chunk (mkChunk (width c) (height c) (depth c) bytes).
Proof.
  intros Hwf. unfold loadChunkFromStorage.
  destruct stored as [[|ch encoded]|]; [by left | | by left].
  destruct (atob (ch :: encoded)) as [bytes|] eqn:Hatob.
  - destruct (Z.eq_dec (Z.of_nat (length bytes)) (cellCount c)) as [E | Hne].
    + destruct (decodeChunkData_accepts c _ _ Hwf Hatob E) as [-> Hwf'].
      right. exists (ch :: encoded), bytes. done.
    + left. destruct Hwf as [Hl _]. unfold decodeChunkData. rewrite Hatob.
      replace (length bytes =? length (data c))%nat with false; [done|].
      symmetry. apply Nat.eqb_neq. lia.
  - left. unfold decodeChunkData. by rewrite Hatob.
Qed.

(** X6. [loadChunkFromStorage] never throws and is all-or-nothing: with no
    stored item or an empty one it reports [false]; whenever it reports
    [false] the grid is the grid it was given; and when it reports [true]
    the stored text decoded to exactly the bytes the grid now holds. *)
Theorem loadChunkFromStorage_outcomes (c : VoxelChunk)
    (stored : option (list Z)) :
  wf_chunk c ->
  (stored = None \/ stored = Some [] ->
     loadChunkFromStorage c stored = (c, false))
  /\ ((loadChunkFromStorage c stored).2 = false ->
        (loadChunkFromStorage c stored).1 = c)
  /\ ((loadChunkFromStorage c stored).2 = true ->
        exists encoded,
          stored = Some encoded
          /\ atob encoded = Some (data (loadChunkFromStorage c stored).1)
          /\ width (loadChunkFromStorage c stored).1 = width c
          /\ height (loadChunkFromStorage c stored).1 = height c
          /\ depth (loadChunkFromStorage c stored).1 = depth c
          /\ wf_chunk (loadChunkFromStorage c stored).1).
Proof.
  intros Hwf. split; [by intros [-> | ->]|].
  destruct (loadChunkFromStorage_cases c stored Hwf)
    as [-> | (encoded & bytes & -> & Hatob & _ & -> & Hwf')];
    cbn [fst snd].
  - by split.
  - split; [done|]. intros _. exists encoded.
    cbn [data width height depth]. repeat (split; [done|]). done.
Qed.

Lemma loadChunkFromStorage_outcomes_witness :
  let c := newChunk 2 1 2 in
  (loadChunkFromStorage c (Some [65; 65; 61; 61])).1 = c.
Proof.
  cbv zeta.
  apply (proj1 (proj2 (loadChunkFromStorage_outcomes (newChunk 2 1 2)
                         (Some [65; 65; 61; 61])
                         ltac:(split; [reflexivity|]; vm_compute;
                               repeat constructor; discriminate)))).
  reflexivity.
Defined.

(** ** What one event does *)

Lemma place_commitStep c cl b :
  wf_chunk c -> getCell c cl = Some Block.AIR ->
  commitStep c (mkAction place (Some b) (Some cl)) (setCell c cl b).
Proof.
  intros Hwf Hair. exists cl, (mkAction remove (Some b) (Some cl)).
  split; [done|].
  split; [unfold invertAction; cbn [type blockId cell];
          by rewrite cloneCell_id|].
  split; [done|]. cbn. symmetry. by apply setCell_restore.
Qed.

Lemma remove_commitStep c cl :
  wf_chunk c ->
  commitStep c (mkAction remove (getCell c cl) (Some cl))
    (setCell c cl Block.AIR).
Proof.
  intros Hwf. exists cl, (mkAction place (getCell c cl) (Some cl)).
  split; [done|].
  split; [unfold invertAction; cbn [type blockId cell];
          by rewrite cloneCell_id|].
  split; [done|].
  destruct (getCell_defined c cl Hwf) as (old & Hold & _).
  cbn. rewrite Hold. cbn. symmetry. by apply setCell_restore.
Qed.

Lemma committed_storage s a cl :
  storage (committed s a cl) = storage s.
Proof. unfold committed. by destruct (isRestoring s). Qed.

Lemma StepEffect_left ok s0 s s' :
  sameDocument s0 s -> StepEffect ok s s' -> StepEffect ok s0 s'.
Proof.
  intros (Ec & Es & EU & ER & EI & ET & ESt) H.
  destruct H as [H | a | a rest cl inv | a rest cl | | writes | bt];
    rewrite ?Ec, ?Es, ?EU, ?ER, ?EI, ?ET, ?ESt in *.
  - apply Eff_none. destruct H as (? & ? & ? & ? & ? & ? & ?).
    repeat split; congruence.
  - by eapply Eff_commit.
  - by eapply Eff_undo.
  - by eapply Eff_redo.
  - by apply Eff_save.
  - by eapply Eff_reset.
  - by eapply Eff_select.
Qed.

Lemma StepEffect_right ok s s' s'' :
  StepEffect ok s s' -> sameDocument s' s'' -> StepEffect ok s s''.
Proof.
  intros H (Ec & Es & EU & ER & EI & ET & ESt).
  destruct H as [H | a | a rest cl inv | a rest cl | | writes | bt].
  - apply Eff_none. destruct H as (? & ? & ? & ? & ? & ? & ?).
    repeat split; congruence.
  - eapply Eff_commit; rewrite ?Ec, ?Es, ?EU, ?ER, ?ET, ?ESt; eauto.
  - eapply Eff_undo; rewrite ?Ec, ?Es, ?EU, ?ER, ?ET, ?ESt; eauto.
  - eapply Eff_redo; rewrite ?Ec, ?Es, ?EU, ?ER, ?ET, ?ESt; eauto.
  - apply Eff_save; rewrite ?Ec, ?Es, ?EU, ?ER, ?ET, ?ESt; eauto.
  - eapply Eff_reset; rewrite ?Ec, ?Es, ?EU, ?ER, ?ET, ?ESt; eauto.
  - eapply Eff_select; rewrite ?Ec, ?Es, ?EU, ?ER, ?ET, ?ESt; eauto.
Qed.

Lemma sameDocument_with_pointerState s p :
  sameDocument s (with_pointerState s p).
Proof. by repeat split. Qed.

Lemma attemptPlace_effect ok s ocl hits :
  wf_chunk (chunk s) -> isRestoring s = false ->
  StepEffect ok s (attemptPlace s ocl hits).
Proof.
  intros Hwf Hr. destruct ocl as [cl|];
    [|apply Eff_none, sameDocument_refl].
  destruct (attemptPlace_cases s cl hits)
    as [-> | (bt & p & r & Hbt & Hid & Hair & -> & _)];
    [apply Eff_none, sameDocument_refl|].
  destruct (committed_fields s (mkAction place (Some (id bt)) (Some cl)) cl)
    as (Fc & FU & FR & _ & Fs & _ & Ft & _).
  rewrite Hr in FU, FR.
  eapply (Eff_commit _ _ _ (mkAction place (Some (id bt)) (Some cl)));
    cbn [with_hover chunk undoStack redoStack selectedBlockId saveTimer
         storage]; rewrite ?committed_storage; try done.
  - rewrite Fc. by apply place_commitStep.
  - intros _. cbn. by rewrite (blockTypeById_id _ _ Hbt).
Qed.

Lemma attemptRemove_effect ok s ocl hits :
  wf_chunk (chunk s) -> isRestoring s = false ->
  StepEffect ok s (attemptRemove s ocl hits).
Proof.
  intros Hwf Hr. destruct ocl as [cl|];
    [|apply Eff_none, sameDocument_refl].
  destruct (attemptRemove_cases s cl hits)
    as [-> | (p & r & Hne & -> & _)];
    [apply Eff_none, sameDocument_refl|].
  destruct (committed_fields s
              (mkAction remove (getCell (chunk s) cl) (Some cl)) cl)
    as (Fc & FU & FR & _ & Fs & _ & Ft & _).
  rewrite Hr in FU, FR.
  eapply (Eff_commit _ _ _ (mkAction remove (getCell (chunk s) cl) (Some cl)));
    cbn [with_hover chunk undoStack redoStack selectedBlockId saveTimer
         storage]; rewrite ?committed_storage; try done.
  rewrite Fc. by apply remove_commitStep.
Qed.

Lemma encodeChunkData_wf c :
  wf_chunk c -> encodeChunkData c = Some (b64_encode (data c)).
Proof.
  intros [_ Hb]. unfold encodeChunkData.
  rewrite fromCharCode_bytes by done. by apply btoa_bytes.
Qed.

Lemma flushSave_effect s ok :
  wf_chunk (chunk s) -> StepEffect ok s (flushSave s ok).
Proof.
  intros Hwf. unfold flushSave. cbv zeta.
  cbn [with_saveTimer chunk]. rewrite (encodeChunkData_wf _ Hwf).
  apply Eff_save; destruct ok; try done;
    cbn; by rewrite (encodeChunkData_wf _ Hwf).
Qed.

Lemma step_effect s e :
  invariant s -> StepEffect (writeSucceeds e) s (step s e).
Proof.
  intros Hs. pose proof Hs as (Hwf & Hr & HU & HR & _ & _).
  destruct e as [event hits | event hits | event hits | event | | hits
                | ok | | | writes ok | b]; cbn [step].
  - apply Eff_none, handlePointerMove_same.
  - apply Eff_none, handlePointerDown_same.
  - unfold handlePointerUp. destruct (negb _);
      [apply Eff_none, sameDocument_refl|]. cbv zeta.
    destruct (_ && _); [|apply Eff_none, sameDocument_with_pointerState].
    eapply StepEffect_left; [apply sameDocument_with_pointerState|].
    by apply attemptPlace_effect.
  - apply Eff_none, handlePointerCancel_same.
  - apply Eff_none, handlePointerLeave_same.
  - destruct (timer (pointerState s)) as [[|]|];
      try apply Eff_none, sameDocument_refl.
    unfold longPressTimeout. cbv zeta.
    eapply StepEffect_right; [|apply sameDocument_with_pointerState].
    eapply StepEffect_left; [apply sameDocument_with_pointerState|].
    by apply attemptRemove_effect.
  - destruct (saveTimer s) as [[|]|] eqn:Ht;
      try apply Eff_none, sameDocument_refl.
    unfold saveTimeout, flushSave. cbv zeta.
    cbn [with_saveTimer chunk writeSucceeds].
    rewrite (encodeChunkData_wf _ Hwf).
    apply Eff_save; destruct ok; try done;
      cbn; by rewrite (encodeChunkData_wf _ Hwf).
  - unfold undo. destruct (undoStack s) as [|a U] eqn:EU;
      [apply Eff_none, sameDocument_refl|].
    apply Forall_cons in HU as [(cl & Hcell & Hin) _]. cbv zeta.
    destruct (invertAction (Some a)) as [inv|] eqn:Hinv;
      [|unfold invertAction in Hinv; by destruct (type a)].
    assert (Hc : cell inv = Some cl).
    { unfold invertAction in Hinv. destruct (type a); injection Hinv as <-;
        cbn [cell]; by rewrite cloneCell_id. }
    rewrite (applyAction_in_bounds _ inv cl) by done.
    eapply (Eff_undo _ _ _ a U cl inv); try done.
    cbn. by rewrite stored_action_id.
  - unfold redo. destruct (redoStack s) as [|a R] eqn:ER;
      [apply Eff_none, sameDocument_refl|].
    apply Forall_cons in HR as [(cl & Hcell & Hin) _]. cbv zeta.
    rewrite (applyAction_in_bounds _ a cl) by done.
    eapply (Eff_redo _ _ _ a R cl); try done.
    cbn. by rewrite stored_action_id.
  - unfold resetChunkState. cbv zeta.
    destruct (fillData_wf (chunk s) Block.AIR Hwf) as [Hwf1 _].
    destruct (fillDefaultTerrain_wf writes _ Hwf1) as [Hwf2 _].
    unfold flushSave. cbv zeta.
    cbn [with_saveTimer clearHistory with_stacks with_chunk chunk].
    rewrite (encodeChunkData_wf _ Hwf2). cbn [writeSucceeds].
    eapply (Eff_reset _ _ _ writes); destruct ok; try done;
      cbn; by rewrite (encodeChunkData_wf _ Hwf2).
  - unfold setSelectedBlock.
    destruct (blockTypeById b) as [bt|] eqn:Hbt;
      [|apply Eff_none, sameDocument_refl].
    destruct (id bt =? Block.AIR) eqn:Hid;
      [apply Eff_none, sameDocument_refl|].
    apply Z.eqb_neq in Hid.
    eapply (Eff_select _ _ _ bt); try done.
    cbn. by rewrite (blockTypeById_id _ _ Hbt).
Qed.

Lemma reachable_effect_ind (P : State -> Prop) :
  (forall stored writes ok, P (startup stored writes ok)) ->
  (forall s e, reachable s -> invariant s -> P s ->
               StepEffect (writeSucceeds e) s (step s e) -> P (step s e)) ->
  forall s, reachable s -> P s.
Proof.
  intros H0 Hstep. induction 1 as [stored writes ok | s e Hreach IH]; [done|].
  pose proof (reachable_invariant s Hreach) as Hinv.
  apply Hstep; try done. by apply step_effect.
Qed.

Lemma fillDefaultTerrain_dims writes c :
  width (fillDefaultTerrain c writes) = width c
  /\ height (fillDefaultTerrain c writes) = height c
  /\ depth (fillDefaultTerrain c writes) = depth c.
Proof.
  unfold fillDefaultTerrain. revert c.
  induction writes as [|w writes IH]; intros c; [done|].
  cbn [fold_left]. destruct (IH (setCell c w.1 w.2)) as (-> & -> & ->).
  apply setBlock_dims.
Qed.

Lemma commitStep_same_dims c a c' :
  commitStep c a c' ->
  width c' = width c /\ height c' = height c /\ depth c' = depth c.
Proof. intros (cl & inv & _ & _ & -> & _). apply setBlock_dims. Qed.

Lemma StepEffect_dims ok s s' :
  StepEffect ok s s' ->
  width (chunk s') = width (chunk s) /\ height (chunk s') = height (chunk s)
  /\ depth (chunk s') = depth (chunk s).
Proof.
  intros [H | a Hc | a rest cl inv _ _ _ Hc | a rest cl _ _ Hc
         | Hc | writes Hc | bt Hc].
  - destruct H as (-> & _). done.
  - by apply (commitStep_same_dims _ a).
  - rewrite Hc. apply setBlock_dims.
  - rewrite Hc. apply setBlock_dims.
  - by rewrite Hc.
  - rewrite Hc.
    by destruct (fillDefaultTerrain_dims writes (fillData (chunk s) Block.AIR))
      as (-> & -> & ->).
  - by rewrite Hc.
Qed.

Lemma startup_fields stored writes ok :
  let s := startup stored writes ok in
  selectedBlockId s = defaultBlockId /\ undoStack s = [] /\ redoStack s = []
  /\ saveTimer s = None.
Proof.
  cbv zeta. unfold startup. cbv zeta.
  destruct (loadChunkFromStorage _ stored) as [c' didLoad].
  destruct didLoad; [done|].
  unfold flushSave. cbv zeta. case_match; by destruct ok.
Qed.

Lemma startup_chunk stored writes ok :
  let c0 := newChunk CHUNK_SIZE CHUNK_HEIGHT CHUNK_SIZE in
  chunk (startup stored writes ok)
  = if (loadChunkFromStorage c0 stored).2
    then (loadChunkFromStorage c0 stored).1
    else fillDefaultTerrain (loadChunkFromStorage c0 stored).1 writes.
Proof.
  cbv zeta. unfold startup. cbv zeta.
  destruct (loadChunkFromStorage _ stored) as [c' didLoad]. cbn [fst snd].
  destruct didLoad; [done|].
  by rewrite (proj1 (flushSave_fields _ ok)).
Qed.

Lemma reachable_dims s :
  reachable s ->
  width (chunk s) = CHUNK_SIZE /\ height (chunk s) = CHUNK_HEIGHT
  /\ depth (chunk s) = CHUNK_SIZE.
Proof.
  revert s. apply reachable_effect_ind.
  - intros stored writes ok. rewrite startup_chunk. cbv zeta.
    assert (Hwf0 : wf_chunk (newChunk CHUNK_SIZE CHUNK_HEIGHT CHUNK_SIZE))
      by (by apply newChunk_wf).
    destruct (loadChunkFromStorage_cases _ stored Hwf0)
      as [-> | (encoded & bytes & _ & _ & _ & -> & _)]; cbn [fst snd].
    + destruct (fillDefaultTerrain_dims writes
                  (newChunk CHUNK_SIZE CHUNK_HEIGHT CHUNK_SIZE))
        as (-> & -> & ->). done.
    + done.
  - intros s0 e _ _ (Hw & Hh & Hd) Heff.
    destruct (StepEffect_dims _ _ _ Heff) as (-> & -> & ->). done.
Qed.

Lemma reachable_data_length s :
  reachable s -> length (data (chunk s)) = 3072%nat.
Proof.
  intros Hreach. destruct (reachable_dims s Hreach) as (Hw & Hh & Hd).
  destruct (reachable_invariant s Hreach) as ([Hl Hb] & _).
  unfold cellCount in Hl. rewrite Hw, Hh, Hd in Hl.
  unfold CHUNK_SIZE, CHUNK_HEIGHT in Hl. lia.
Qed.

(** X7. The grid is never resized: in every reachable state it measures
    16 x 12 x 16 and its byte array holds exactly 3072 bytes. *)
Theorem reachable_grid_shape (s : State) :
  reachable s ->
  width (chunk s) = CHUNK_SIZE /\ height (chunk s) = CHUNK_HEIGHT
  /\ depth (chunk s) = CHUNK_SIZE
  /\ length (data (chunk s)) = 3072%nat
  /\ Forall is_byte (data (chunk s)).
Proof.
  intros Hreach.
  destruct (reachable_dims s Hreach) as (Hw & Hh & Hd).
  repeat (split; [done|]). split; [by apply reachable_data_length|].
  by destruct (reachable_invariant s Hreach) as ([_ Hb] & _).
Qed.

Lemma reachable_grid_shape_witness :
  let s := step (startup None [] true) (ClickReset [(mkCell 1 2 3, Block.WOOD)] true) in
  width (chunk s) = CHUNK_SIZE /\ height (chunk s) = CHUNK_HEIGHT
  /\ depth (chunk s) = CHUNK_SIZE
  /\ length (data (chunk s)) = 3072%nat
  /\ Forall is_byte (data (chunk s)).
Proof.
  cbv zeta. apply reachable_grid_shape.
  apply reachable_step, reachable_startup.
Defined.

Lemma reachable_selection s :
  reachable s ->
  exists bt, blockTypeById (selectedBlockId s) = Some bt
             /\ id bt <> Block.AIR.
Proof.
  revert s. apply reachable_effect_ind.
  - intros stored writes ok.
    rewrite (proj1 (startup_fields stored writes ok)).
    eexists. split; [reflexivity | done].
  - intros s e _ _ IH Heff.
    destruct Heff as [H | a _ _ _ _ Es | a rest cl inv _ _ _ _ _ _ Es
                     | a rest cl _ _ _ _ _ Es | _ _ _ Es | writes _ _ _ Es
                     | bt _ _ _ _ _ Hbt Hid];
      rewrite ?Es; try done.
    + destruct H as (_ & -> & _). done.
    + by exists bt.
Qed.

Lemma attemptPlace_commits s cl hits bt :
  blockTypeById (selectedBlockId s) = Some bt -> id bt <> Block.AIR ->
  getCell (chunk s) cl = Some Block.AIR ->
  exists p r,
    attemptPlace s (Some cl) hits
    = with_hover (committed s (mkAction place (Some (id bt)) (Some cl)) cl)
        p r.
Proof.
  intros Hbt Hid Hair. unfold attemptPlace. rewrite Hbt.
  apply Z.eqb_neq in Hid. rewrite Hid.
  apply num_eqb_true in Hair. rewrite Hair. cbv zeta. cbn [negb].
  match goal with
  | |- context [updateHoverFromPointer ?t hits] =>
      destruct (updateHoverFromPointer_shape t hits) as (p & r & E & _)
  end.
  exists p, r. rewrite E. unfold committed. cbn. by destruct (isRestoring s).
Qed.

Lemma attemptRemove_commits s cl hits :
  getCell (chunk s) cl <> Some Block.AIR ->
  exists p r,
    attemptRemove s (Some cl) hits
    = with_hover
        (committed s (mkAction remove (getCell (chunk s) cl) (Some cl)) cl)
        p r.
Proof.
  intros Hne. unfold attemptRemove. cbv zeta.
  apply num_eqb_false in Hne. rewrite Hne.
  match goal with
  | |- context [updateHoverFromPointer ?t hits] =>
      destruct (updateHoverFromPointer_shape t hits) as (p & r & E & _)
  end.
  exists p, r. rewrite E. unfold committed. cbn. by destruct (isRestoring s).
Qed.

Lemma cell_neq_coords (x cl : Cell) :
  x <> cl ->
  (cell_x x, cell_y x, cell_z x) <> (cell_x cl, cell_y cl, cell_z cl).
Proof.
  intros Hne [= Ex Ey Ez]. apply Hne. destruct x, cl. cbn in *. congruence.
Qed.

Lemma reachable_selection_range s :
  reachable s -> 1 <= selectedBlockId s <= 5.
Proof.
  intros Hreach.
  destruct (reachable_selection s Hreach) as (bt & Hbt & Hid).
  pose proof (blockTypeById_id _ _ Hbt) as Eid. rewrite <- Eid in *.
  unfold blockTypeById in Hbt. apply find_some in Hbt as [Hmem _].
  cbn in Hmem.
  repeat (destruct Hmem as [<- | Hmem];
    [cbn in *; unfold Block.AIR, Block.GRASS, Block.SAND, Block.STONE,
       Block.WATER, Block.WOOD in *; lia|]).
  done.
Qed.

(** X8. In every reachable state the selected block is one of the five
    placeable blocks, so a place on an empty in-bounds cell always goes
    through: the cell then holds the selected block, no other cell changes,
    the action is on top of the undo stack, the redo stack is empty and a
    save is scheduled. *)
Theorem attemptPlace_succeeds (s : State) (cl : Cell) (hits : list Hit) :
  reachable s -> cellInBounds (chunk s) cl = true ->
  getCell (chunk s) cl = Some Block.AIR ->
  let s' := attemptPlace s (Some cl) hits in
  1 <= selectedBlockId s <= 5
  /\ getCell (chunk s') cl = Some (selectedBlockId s)
  /\ (forall x, x <> cl -> getCell (chunk s') x = getCell (chunk s) x)
  /\ undoStack s'
     = mkAction place (Some (selectedBlockId s)) (Some cl) :: undoStack s
  /\ redoStack s' = [] /\ saveTimer s' = Some Armed.
Proof.
  intros Hreach Hin Hair. cbv zeta.
  destruct (reachable_invariant s Hreach) as (Hwf & Hr & _).
  destruct (reachable_selection s Hreach) as (bt & Hbt & Hid).
  pose proof (blockTypeById_id _ _ Hbt) as Eid.
  pose proof (reachable_selection_range s Hreach) as Hsel.
  split; [done|].
  destruct (attemptPlace_commits s cl hits bt Hbt Hid Hair) as (p & r & ->).
  destruct (committed_fields s (mkAction place (Some (id bt)) (Some cl)) cl)
    as (Fc & FU & FR & _ & _ & _ & Ft & _).
  rewrite Hr in FU, FR. cbn [with_hover chunk undoStack redoStack saveTimer].
  rewrite Fc, FU, FR, Ft.
  change (actionValue (mkAction place (Some (id bt)) (Some cl))) with (id bt).
  rewrite Eid. split; [|split; [|done]].
  - unfold getCell, setCell. rewrite getBlock_setBlock_eq by done.
    rewrite to_uint8_id; [done|]. unfold is_byte. lia.
  - intros x Hx. unfold getCell, setCell. apply getBlock_setBlock_ne.
    by apply cell_neq_coords.
Qed.

Lemma attemptPlace_succeeds_witness :
  let s := startup None [(mkCell 8 0 8, Block.STONE)] true in
  let s' := attemptPlace s (Some (mkCell 8 1 8)) [] in
  1 <= selectedBlockId s <= 5
  /\ getCell (chunk s') (mkCell 8 1 8) = Some (selectedBlockId s)
  /\ (forall x, x <> mkCell 8 1 8 ->
        getCell (chunk s') x = getCell (chunk s) x)
  /\ undoStack s'
     = mkAction place (Some (selectedBlockId s)) (Some (mkCell 8 1 8))
       :: undoStack s
  /\ redoStack s' = [] /\ saveTimer s' = Some Armed.
Proof.
  apply (attemptPlace_succeeds (startup None [(mkCell 8 0 8, Block.STONE)] true)
           (mkCell 8 1 8) []).
  - apply reachable_startup.
  - reflexivity.
  - reflexivity.
Defined.

(** X9. In every reachable state a remove on a cell that holds a block
    always goes through: the cell is empty afterwards, no other cell
    changes, the action on top of the undo stack remembers which block was
    there, the redo stack is empty and a save is scheduled. *)
Theorem attemptRemove_succeeds (s : State) (cl : Cell) (hits : list Hit)
    (b : Z) :
  reachable s -> getCell (chunk s) cl = Some b -> b <> Block.AIR ->
  let s' := attemptRemove s (Some cl) hits in
  cellInBounds (chunk s) cl = true
  /\ getCell (chunk s') cl = Some Block.AIR
  /\ (forall x, x <> cl -> getCell (chunk s') x = getCell (chunk s) x)
  /\ undoStack s' = mkAction remove (Some b) (Some cl) :: undoStack s
  /\ redoStack s' = [] /\ saveTimer s' = Some Armed.
Proof.
  intros Hreach Hget Hb. cbv zeta.
  destruct (reachable_invariant s Hreach) as (Hwf & Hr & _).
  assert (Hin : cellInBounds (chunk s) cl = true).
  { destruct (cellInBounds (chunk s) cl) eqn:Hin; [done|].
    unfold getCell in Hget. rewrite getBlock_oob in Hget by done.
    by injection Hget as <-. }
  split; [done|].
  assert (Hne : getCell (chunk s) cl <> Some Block.AIR)
    by (rewrite Hget; by intros [= ->]).
  destruct (attemptRemove_commits s cl hits Hne) as (p & r & ->).
  destruct (committed_fields s
              (mkAction remove (getCell (chunk s) cl) (Some cl)) cl)
    as (Fc & FU & FR & _ & _ & _ & Ft & _).
  rewrite Hr in FU, FR. cbn [with_hover chunk undoStack redoStack saveTimer].
  rewrite Fc, FU, FR, Ft, Hget. cbn [actionValue type].
  split; [|split; [|done]].
  - unfold getCell, setCell. by rewrite getBlock_setBlock_eq.
  - intros x Hx. unfold getCell, setCell. apply getBlock_setBlock_ne.
    by apply cell_neq_coords.
Qed.

Lemma attemptRemove_succeeds_witness :
  let s := startup None [(mkCell 8 0 8, Block.STONE)] true in
  let s' := attemptRemove s (Some (mkCell 8 0 8)) [] in
  cellInBounds (chunk s) (mkCell 8 0 8) = true
  /\ getCell (chunk s') (mkCell 8 0 8) = Some Block.AIR
  /\ (forall x, x <> mkCell 8 0 8 ->
        getCell (chunk s') x = getCell (chunk s) x)
  /\ undoStack s'
     = mkAction remove (Some Block.STONE) (Some (mkCell 8 0 8)) :: undoStack s
  /\ redoStack s' = [] /\ saveTimer s' = Some Armed.
Proof.
  apply (attemptRemove_succeeds (startup None [(mkCell 8 0 8, Block.STONE)] true)
           (mkCell 8 0 8) [] Block.STONE).
  - apply reachable_startup.
  - reflexivity.
  - discriminate.
Defined.

(** ** Saving and reloading *)

Lemma reachable_saveTimer s : reachable s -> saveTimer s <> Some Spent.
Proof.
  revert s. apply reachable_effect_ind.
  - intros stored writes ok.
    by rewrite (proj2 (proj2 (proj2 (startup_fields stored writes ok)))).
  - intros s e _ _ Hspent Heff.
    destruct Heff as [H | a _ _ _ _ _ Et | a rest cl inv _ _ _ _ _ _ _ Et
                     | a rest cl _ _ _ _ _ _ Et | _ _ _ _ Et
                     | writes _ _ _ _ Et
                     | bt _ _ _ Et];
      rewrite ?Et; try done.
    destruct H as (_ & _ & _ & _ & _ & Et & _). by rewrite Et.
Qed.

Lemma saving_reachable s : reachableSaving s -> reachable s.
Proof.
  induction 1 as [stored writes | s e _ IH _];
    [apply reachable_startup | by apply reachable_step].
Qed.

Lemma startup_storage_current stored writes :
  storageCurrent (startup stored writes true).
Proof.
  unfold storageCurrent, startup. cbv zeta.
  assert (Hwf0 : wf_chunk (newChunk CHUNK_SIZE CHUNK_HEIGHT CHUNK_SIZE))
    by (by apply newChunk_wf).
  destruct (loadChunkFromStorage_cases _ stored Hwf0)
    as [-> | (enc & bytes & -> & Hatob & _ & -> & _)].
  - destruct (fillDefaultTerrain_wf writes _ Hwf0) as [Hwf1 _].
    unfold flushSave. cbv zeta. cbn [with_saveTimer with_chunk chunk].
    rewrite (encodeChunkData_wf _ Hwf1).
    exists (b64_encode
              (data (fillDefaultTerrain
                       (newChunk CHUNK_SIZE CHUNK_HEIGHT CHUNK_SIZE) writes))).
    split; [done|]. apply atob_b64_encode, Hwf1.
  - by exists enc.
Qed.

Lemma StepEffect_storage_current s s' :
  wf_chunk (chunk s) -> StepEffect true s s' ->
  (saveTimer s = None -> storageCurrent s) ->
  saveTimer s' = None -> storageCurrent s'.
Proof.
  intros Hwf Heff IH. unfold storageCurrent in *.
  destruct Heff as [H | a _ _ _ _ _ Et | a rest cl inv _ _ _ _ _ _ _ Et
                   | a rest cl _ _ _ _ _ _ Et | Ec _ _ _ Et Est
                   | writes Ec _ _ _ Et Est
                   | bt Ec _ _ Et Est _ _];
    rewrite ?Et; try done.
  - destruct H as (Ec & _ & _ & _ & _ & Et & Est).
    by rewrite Ec, Et, Est.
  - intros _. rewrite Est, Ec.
    rewrite (encodeChunkData_wf _ Hwf). eexists. split; [done|].
    apply atob_b64_encode, Hwf.
  - intros _. rewrite Est.
    assert (Hwf' : wf_chunk (chunk s')).
    { rewrite Ec. destruct (fillData_wf (chunk s) Block.AIR Hwf) as [H1 _].
      by destruct (fillDefaultTerrain_wf writes _ H1). }
    rewrite (encodeChunkData_wf _ Hwf'). eexists. split; [done|].
    apply atob_b64_encode, Hwf'.
  - by rewrite Ec, Est.
Qed.

Lemma saving_storage_current s :
  reachableSaving s -> saveTimer s = None -> storageCurrent s.
Proof.
  induction 1 as [stored writes | s e Hs IH He].
  - intros _. apply startup_storage_current.
  - pose proof (reachable_invariant s (saving_reachable s Hs)) as Hinv.
    pose proof (step_effect s e Hinv) as Heff. rewrite He in Heff.
    apply (StepEffect_storage_current s); [by destruct Hinv|done|done].
Qed.

Lemma atob_nil : atob [] = Some [].
Proof. reflexivity. Qed.

Lemma startup_reload s text writes ok :
  reachable s -> atob text = Some (data (chunk s)) ->
  chunk (startup (Some text) writes ok) = chunk s.
Proof.
  intros Hreach Hatob.
  destruct (reachable_dims s Hreach) as (Hw & Hh & Hd).
  pose proof (reachable_data_length s Hreach) as Hlen.
  rewrite startup_chunk. cbv zeta.
  assert (Hwf0 : wf_chunk (newChunk CHUNK_SIZE CHUNK_HEIGHT CHUNK_SIZE))
    by (by apply newChunk_wf).
  assert (Hne : text <> []).
  { intros ->. rewrite atob_nil in Hatob. injection Hatob as E.
    by rewrite <- E in Hlen. }
  unfold loadChunkFromStorage. destruct text as [|ch text]; [done|].
  destruct (decodeChunkData_accepts
              (newChunk CHUNK_SIZE CHUNK_HEIGHT CHUNK_SIZE)
              (ch :: text) _ Hwf0 Hatob) as [-> _];
    [by rewrite Hlen|].
  cbn [fst snd width height depth].
  rewrite <- Hw at 1. rewrite <- Hh, <- Hd. by destruct (chunk s).
Qed.

Lemma flushSave_failed s :
  saveTimer (flushSave s false) = None
  /\ chunk (flushSave s false) = chunk s
  /\ storage (flushSave s false) = storage s.
Proof. unfold flushSave. cbv zeta. by destruct (encodeChunkData _). Qed.

(** X10. Nothing unsaved without a pending save, as long as no write to
    storage fails: in every state reached while every
    [localStorage.setItem] succeeded, if no save timer is pending then the
    stored text decodes to exactly the bytes of the current grid, and a
    start-up from it loads the current grid.  A failing write is how this
    is lost: when the save timer fires in any reachable state and [setItem]
    throws, no save is pending afterwards, the grid is as it was and the
    stored item is still the old one; nothing schedules another attempt. *)
Theorem storage_current_when_idle (s : State) :
  (reachableSaving s -> saveTimer s = None ->
   exists text,
     storage s = Some text /\ atob text = Some (data (chunk s))
     /\ forall writes ok, chunk (startup (storage s) writes ok) = chunk s)
  /\ (reachable s -> saveTimer s = Some Armed ->
      let s' := step s (SaveTimeout false) in
      saveTimer s' = None /\ chunk s' = chunk s /\ storage s' = storage s
      /\ undoStack s' = undoStack s /\ redoStack s' = redoStack s).
Proof.
  split.
  - intros Hs Ht.
    destruct (saving_storage_current s Hs Ht) as (text & Est & Hatob).
    exists text. split; [done|]. split; [done|].
    intros writes ok. rewrite Est. apply startup_reload; [|done].
    by apply saving_reachable.
  - intros _ Ht. cbv zeta. cbn [step]. rewrite Ht. unfold saveTimeout.
    destruct (flushSave_failed s) as (_ & Ec & Est).
    destruct (flushSave_fields s false) as (_ & EU & ER & _).
    cbn [with_saveTimer saveTimer chunk storage undoStack redoStack].
    by rewrite Ec, Est, EU, ER.
Qed.

Lemma storage_current_when_idle_witness :
  let s := step (step (startup None [(mkCell 8 0 8, Block.STONE)] true)
                   (ClickReset [(mkCell 1 0 1, Block.SAND)] true))
             (ClickBlock Block.WATER) in
  exists text,
    storage s = Some text /\ atob text = Some (data (chunk s))
    /\ forall writes ok, chunk (startup (storage s) writes ok) = chunk s.
Proof.
  cbv zeta.
  apply (proj1 (storage_current_when_idle
                  (step (step (startup None [(mkCell 8 0 8, Block.STONE)] true)
                           (ClickReset [(mkCell 1 0 1, Block.SAND)] true))
                     (ClickBlock Block.WATER)))).
  - apply saving_step; [apply saving_step; [apply saving_startup|]|];
      reflexivity.
  - reflexivity.
Defined.

(** X11. Saving and reloading gives the grid back when the write succeeds:
    from any reachable state, [flushSave] (the path taken on page unload, on
    a hidden page and when the save timer fires) leaves no save pending and
    does not touch the grid; if [localStorage.setItem] succeeds it stores a
    text from which a fresh start-up loads exactly the current grid, without
    falling back to the default terrain; if [setItem] throws the stored item
    stays as it was. *)
Theorem flushSave_then_startup (s : State) (writes : list (Cell * Z))
    (ok ok' : bool) :
  reachable s ->
  saveTimer (flushSave s ok) = None
  /\ chunk (flushSave s ok) = chunk s
  /\ (ok = true ->
      storage (flushSave s ok) = encodeChunkData (chunk s)
      /\ chunk (startup (storage (flushSave s ok)) writes ok') = chunk s)
  /\ (ok = false -> storage (flushSave s ok) = storage s).
Proof.
  intros Hreach.
  destruct (reachable_invariant s Hreach) as (Hwf & _).
  destruct ok.
  - unfold flushSave. cbv zeta. cbn [with_saveTimer chunk].
    rewrite (encodeChunkData_wf _ Hwf).
    cbn [with_storage saveTimer chunk storage].
    split; [done|]. split; [done|]. split; [|done]. intros _.
    split; [done|].
    apply startup_reload; [done|]. apply atob_b64_encode, Hwf.
  - destruct (flushSave_failed s) as (Et & Ec & Est).
    split; [done|]. split; [done|]. split; [done|]. done.
Qed.

Lemma flushSave_then_startup_witness :
  let s := step (startup None [(mkCell 8 0 8, Block.STONE)] true)
             (PointerDown (mkPointerEvent 1 0 (0, 0)%float) []) in
  saveTimer (flushSave s true) = None
  /\ chunk (flushSave s true) = chunk s
  /\ (true = true ->
      storage (flushSave s true) = encodeChunkData (chunk s)
      /\ chunk (startup (storage (flushSave s true)) [] false) = chunk s)
  /\ (true = false -> storage (flushSave s true) = storage s).
Proof.
  cbv zeta. apply flushSave_then_startup.
  apply reachable_step, reachable_startup.
Defined.

(** ** History *)

Lemma commitStep_functional c0 a c cl inv :
  commitStep c0 a c -> cell a = Some cl -> invertAction (Some a) = Some inv ->
  c = setCell c0 cl (actionValue a) /\ c0 = setCell c cl (actionValue inv).
Proof.
  intros (cl' & inv' & Hc & Hi & E1 & E0) Hcell Hinv.
  rewrite Hcell in Hc. injection Hc as <-.
  rewrite Hinv in Hi. injection Hi as <-. done.
Qed.

Lemma Past_inv c a stack :
  Past c (a :: stack) -> exists c0, commitStep c0 a c /\ Past c0 stack.
Proof. inversion 1; eauto. Qed.

Lemma Recorded_inv c a acts c2 :
  Recorded c (a :: acts) c2 ->
  exists c1, commitStep c a c1 /\ Recorded c1 acts c2.
Proof. inversion 1; eauto. Qed.

Lemma reachable_history_consistent s :
  reachable s ->
  Past (chunk s) (undoStack s)
  /\ exists c1, Recorded (chunk s) (redoStack s) c1.
Proof.
  revert s. apply reachable_effect_ind.
  - intros stored writes ok.
    destruct (startup_fields stored writes ok) as (_ & -> & -> & _).
    split; [constructor|]. eexists. constructor.
  - intros s e _ _ [Hpast (c1 & Hfut)] Heff.
    destruct Heff as [H | a Hstep _ EU ER | a rest cl inv EU Hcell Hinv Ec EU' ER
                     | a rest cl ER Hcell Ec EU ER'
                     | Ec EU ER | writes _ EU ER
                     | bt Ec EU ER].
    + destruct H as (Ec & _ & EU & ER & _). rewrite Ec, EU, ER. eauto.
    + rewrite EU, ER. split; [by econstructor|]. eexists. constructor.
    + rewrite EU in Hpast.
      destruct (Past_inv _ _ _ Hpast) as (c0 & Hstep & Hpast0).
      destruct (commitStep_functional _ _ _ _ _ Hstep Hcell Hinv) as [E1 E0].
      rewrite Ec, <- E0, EU', ER. split; [done|].
      exists c1. by econstructor.
    + rewrite ER in Hfut.
      destruct (Recorded_inv _ _ _ _ Hfut) as (cm & Hstep & Hfut0).
      destruct Hstep as (cl' & inv & Hc & Hi & E1 & E0).
      assert (cl' = cl) as -> by congruence.
      rewrite Ec, <- E1, EU, ER'. split; [|by exists c1].
      econstructor; [|done]. exists cl, inv. done.
    + rewrite Ec, EU, ER. eauto.
    + rewrite EU, ER. split; [constructor|]. eexists. constructor.
    + rewrite Ec, EU, ER. eauto.
Qed.

(** X12. [redo] exactly reverts [undo], and [undo] exactly reverts [redo]:
    in every reachable state with a non-empty undo stack, [undo] followed by
    [redo] gives back the same grid and the same two stacks; likewise
    [redo] followed by [undo] when the redo stack is not empty. *)
Theorem undo_redo_inverse (s : State) :
  reachable s ->
  (undoStack s <> [] ->
     chunk (redo (undo s)) = chunk s
     /\ undoStack (redo (undo s)) = undoStack s
     /\ redoStack (redo (undo s)) = redoStack s
     /\ length (redoStack (undo s)) = S (length (redoStack s)))
  /\ (redoStack s <> [] ->
        chunk (undo (redo s)) = chunk s
        /\ undoStack (undo (redo s)) = undoStack s
        /\ redoStack (undo (redo s)) = redoStack s
        /\ length (undoStack (redo s)) = S (length (undoStack s))).
Proof.
  intros Hreach.
  destruct (reachable_invariant s Hreach) as (_ & _ & HU & HR & _).
  destruct (reachable_history_consistent s Hreach) as [Hpast (c1 & Hfut)].
  split.
  - destruct (undoStack s) as [|a U] eqn:EU; [done|]. intros _.
    apply Forall_cons in HU as [(cl & Hcell & Hin) _].
    destruct (Past_inv _ _ _ Hpast) as (c0 & Hstep & Hpast0).
    destruct Hstep as (cl' & inv & Hc & Hinv & E1 & E0).
    assert (cl' = cl) as -> by congruence.
    destruct (undo_step s a U cl inv EU Hcell Hinv) as (Ec & EU' & ER').
    rewrite Hin in ER'.
    assert (Hin' : cellInBounds (chunk (undo s)) cl = true).
    { rewrite Ec. by rewrite setCell_cellInBounds. }
    destruct (redo_step (undo s) a (redoStack s) cl ER' Hcell Hin')
      as (Ec2 & ER2 & EU2).
    rewrite Ec2, ER2, EU2, Ec, EU', ER', <- E0, <- E1. done.
  - destruct (redoStack s) as [|a R] eqn:ER; [done|]. intros _.
    apply Forall_cons in HR as [(cl & Hcell & Hin) _].
    destruct (Recorded_inv _ _ _ _ Hfut) as (cm & Hstep & Hfut0).
    destruct Hstep as (cl' & inv & Hc & Hinv & E1 & E0).
    assert (cl' = cl) as -> by congruence.
    destruct (redo_step s a R cl ER Hcell Hin) as (Ec & ER' & EU').
    destruct (undo_step (redo s) a (undoStack s) cl inv EU' Hcell Hinv)
      as (Ec2 & EU2 & ER2).
    rewrite Ec, setCell_cellInBounds, Hin in ER2.
    rewrite Ec2, EU2, ER2, Ec, ER', EU', <- E1, <- E0. done.
Qed.

Lemma undo_redo_inverse_witness :
  let hit := mkHit true (Some (mkNormal 0 1 0))
               (mkVec3 0.5 0.5 0.5) in
  let down := mkPointerEvent 1 0 (0, 0)%float in
  let s := step (step (startup None [(mkCell 8 0 8, Block.STONE)] true)
                   (PointerDown down [hit]))
             (PointerUp down []) in
  chunk (redo (undo s)) = chunk s
  /\ undoStack (redo (undo s)) = undoStack s
  /\ redoStack (redo (undo s)) = redoStack s
  /\ length (redoStack (undo s)) = S (length (redoStack s)).
Proof.
  cbv zeta.
  apply (proj1 (undo_redo_inverse _
                  (reachable_step _ _ (reachable_step _ _
                     (reachable_startup None
                        [(mkCell 8 0 8, Block.STONE)] true))))).
  vm_compute. discriminate.
Defined.

(** ** Picking and gestures *)

Lemma worldPointToCell_dims c c' p snapY :
  width c' = width c -> height c' = height c -> depth c' = depth c ->
  worldPointToCell c' p snapY = worldPointToCell c p snapY.
Proof.
  intros Hw Hh Hd.
  unfold worldPointToCell, halfWidth, halfDepth, inBounds.
  by rewrite Hw, Hh, Hd.
Qed.

(** X13. The removal candidate does not depend on what the grid holds.
    For two states whose grids have the same dimensions (and that both
    have, or both lack, pointer coordinates), the picker offers the same
    removal candidate for the same ray-cast result, whatever the cells
    contain; and a placement candidate offered in one is offered in the
    other as soon as that one cell reads [Block.AIR] there too. *)
Theorem hover_removal_ignores_contents (s s' : State) (hits : list Hit) :
  width (chunk s') = width (chunk s) ->
  height (chunk s') = height (chunk s) ->
  depth (chunk s') = depth (chunk s) ->
  is_some (lastPointerCoords s') = is_some (lastPointerCoords s) ->
  hoverRemoveCell (updateHoverFromPointer s' hits)
  = hoverRemoveCell (updateHoverFromPointer s hits)
  /\ forall x,
       hoverPlaceCell (updateHoverFromPointer s hits) = Some x ->
       getCell (chunk s') x = Some Block.AIR ->
       hoverPlaceCell (updateHoverFromPointer s' hits) = Some x.
Proof.
  intros Hw Hh Hd Hlast. unfold updateHoverFromPointer.
  destruct (lastPointerCoords s) as [xy|], (lastPointerCoords s') as [xy'|];
    try done.
  destruct hits as [|hit rest]; [done|].
  destruct (hitIsBlock hit); [|done].
  destruct (face hit) as [n|]; [|done].
  cbn [with_hover chunk]. unfold pickBlockFace.
  rewrite (worldPointToCell_dims (chunk s) (chunk s')) by done.
  destruct (worldPointToCell (chunk s) _ true) as [hitCell|]; [|done].
  cbv zeta.
  rewrite (cellInBounds_dims (chunk s) (chunk s')) by done.
  destruct (cellInBounds (chunk s) (adjacentCell hitCell n)).
  - destruct (num_eqb (getCell (chunk s) _) Block.AIR),
             (num_eqb (getCell (chunk s') _) Block.AIR) eqn:Hair';
      cbn [with_hover hoverRemoveCell hoverPlaceCell]; split; try done.
    intros x [= <-] Hx. apply num_eqb_true in Hx. congruence.
  - by cbn [with_hover hoverRemoveCell hoverPlaceCell].
Qed.

Lemma hover_removal_ignores_contents_witness :
  let s := with_lastPointerCoords
             (startup None [(mkCell 8 0 8, Block.STONE)] true)
             (Some (0, 0)%float) in
  let s' := with_lastPointerCoords (startup None [] true)
              (Some (1, 1)%float) in
  let hits := [mkHit true (Some (mkNormal 0 1 0)) (mkVec3 0.75 0.5 0.25)] in
  hoverRemoveCell (updateHoverFromPointer s' hits)
  = hoverRemoveCell (updateHoverFromPointer s hits)
  /\ forall x,
       hoverPlaceCell (updateHoverFromPointer s hits) = Some x ->
       getCell (chunk s') x = Some Block.AIR ->
       hoverPlaceCell (updateHoverFromPointer s' hits) = Some x.
Proof.
  apply (hover_removal_ignores_contents
           (with_lastPointerCoords
              (startup None [(mkCell 8 0 8, Block.STONE)] true)
              (Some (0, 0)%float))
           (with_lastPointerCoords (startup None [] true)
              (Some (1, 1)%float))
           [mkHit true (Some (mkNormal 0 1 0)) (mkVec3 0.75 0.5 0.25)]);
    reflexivity.
Defined.

Lemma handlePointerDown_captured s event hits p r :
  tracking s = false -> button event <= 0 ->
  updateHover s event hits
  = with_hover (with_lastPointerCoords s (Some (coords event))) p r ->
  is_some p || is_some r = true ->
  handlePointerDown s event hits
  = with_pointerState
      (with_hover (with_lastPointerCoords s (Some (coords event))) p r)
      (mkPointerState (Some (ev_pointerId event))
         (if is_some r then Some Armed else timer (pointerState s))
         false p r).
Proof.
  intros Hidle Hbutton E Hsome.
  unfold handlePointerDown. unfold tracking in Hidle. rewrite Hidle.
  replace (0 <? button event) with false by lia. cbn [orb].
  rewrite E. cbv zeta. cbn [with_hover hoverPlaceCell hoverRemoveCell].
  rewrite !cloneCell_id.
  destruct p as [p|], r as [r|]; try done.
Qed.

Lemma attemptPlace_commit_fields s cl hits bt :
  wf_chunk (chunk s) -> isRestoring s = false ->
  blockTypeById (selectedBlockId s) = Some bt -> id bt <> Block.AIR ->
  cellInBounds (chunk s) cl = true ->
  getCell (chunk s) cl = Some Block.AIR ->
  let s' := attemptPlace s (Some cl) hits in
  getCell (chunk s') cl = Some (selectedBlockId s)
  /\ (forall x, x <> cl -> getCell (chunk s') x = getCell (chunk s) x)
  /\ undoStack s'
     = mkAction place (Some (selectedBlockId s)) (Some cl) :: undoStack s
  /\ redoStack s' = [] /\ saveTimer s' = Some Armed
  /\ pointerState s' = pointerState s.
Proof.
  intros Hwf Hr Hbt Hid Hin Hair. cbv zeta.
  pose proof (blockTypeById_id _ _ Hbt) as Eid.
  pose proof (blockTypeById_byte _ _ Hbt) as Hbyte.
  destruct (attemptPlace_commits s cl hits bt Hbt Hid Hair) as (p & r & ->).
  destruct (committed_fields s (mkAction place (Some (id bt)) (Some cl)) cl)
    as (Fc & FU & FR & _ & _ & Fp & Ft & _).
  rewrite Hr in FU, FR.
  cbn [with_hover chunk undoStack redoStack saveTimer pointerState].
  rewrite Fc, FU, FR, Ft, Fp.
  change (actionValue (mkAction place (Some (id bt)) (Some cl))) with (id bt).
  rewrite Eid. split; [|split; [|done]].
  - unfold getCell, setCell. rewrite getBlock_setBlock_eq by done.
    by rewrite to_uint8_id.
  - intros x Hx. unfold getCell, setCell. apply getBlock_setBlock_ne.
    by apply cell_neq_coords.
Qed.

(** X14. A tap places a block.  In a reachable state with no pointer
    tracked, if the picker offers a placement candidate for the ray of a
    primary-button pointer-down, then that pointer-down followed by the
    pointer-up of the same pointer puts the selected block into the
    candidate and nothing else: the attempt cannot fail, the controller is
    idle again, the other cells are unchanged, the place action is on top
    of the undo stack and the redo stack is empty. *)
Theorem tap_places_block (s : State) (event up : PointerEvent)
    (hits hits' : list Hit) (target : Cell) :
  reachable s -> tracking s = false -> button event <= 0 ->
  ev_pointerId up = ev_pointerId event ->
  hoverPlaceCell (updateHover s event hits) = Some target ->
  let s1 := step s (PointerDown event hits) in
  let s2 := step s1 (PointerUp up hits') in
  tracking s1 = true /\ tracking s2 = false
  /\ getCell (chunk s2) target = Some (selectedBlockId s)
  /\ (forall x, x <> target -> getCell (chunk s2) x = getCell (chunk s) x)
  /\ undoStack s2
     = mkAction place (Some (selectedBlockId s)) (Some target) :: undoStack s
  /\ redoStack s2 = [].
Proof.
  intros Hreach Hidle Hbutton Hup Hplace. cbv zeta.
  destruct (reachable_invariant s Hreach) as (Hwf & Hr & _).
  destruct (reachable_selection s Hreach) as (bt & Hbt & Hid).
  destruct (updateHover_shape s event hits) as (p & r & E & Hp & _).
  rewrite E in Hplace. cbn [with_hover hoverPlaceCell] in Hplace. subst p.
  destruct (Hp target eq_refl) as [Hin Hair].
  cbn [step].
  rewrite (handlePointerDown_captured s event hits (Some target) r)
    by done.
  split; [done|].
  unfold handlePointerUp.
  cbn [with_pointerState pointerState pointerId sameId longPressFired
       placeCell].
  rewrite Hup, Z.eqb_refl. cbn [negb]. cbv zeta. rewrite cloneCell_id.
  cbn [negb is_some andb].
  match goal with
  | |- context [attemptPlace ?t (Some target) hits'] =>
      set (t0 := t); set (s2 := attemptPlace t0 (Some target) hits')
  end.
  destruct (attemptPlace_commit_fields t0 target hits' bt)
    as (Eg & Eo & EU & ER & _ & Ep); try done.
  cbv zeta in Eg, Eo, EU, ER, Ep. fold s2 in Eg, Eo, EU, ER, Ep.
  clearbody s2. unfold tracking. rewrite Ep, Eg, EU, ER. unfold t0.
  cbn [with_pointerState pointerState]. rewrite clearPointerState_idle.
  split; [done|]. split; [done|]. split; [|done].
  intros x Hx. by rewrite Eo.
Qed.

Lemma tap_places_block_witness :
  let hit := mkHit true (Some (mkNormal 0 1 0)) (mkVec3 0.5 0.5 0.5) in
  let down := mkPointerEvent 1 0 (0, 0)%float in
  let s := startup None [(mkCell 8 0 8, Block.STONE)] true in
  let target := mkCell 8 1 8 in
  let s1 := step s (PointerDown down [hit]) in
  let s2 := step s1 (PointerUp down []) in
  tracking s1 = true /\ tracking s2 = false
  /\ getCell (chunk s2) target = Some (selectedBlockId s)
  /\ (forall x, x <> target -> getCell (chunk s2) x = getCell (chunk s) x)
  /\ undoStack s2
     = mkAction place (Some (selectedBlockId s)) (Some target) :: undoStack s
  /\ redoStack s2 = [].
Proof.
  apply (tap_places_block (startup None [(mkCell 8 0 8, Block.STONE)] true)
           (mkPointerEvent 1 0 (0, 0)%float) (mkPointerEvent 1 0 (0, 0)%float)
           [mkHit true (Some (mkNormal 0 1 0)) (mkVec3 0.5 0.5 0.5)]
           [] (mkCell 8 1 8)).
  - apply reachable_startup.
  - reflexivity.
  - cbn. lia.
  - reflexivity.
  - reflexivity.
Defined.

Lemma attemptRemove_commit_fields s cl hits b :
  wf_chunk (chunk s) -> isRestoring s = false ->
  cellInBounds (chunk s) cl = true ->
  getCell (chunk s) cl = Some b -> b <> Block.AIR ->
  let s' := attemptRemove s (Some cl) hits in
  getCell (chunk s') cl = Some Block.AIR
  /\ (forall x, x <> cl -> getCell (chunk s') x = getCell (chunk s) x)
  /\ undoStack s' = mkAction remove (Some b) (Some cl) :: undoStack s
  /\ redoStack s' = [] /\ saveTimer s' = Some Armed
  /\ pointerState s' = pointerState s.
Proof.
  intros Hwf Hr Hin Hget Hb. cbv zeta.
  assert (Hne : getCell (chunk s) cl <> Some Block.AIR)
    by (rewrite Hget; by intros [= ->]).
  destruct (attemptRemove_commits s cl hits Hne) as (p & r & ->).
  destruct (committed_fields s
              (mkAction remove (getCell (chunk s) cl) (Some cl)) cl)
    as (Fc & FU & FR & _ & _ & Fp & Ft & _).
  rewrite Hr in FU, FR.
  cbn [with_hover chunk undoStack redoStack saveTimer pointerState].
  rewrite Fc, FU, FR, Ft, Fp, Hget. cbn [actionValue type].
  split; [|split; [|done]].
  - unfold getCell, setCell. by rewrite getBlock_setBlock_eq.
  - intros x Hx. unfold getCell, setCell. apply getBlock_setBlock_ne.
    by apply cell_neq_coords.
Qed.

(** X15. A long press removes a block, if there is one.  In a reachable
    state with no pointer tracked, if the picker offers a removal candidate
    for the ray of a primary-button pointer-down, that pointer-down arms
    the long-press timer.  When the timer fires and the candidate holds a
    block, the cell reads [Block.AIR], the other cells are unchanged, the
    remove action (with the id that was there) is on top of the undo stack
    and the redo stack is empty; when the candidate is empty, grid and
    history stay as they were.  Either way the long press counts as fired:
    the release that follows only ends the gesture and changes neither the
    grid nor the history, even if a placement candidate was captured. *)
Theorem long_press_removes_block (s : State) (event up : PointerEvent)
    (hits hits' hits'' : list Hit) (cl : Cell) :
  reachable s -> tracking s = false -> button event <= 0 ->
  ev_pointerId up = ev_pointerId event ->
  hoverRemoveCell (updateHover s event hits) = Some cl ->
  let s1 := step s (PointerDown event hits) in
  let s2 := step s1 (LongPressTimeout hits') in
  let s3 := step s2 (PointerUp up hits'') in
  timer (pointerState s1) = Some Armed
  /\ (forall b,
        getCell (chunk s) cl = Some b -> b <> Block.AIR ->
        getCell (chunk s2) cl = Some Block.AIR
        /\ (forall x, x <> cl -> getCell (chunk s2) x = getCell (chunk s) x)
        /\ undoStack s2 = mkAction remove (Some b) (Some cl) :: undoStack s
        /\ redoStack s2 = [])
  /\ (getCell (chunk s) cl = Some Block.AIR ->
      chunk s2 = chunk s /\ undoStack s2 = undoStack s
      /\ redoStack s2 = redoStack s)
  /\ tracking s2 = true
  /\ longPressFired (pointerState s2) = true
  /\ tracking s3 = false
  /\ chunk s3 = chunk s2 /\ undoStack s3 = undoStack s2
  /\ redoStack s3 = redoStack s2.
Proof.
  intros Hreach Hidle Hbutton Hup Hremove. cbv zeta.
  destruct (reachable_invariant s Hreach) as (Hwf & Hr & _).
  destruct (updateHover_shape s event hits) as (p & r & E & _ & Hrok).
  rewrite E in Hremove. cbn [with_hover hoverRemoveCell] in Hremove. subst r.
  pose proof (Hrok cl eq_refl) as Hin.
  cbn [step].
  rewrite (handlePointerDown_captured s event hits p (Some cl))
    by (done || by destruct p).
  cbn [is_some with_pointerState pointerState timer].
  split; [done|].
  unfold longPressTimeout, spendPointerTimer.
  cbn [with_pointerState pointerState removeCell pointerId timer
       longPressFired placeCell].
  match goal with
  | |- context [attemptRemove ?t (Some cl) hits'] =>
      set (t0 := t); set (s2 := attemptRemove t0 (Some cl) hits')
  end.
  assert (Hps : pointerState s2 = pointerState t0)
    by apply attemptRemove_pointerState.
  assert (Hcommit : forall b,
            getCell (chunk s) cl = Some b -> b <> Block.AIR ->
            getCell (chunk s2) cl = Some Block.AIR
            /\ (forall x, x <> cl -> getCell (chunk s2) x = getCell (chunk s) x)
            /\ undoStack s2 = mkAction remove (Some b) (Some cl) :: undoStack s
            /\ redoStack s2 = []).
  { intros b Hget Hb.
    destruct (attemptRemove_commit_fields t0 cl hits' b)
      as (Eg & Eo & EU & ER & _); try done. }
  assert (Hreject : getCell (chunk s) cl = Some Block.AIR ->
            chunk s2 = chunk s /\ undoStack s2 = undoStack s
            /\ redoStack s2 = redoStack s).
  { intros Hair. unfold s2, attemptRemove.
    change (chunk t0) with (chunk s). apply num_eqb_true in Hair.
    by rewrite Hair. }
  clearbody s2. rewrite Hps. unfold t0.
  cbn [with_pointerState pointerState chunk undoStack redoStack pointerId
       timer placeCell removeCell longPressFired].
  split; [done|]. split; [done|]. split; [done|]. split; [done|].
  unfold handlePointerUp, tracking.
  cbn [with_pointerState pointerState pointerId sameId longPressFired
       placeCell].
  rewrite Hup, Z.eqb_refl. cbn [negb andb]. cbv zeta.
  cbn [with_pointerState pointerState chunk undoStack redoStack].
  by rewrite clearPointerState_idle.
Qed.

Lemma long_press_removes_block_witness :
  let hit := mkHit true (Some (mkNormal 0 1 0)) (mkVec3 0.5 0.5 0.5) in
  let down := mkPointerEvent 1 0 (0, 0)%float in
  let cl := mkCell 8 0 8 in
  let s := startup None [(cl, Block.STONE)] true in
  let s1 := step s (PointerDown down [hit]) in
  let s2 := step s1 (LongPressTimeout []) in
  let s3 := step s2 (PointerUp down []) in
  timer (pointerState s1) = Some Armed
  /\ (forall b,
        getCell (chunk s) cl = Some b -> b <> Block.AIR ->
        getCell (chunk s2) cl = Some Block.AIR
        /\ (forall x, x <> cl -> getCell (chunk s2) x = getCell (chunk s) x)
        /\ undoStack s2 = mkAction remove (Some b) (Some cl) :: undoStack s
        /\ redoStack s2 = [])
  /\ (getCell (chunk s) cl = Some Block.AIR ->
      chunk s2 = chunk s /\ undoStack s2 = undoStack s
      /\ redoStack s2 = redoStack s)
  /\ tracking s2 = true
  /\ longPressFired (pointerState s2) = true
  /\ tracking s3 = false
  /\ chunk s3 = chunk s2 /\ undoStack s3 = undoStack s2
  /\ redoStack s3 = redoStack s2.
Proof.
  apply (long_press_removes_block
           (startup None [(mkCell 8 0 8, Block.STONE)] true)
           (mkPointerEvent 1 0 (0, 0)%float) (mkPointerEvent 1 0 (0, 0)%float)
           [mkHit true (Some (mkNormal 0 1 0)) (mkVec3 0.5 0.5 0.5)]
           [] [] (mkCell 8 0 8)).
  - apply reachable_startup.
  - reflexivity.
  - cbn. lia.
  - reflexivity.
  - reflexivity.
Defined.

Lemma clearPointerState_timer p : timer (clearPointerState p) = None.
Proof.
  unfold clearPointerState, clearPointerTimer.
  destruct (timer p) eqn:E; cbn; by rewrite ?E.
Qed.

(** X16. Only an accepted pointer-down arms the long-press timer.  If the
    timer is not pending before an event and is pending after it, the event
    was a primary-button pointer-down received while no pointer was tracked,
    it captured a removal candidate, and it started a gesture whose long
    press has not fired.  In particular a pointer that moved off every
    removable block (which cancels the timer) does not get the long press
    back by moving onto a block again. *)
Theorem timer_armed_only_by_pointer_down (s : State) (e : Event) :
  timer (pointerState s) <> Some Armed ->
  timer (pointerState (step s e)) = Some Armed ->
  exists event hits,
    e = PointerDown event hits
    /\ tracking s = false /\ button event <= 0
    /\ pointerId (pointerState (step s e)) = Some (ev_pointerId event)
    /\ is_some (removeCell (pointerState (step s e))) = true
    /\ longPressFired (pointerState (step s e)) = false.
Proof.
  intros Hbefore Hafter.
  destruct e as [event hits | event hits | event hits | event | | hits | ok
                 | | | writes ok | b]; cbn [step] in Hafter |- *.
  - destruct (handlePointerMove_pointer s event hits) as (_ & _ & [E | E]);
      cbv zeta in E; rewrite E in Hafter; done.
  - exists event, hits. split; [done|].
    revert Hafter. unfold handlePointerDown, tracking.
    destruct (is_some (pointerId (pointerState s))); [done|].
    destruct (0 <? button event) eqn:Hb; [done|]. cbn [orb].
    destruct (updateHover_shape s event hits) as (p & r & -> & _).
    cbv zeta. cbn [with_hover hoverPlaceCell hoverRemoveCell].
    rewrite !cloneCell_id.
    destruct p as [p|], r as [r|];
      cbn [is_some negb andb removeCell with_pointerState pointerState
           timer with_hover with_lastPointerCoords pointerId longPressFired];
      intros Hafter; try done.
    all: split; [done|]; split; [lia|done].
  - exfalso. revert Hafter. unfold handlePointerUp.
    destruct (negb (sameId _ _)); [done|]. cbv zeta.
    destruct (negb _ && _); rewrite ?attemptPlace_pointerState;
      cbn [with_pointerState pointerState];
      by rewrite clearPointerState_timer.
  - exfalso. revert Hafter. unfold handlePointerCancel.
    destruct (negb (sameId _ _)); [done|].
    cbn [with_pointerState pointerState].
    by rewrite clearPointerState_timer.
  - exfalso. revert Hafter. unfold handlePointerLeave. cbv zeta.
    cbn [with_pointerState pointerState with_hover with_lastPointerCoords].
    by rewrite clearPointerState_timer.
  - exfalso. revert Hbefore Hafter.
    destruct (timer (pointerState s)) as [[]|] eqn:E; try done.
    all: by rewrite E.
  - exfalso. apply Hbefore. revert Hafter.
    destruct (saveTimer s) as [[]|]; [|done..].
    unfold saveTimeout, flushSave. cbv zeta.
    by destruct (encodeChunkData _), ok.
  - exfalso. by rewrite undo_pointerState in Hafter.
  - exfalso. by rewrite redo_pointerState in Hafter.
  - exfalso. apply Hbefore. revert Hafter.
    unfold resetChunkState, flushSave. cbv zeta.
    by destruct (encodeChunkData _), ok.
  - exfalso. apply Hbefore. revert Hafter. unfold setSelectedBlock.
    destruct (blockTypeById b) as [bt|]; [|done].
    by destruct (id bt =? Block.AIR).
Qed.

Lemma timer_armed_only_by_pointer_down_witness :
  let hit := mkHit true (Some (mkNormal 0 1 0))
               (mkVec3 0.5 0.5 0.5) in
  let s := startup None [(mkCell 8 0 8, Block.STONE)] true in
  let e := PointerDown (mkPointerEvent 1 0 (0, 0)%float) [hit] in
  exists event hits,
    e = PointerDown event hits
    /\ tracking s = false /\ button event <= 0
    /\ pointerId (pointerState (step s e)) = Some (ev_pointerId event)
    /\ is_some (removeCell (pointerState (step s e))) = true
    /\ longPressFired (pointerState (step s e)) = false.
Proof.
  apply (timer_armed_only_by_pointer_down
           (startup None [(mkCell 8 0 8, Block.STONE)] true)
           (PointerDown (mkPointerEvent 1 0 (0, 0)%float)
              [mkHit true (Some (mkNormal 0 1 0))
                 (mkVec3 0.5 0.5 0.5)])).
  - by vm_compute.
  - by vm_compute.
Defined.

(** ** Reset *)

Lemma fillData_reachable s :
  reachable s ->
  fillData (chunk s) Block.AIR = newChunk CHUNK_SIZE CHUNK_HEIGHT CHUNK_SIZE.
Proof.
  intros Hreach. destruct (reachable_dims s Hreach) as (Hw & Hh & Hd).
  unfold fillData, newChunk.
  by rewrite Hw, Hh, Hd, (reachable_data_length s Hreach).
Qed.

Lemma flushSave_storage s :
  wf_chunk (chunk s) ->
  storage (flushSave s true) = Some (b64_encode (data (chunk s)))
  /\ saveTimer (flushSave s true) = None.
Proof.
  intros Hwf. unfold flushSave. cbv zeta. cbn [with_saveTimer chunk].
  by rewrite (encodeChunkData_wf _ Hwf).
Qed.

(** X17. Reset brings the document back to the first run.  From every
    reachable state, whatever was edited, [resetChunkState] leaves the grid
    that a start-up without a stored item produces (the terrain writes are a
    fixed function of the coordinates), empties both history stacks so that
    undo and redo do nothing, and cancels a pending save; the selected block
    and the gesture in progress are not touched.  If its write to storage
    succeeds the stored item is the one such a start-up stores when its own
    write succeeds; if the write fails the stored item stays as it was. *)
Theorem reset_restores_first_run (s : State) (writes : list (Cell * Z))
    (ok ok' : bool) :
  reachable s ->
  let s' := resetChunkState s writes ok in
  chunk s' = chunk (startup None writes ok')
  /\ storage s'
     = (if ok then storage (startup None writes true) else storage s)
  /\ undoStack s' = [] /\ redoStack s' = []
  /\ undo s' = s' /\ redo s' = s'
  /\ saveTimer s' = None
  /\ selectedBlockId s' = selectedBlockId s
  /\ pointerState s' = pointerState s.
Proof.
  intros Hreach. cbv zeta.
  pose proof (fillData_reachable s Hreach) as Hfill.
  set (c0 := newChunk CHUNK_SIZE CHUNK_HEIGHT CHUNK_SIZE) in *.
  assert (Hwf0 : wf_chunk c0) by (apply newChunk_wf; by vm_compute).
  destruct (fillDefaultTerrain_wf writes c0 Hwf0) as [Hwf _].
  assert (Hstart : forall b, startup None writes b
                   = flushSave
                       (with_chunk
                          (mkState c0 defaultBlockId [] [] false None None
                             None None None idlePointerState)
                          (fillDefaultTerrain c0 writes)) b) by reflexivity.
  assert (Hreset : resetChunkState s writes ok
                   = flushSave
                       (clearHistory
                          (with_chunk s (fillDefaultTerrain c0 writes))) ok).
  { unfold resetChunkState. cbv zeta. cbn [with_chunk chunk].
    by rewrite Hfill. }
  rewrite !Hstart, Hreset.
  match goal with
  | |- context [chunk (flushSave ?t ok) = chunk (flushSave ?u ok')] =>
      destruct (flushSave_fields t ok) as (Fc & FU & FR & _ & Fs & Fp & _);
      destruct (flushSave_fields u ok') as (Gc & _);
      destruct (flushSave_storage t Hwf) as [Ft1 _];
      destruct (flushSave_storage u Hwf) as [Gt1 _];
      destruct (flushSave_failed t) as (Ft2 & _ & Ft3);
      assert (Ftimer : saveTimer (flushSave t ok) = None)
        by (destruct ok; [apply (flushSave_storage t Hwf) | apply Ft2])
  end.
  rewrite Fc, Gc, Gt1, Ftimer, Fs, Fp.
  split; [done|]. split.
  { destruct ok; [by rewrite Ft1 | by rewrite Ft3]. }
  split; [done|]. split; [done|].
  split; [by apply undo_nil|]. split; [by apply redo_nil|]. done.
Qed.

Lemma reset_restores_first_run_witness :
  let writes := [(mkCell 8 0 8, Block.STONE)] in
  let s := step (startup None writes true) (ClickBlock Block.STONE) in
  let s' := resetChunkState s writes false in
  chunk s' = chunk (startup None writes true)
  /\ storage s'
     = (if false then storage (startup None writes true) else storage s)
  /\ undoStack s' = [] /\ redoStack s' = []
  /\ undo s' = s' /\ redo s' = s'
  /\ saveTimer s' = None
  /\ selectedBlockId s' = selectedBlockId s
  /\ pointerState s' = pointerState s.
Proof.
  apply (reset_restores_first_run
           (step (startup None [(mkCell 8 0 8, Block.STONE)] true)
              (ClickBlock Block.STONE))
           [(mkCell 8 0 8, Block.STONE)] false true).
  apply reachable_step, reachable_startup.
Defined.

(** ** Loops over ranges *)

Lemma fold_left_ext_elem {A B} (f g : A -> B -> A) (l : list B) (a : A) :
  (forall a x, x ∈ l -> f a x = g a x) ->
  fold_left f l a = fold_left g l a.
Proof.
  revert a. induction l as [|x l IH]; intros a Hfg; [done|].
  cbn [fold_left]. rewrite Hfg by apply list_elem_of_here.
  apply IH. intros a' x' Hx'. apply Hfg. by apply list_elem_of_further.
Qed.

Lemma fold_left_fmap_list {A B C} (f : A -> C -> A) (h : B -> C) (l : list B)
    (a : A) :
  fold_left f (h <$> l) a = fold_left (fun a x => f a (h x)) l a.
Proof. revert a. induction l as [|x l IH]; intros a; [done|]. apply IH. Qed.

Lemma seqZ_succ m n : 0 <= n -> seqZ m (Z.succ n) = seqZ m n ++ [m + n].
Proof.
  intros Hn. unfold Z.succ. rewrite seqZ_app by lia. by f_equal.
Qed.

Lemma fold_seqZ_nested {A} (g : A -> Z -> A) (n w : Z) (a : A) :
  0 <= n -> 0 <= w ->
  fold_left
    (fun a i => fold_left (fun a j => g a (i * w + j)) (seqZ 0 w) a)
    (seqZ 0 n) a
  = fold_left g (seqZ 0 (n * w)) a.
Proof.
  intros Hn Hw. revert a. pattern n. apply natlike_ind; [| |done].
  - intros a. by rewrite Z.mul_0_l.
  - clear n Hn. intros n Hn IH a.
    rewrite seqZ_succ by done. rewrite fold_left_app, IH. cbn [fold_left].
    rewrite Z.mul_succ_l. rewrite seqZ_app by nia.
    rewrite fold_left_app. rewrite !Z.add_0_l.
    rewrite <- (Z.add_0_r (n * w)) at 2.
    rewrite <- fmap_add_seqZ. by rewrite fold_left_fmap_list.
Qed.

Lemma indexCell_getIndex c x y z :
  0 <= x < width c -> 0 <= z < depth c ->
  indexCell c (getIndex c x y z) = mkCell x y z.
Proof.
  intros Hx Hz. unfold indexCell, getIndex.
  set (w := width c) in *. set (d := depth c) in *.
  replace (y * w * d + z * w + x) with (x + (y * d + z) * w) by ring.
  assert (E1 : (x + (y * d + z) * w) / w = y * d + z).
  { rewrite Z.div_add by lia. rewrite Z.div_small by lia. lia. }
  f_equal.
  - rewrite Z.mod_add by lia. apply Z.mod_small; lia.
  - rewrite <- Z.div_div by lia. rewrite E1.
    rewrite Z.add_comm, Z.div_add by lia. rewrite Z.div_small by lia. lia.
  - rewrite E1. rewrite Z.add_comm, Z.mod_add by lia. apply Z.mod_small; lia.
Qed.

Lemma forEach_linear {A} (c : VoxelChunk)
    (callback : A -> JsNum -> Z -> Z -> Z -> A) (a : A) :
  0 <= width c -> 0 <= height c -> 0 <= depth c ->
  forEach c callback a
  = fold_left (fun a k => visit c callback a (indexCell c k))
      (seqZ 0 (cellCount c)) a.
Proof.
  intros Hw Hh Hd. unfold forEach, cellCount.
  set (G := fun a k => visit c callback a (indexCell c k)).
  replace (width c * height c * depth c)
    with (height c * depth c * width c) by ring.
  rewrite <- (fold_seqZ_nested G) by nia.
  rewrite <- (fold_seqZ_nested
                (fun a r =>
                   fold_left (fun a j => G a (r * width c + j))
                     (seqZ 0 (width c)) a)) by done.
  revert a. generalize (seqZ 0 (height c)) as ys.
  intros ys a. apply fold_left_ext_elem. intros a1 y _.
  apply fold_left_ext_elem. intros a2 z Hz.
  apply fold_left_ext_elem. intros a3 x Hx.
  apply elem_of_seqZ in Hz, Hx. unfold G, visit.
  replace ((y * depth c + z) * width c + x) with (getIndex c x y z)
    by (unfold getIndex; ring).
  rewrite indexCell_getIndex by lia. done.
Qed.

Lemma getCell_indexCell c k :
  0 <= width c -> 0 <= depth c -> 0 <= k < cellCount c ->
  cellInBounds c (indexCell c k) = true
  /\ getIndex c (cell_x (indexCell c k)) (cell_y (indexCell c k))
       (cell_z (indexCell c k)) = k
  /\ getCell c (indexCell c k) = u8_get (data c) k.
Proof.
  intros Hw Hd Hk.
  assert (Hw' : 0 < width c).
  { destruct (Z.eq_dec (width c) 0) as [E|]; [|lia].
    unfold cellCount in Hk. rewrite E in Hk. lia. }
  assert (Hd' : 0 < depth c).
  { destruct (Z.eq_dec (depth c) 0) as [E|]; [|lia].
    unfold cellCount in Hk. rewrite E in Hk. lia. }
  destruct (getIndex_decompose c k Hw' Hd' Hk) as [Hin E]. cbv zeta in *.
  unfold cellInBounds, getCell, indexCell. cbn [cell_x cell_y cell_z].
  split; [done|]. split; [done|].
  unfold getBlock. by rewrite Hin, E.
Qed.

Lemma forEach_calls {A} (c : VoxelChunk)
    (callback : A -> JsNum -> Z -> Z -> Z -> A) (a : A) :
  0 <= width c -> 0 <= height c -> 0 <= depth c ->
  forEach c callback a
  = fold_left
      (fun a p => callback a p.1 (cell_x p.2) (cell_y p.2) (cell_z p.2))
      (calls c) a.
Proof.
  intros Hw Hh Hd. rewrite forEach_linear by done. unfold calls.
  rewrite fold_left_fmap_list. apply fold_left_ext_elem.
  intros a' k Hk. apply elem_of_seqZ in Hk. unfold visit. cbn [fst snd].
  by destruct (getCell_indexCell c k) as (_ & _ & ->); [..|lia|].
Qed.

Lemma calls_lookup c i p :
  0 <= width c -> 0 <= depth c ->
  calls c !! i = Some p ->
  Z.of_nat i < cellCount c
  /\ p = (data c !! i, indexCell c (Z.of_nat i))
  /\ cellInBounds c p.2 = true
  /\ getIndex c (cell_x p.2) (cell_y p.2) (cell_z p.2) = Z.of_nat i.
Proof.
  intros Hw Hd. unfold calls. rewrite list_lookup_fmap.
  destruct (seqZ 0 (cellCount c) !! i) as [k|] eqn:E; [|done].
  apply lookup_seqZ in E as [-> Hi]. cbn. intros [= <-]. cbn [snd].
  rewrite Z.add_0_l. split; [done|].
  destruct (getCell_indexCell c (Z.of_nat i)) as (Hin & Hidx & _);
    [done|done|lia|].
  split; [|done]. f_equal. unfold u8_get.
  replace (0 <=? Z.of_nat i) with true by lia. by rewrite Nat2Z.id.
Qed.

(** X18. [forEach] walks the grid in storage order.  For a grid whose
    dimensions are not negative, the callback is called once for every
    entry of the byte array, from index 0 upwards: the [i]-th call gets the
    byte stored at index [i] and the coordinates of the in-bounds cell whose
    [getIndex] is [i]; whatever the callback computes is the fold of it
    over these calls. *)
Theorem forEach_storage_order (A : Type) (c : VoxelChunk)
    (callback : A -> JsNum -> Z -> Z -> Z -> A) (a : A) :
  wf_chunk c -> 0 <= width c -> 0 <= height c -> 0 <= depth c ->
  forEach c callback a
  = fold_left
      (fun a p => callback a p.1 (cell_x p.2) (cell_y p.2) (cell_z p.2))
      (calls c) a
  /\ length (calls c) = length (data c)
  /\ forall i p, calls c !! i = Some p ->
       exists b, data c !! i = Some b /\ p.1 = Some b
                 /\ cellInBounds c p.2 = true
                 /\ getIndex c (cell_x p.2) (cell_y p.2) (cell_z p.2)
                    = Z.of_nat i.
Proof.
  intros [Hlen _] Hw Hh Hd. split; [by apply forEach_calls|]. split.
  - unfold calls. rewrite length_fmap, length_seqZ. lia.
  - intros i p Hp.
    destruct (calls_lookup c i p Hw Hd Hp) as (Hi & -> & Hin & Hidx).
    cbn [fst snd] in *.
    destruct (data c !! i) as [b|] eqn:E.
    + by exists b.
    + apply lookup_ge_None in E. lia.
Qed.

Lemma forEach_storage_order_witness :
  let c := setBlock (newChunk 2 2 2) 1 0 1 Block.STONE in
  let callback := fun (acc : list (JsNum * Cell)) v x y z =>
                    acc ++ [(v, mkCell x y z)] in
  forEach c callback []
  = fold_left
      (fun a p => callback a p.1 (cell_x p.2) (cell_y p.2) (cell_z p.2))
      (calls c) []
  /\ length (calls c) = length (data c)
  /\ forall i p, calls c !! i = Some p ->
       exists b, data c !! i = Some b /\ p.1 = Some b
                 /\ cellInBounds c p.2 = true
                 /\ getIndex c (cell_x p.2) (cell_y p.2) (cell_z p.2)
                    = Z.of_nat i.
Proof.
  apply (forEach_storage_order (list (JsNum * Cell))
           (setBlock (newChunk 2 2 2) 1 0 1 Block.STONE)
           (fun acc v x y z => acc ++ [(v, mkCell x y z)]) []).
  - apply setBlock_wf, newChunk_wf. by vm_compute.
  - by vm_compute.
  - by vm_compute.
  - by vm_compute.
Defined.

(** ** The ground layer of the single-block build *)

Lemma fold_setBlock_row (zs : list Z) (c : VoxelChunk) (x0 y0 v x y z : Z) :
  wf_chunk c ->
  let c' := fold_left (fun c z' => setBlock c x0 y0 z' v) zs c in
  wf_chunk c'
  /\ (forall a b d, inBounds c' a b d = inBounds c a b d)
  /\ (inBounds c x y z = true -> x = x0 -> y = y0 -> z ∈ zs ->
      getBlock c' x y z = Some (to_uint8 v))
  /\ (inBounds c x y z = false \/ ~ (x = x0 /\ y = y0 /\ z ∈ zs) ->
      getBlock c' x y z = getBlock c x y z).
Proof.
  revert c. induction zs as [|z' zs IH]; intros c Hwf; cbv zeta.
  - cbn [fold_left]. split; [done|]. split; [done|]. split; [|done].
    intros _ _ _ Hz. by apply elem_of_nil in Hz.
  - cbn [fold_left].
    destruct (IH (setBlock c x0 y0 z' v) (setBlock_wf _ _ _ _ _ Hwf))
      as (Hwf' & Hin' & Hhit & Hmiss). cbv zeta in *.
    split; [done|]. split.
    { intros a b d. by rewrite Hin', setBlock_inBounds. }
    rewrite setBlock_inBounds in Hhit, Hmiss. split.
    + intros Hin -> -> Hz. destruct (decide (z ∈ zs)) as [Hzs|Hzs].
      * by apply Hhit.
      * apply elem_of_cons in Hz as [->|Hz]; [|done].
        rewrite Hmiss by (right; tauto).
        by apply getBlock_setBlock_eq.
    + intros Hcase. rewrite Hmiss.
      * destruct Hcase as [Hout|Hne].
        -- unfold getBlock. by rewrite setBlock_inBounds, Hout.
        -- apply getBlock_setBlock_ne. intros [= -> -> ->].
           apply Hne. split; [done|]. split; [done|]. apply list_elem_of_here.
      * destruct Hcase as [Hout|Hne]; [by left|right].
        intros (-> & -> & Hz). apply Hne. split; [done|]. split; [done|].
        by apply list_elem_of_further.
Qed.

Lemma fold_setBlock_rows (xs zs : list Z) (c : VoxelChunk)
    (y0 v x y z : Z) :
  wf_chunk c ->
  let c' := fold_left
              (fun c x' => fold_left (fun c z' => setBlock c x' y0 z' v) zs c)
              xs c in
  wf_chunk c'
  /\ (forall a b d, inBounds c' a b d = inBounds c a b d)
  /\ (inBounds c x y z = true -> x ∈ xs -> y = y0 -> z ∈ zs ->
      getBlock c' x y z = Some (to_uint8 v))
  /\ (inBounds c x y z = false \/ ~ (x ∈ xs /\ y = y0 /\ z ∈ zs) ->
      getBlock c' x y z = getBlock c x y z).
Proof.
  revert c. induction xs as [|x' xs IH]; intros c Hwf; cbv zeta.
  - cbn [fold_left]. split; [done|]. split; [done|]. split; [|done].
    intros _ Hx. by apply elem_of_nil in Hx.
  - cbn [fold_left].
    destruct (fold_setBlock_row zs c x' y0 v x y z Hwf)
      as (Hwf1 & Hin1 & Hhit1 & Hmiss1). cbv zeta in *.
    set (c1 := fold_left (fun c z' => setBlock c x' y0 z' v) zs c) in *.
    destruct (IH c1 Hwf1) as (Hwf' & Hin' & Hhit & Hmiss). cbv zeta in *.
    split; [done|]. split.
    { intros a b d. by rewrite Hin', Hin1. }
    rewrite Hin1 in Hhit, Hmiss. split.
    + intros Hin Hx -> Hz. destruct (decide (x ∈ xs)) as [Hxs|Hxs].
      * by apply Hhit.
      * apply elem_of_cons in Hx as [->|Hx]; [|done].
        rewrite Hmiss by (right; tauto). by apply Hhit1.
    + intros Hcase. rewrite Hmiss.
      * apply Hmiss1. destruct Hcase as [Hout|Hne]; [by left|right].
        intros (-> & -> & Hz). apply Hne. split; [|done].
        apply list_elem_of_here.
      * destruct Hcase as [Hout|Hne]; [by left|right].
        intros (Hx & -> & Hz). apply Hne. split; [|done].
        by apply list_elem_of_further.
Qed.

Lemma getBlock_newChunk w h d x y z :
  getBlock (newChunk w h d) x y z = Some Block.AIR
  \/ getBlock (newChunk w h d) x y z = None.
Proof.
  unfold getBlock. destruct (negb _); [by left|].
  unfold u8_get. destruct (0 <=? _); [|by right].
  cbn [newChunk data].
  destruct (replicate _ 0 !! _) as [b|] eqn:E; [|by right].
  apply lookup_replicate in E as [-> _]. by left.
Qed.

(** X19. The default terrain of the single-block build is a solid ground
    layer.  On a grid whose byte array matches its dimensions,
    [fillDefaultTerrain] makes every in-bounds cell with [y = 0], [x < 16]
    and [z < 16] read [Block.SOLID] and leaves every other cell as it was;
    on the fresh 16 x 12 x 16 grid of the program every in-bounds cell at
    height 0 reads [Block.SOLID] and every other cell reads [Block.AIR]. *)
Theorem singleBlock_fillDefaultTerrain_ground (c : VoxelChunk) (x y z : Z) :
  wf_chunk c ->
  wf_chunk (SingleBlock.fillDefaultTerrain c)
  /\ getBlock (SingleBlock.fillDefaultTerrain c) x y z
     = (if inBounds c x y z && (y =? 0) && (x <? CHUNK_SIZE)
           && (z <? CHUNK_SIZE)
        then Some Block.SOLID else getBlock c x y z)
  /\ getBlock
       (SingleBlock.fillDefaultTerrain
          (newChunk CHUNK_SIZE CHUNK_HEIGHT CHUNK_SIZE)) x y z
     = Some (if inBounds (newChunk CHUNK_SIZE CHUNK_HEIGHT CHUNK_SIZE) x y z
                && (y =? 0)
             then Block.SOLID else Block.AIR).
Proof.
  assert (Hgen : forall c, wf_chunk c ->
    wf_chunk (SingleBlock.fillDefaultTerrain c)
    /\ getBlock (SingleBlock.fillDefaultTerrain c) x y z
       = (if inBounds c x y z && (y =? 0) && (x <? CHUNK_SIZE)
             && (z <? CHUNK_SIZE)
          then Some Block.SOLID else getBlock c x y z)).
  { clear c. intros c Hwf. unfold SingleBlock.fillDefaultTerrain.
    destruct (fold_setBlock_rows (seqZ 0 CHUNK_SIZE) (seqZ 0 CHUNK_SIZE) c
                0 Block.SOLID x y z Hwf) as (Hwf' & _ & Hhit & Hmiss).
    cbv zeta in *. split; [done|].
    destruct (inBounds c x y z) eqn:Hin; cbn [andb].
    - pose proof Hin as Hb. apply inBounds_spec in Hb as (Hx & Hy & Hz).
      destruct (Z.eqb_spec y 0) as [->|Hy0]; cbn [andb].
      + destruct (Z.ltb_spec x CHUNK_SIZE) as [Hxl|Hxl]; cbn [andb].
        * destruct (Z.ltb_spec z CHUNK_SIZE) as [Hzl|Hzl].
          -- apply Hhit; [done| |done|]; apply elem_of_seqZ; lia.
          -- apply Hmiss. right. intros (_ & _ & Hz').
             apply elem_of_seqZ in Hz'. lia.
        * apply Hmiss. right. intros (Hx' & _).
          apply elem_of_seqZ in Hx'. lia.
      + apply Hmiss. right. by intros (_ & -> & _).
    - apply Hmiss. by left. }
  intros Hwf. destruct (Hgen c Hwf) as [H1 H2].
  split; [done|]. split; [done|].
  set (c0 := newChunk CHUNK_SIZE CHUNK_HEIGHT CHUNK_SIZE).
  assert (Hwf0 : wf_chunk c0) by (apply newChunk_wf; by vm_compute).
  destruct (Hgen c0 Hwf0) as [_ ->].
  assert (Hair : inBounds c0 x y z = true -> getBlock c0 x y z = Some Block.AIR).
  { intros Hin. destruct (getBlock_in_bounds c0 x y z Hwf0 Hin) as (b & E & _).
    destruct (getBlock_newChunk CHUNK_SIZE CHUNK_HEIGHT CHUNK_SIZE x y z)
      as [E'|E']; [done|]. fold c0 in E'. congruence. }
  destruct (inBounds c0 x y z) eqn:Hin; cbn [andb].
  - apply inBounds_spec in Hin as (Hx & Hy & Hz).
    change (width c0) with CHUNK_SIZE in Hx.
    change (depth c0) with CHUNK_SIZE in Hz.
    replace (x <? CHUNK_SIZE) with true by lia.
    replace (z <? CHUNK_SIZE) with true by lia.
    rewrite !andb_true_r.
    destruct (y =? 0); [done|]. by apply Hair.
  - by apply getBlock_oob.
Qed.

Lemma singleBlock_fillDefaultTerrain_ground_witness :
  let c := setBlock (newChunk CHUNK_SIZE CHUNK_HEIGHT CHUNK_SIZE) 3 4 5
             Block.SOLID in
  wf_chunk (SingleBlock.fillDefaultTerrain c)
  /\ getBlock (SingleBlock.fillDefaultTerrain c) 3 0 5
     = (if inBounds c 3 0 5 && (0 =? 0) && (3 <? CHUNK_SIZE)
           && (5 <? CHUNK_SIZE)
        then Some Block.SOLID else getBlock c 3 0 5)
  /\ getBlock
       (SingleBlock.fillDefaultTerrain
          (newChunk CHUNK_SIZE CHUNK_HEIGHT CHUNK_SIZE)) 3 0 5
     = Some (if inBounds (newChunk CHUNK_SIZE CHUNK_HEIGHT CHUNK_SIZE) 3 0 5
                && (0 =? 0)
             then Block.SOLID else Block.AIR).
Proof.
  apply (singleBlock_fillDefaultTerrain_ground
           (setBlock (newChunk CHUNK_SIZE CHUNK_HEIGHT CHUNK_SIZE) 3 4 5
              Block.SOLID) 3 0 5).
  apply setBlock_wf, newChunk_wf. by vm_compute.
Defined.

(** ** Instanced meshes follow the grid *)

Lemma place_instances (P : JsNum * Cell -> bool) (pos : Cell -> Vec3)
    (l : list (JsNum * Cell)) (m : Mesh) (i : Z) :
  0 <= i ->
  (Z.to_nat i + length (List.filter P l) <= length (matrices m))%nat ->
  let r := fold_left
             (fun (acc : Mesh * Z) p =>
                if P p then (setMatrixAt acc.1 acc.2 (pos p.2), acc.2 + 1)
                else acc)
             l (m, i) in
  r.2 = i + Z.of_nat (length (List.filter P l))
  /\ take (Z.to_nat r.2) (matrices r.1)
     = take (Z.to_nat i) (matrices m)
       ++ ((fun p => Some (pos p.2)) <$> List.filter P l)
  /\ length (matrices r.1) = length (matrices m)
  /\ count r.1 = count m /\ visible r.1 = visible m.
Proof.
  revert m i. induction l as [|p l IH]; intros m i Hi Hcap; cbv zeta.
  - cbn. rewrite Z.add_0_r, app_nil_r. done.
  - cbn [fold_left List.filter]. cbn [List.filter] in Hcap.
    destruct (P p) eqn:HP; [|by apply IH].
    cbn [length fst snd] in Hcap |- *.
    assert (Hlen : length (matrices (setMatrixAt m i (pos p.2)))
                   = length (matrices m)).
    { unfold setMatrixAt. cbn [matrices].
      destruct (0 <=? i); [apply length_insert|done]. }
    destruct (IH (setMatrixAt m i (pos p.2)) (i + 1)) as (E1 & E2 & E3 & E4);
      [lia| rewrite Hlen; lia |].
    cbv zeta in E1, E2, E3, E4. rewrite E2, E1, E3, Hlen.
    split; [lia|]. split; [|done].
    unfold setMatrixAt. cbn [matrices].
    replace (0 <=? i) with true by lia.
    replace (Z.to_nat (i + 1)) with (S (Z.to_nat i)) by lia.
    rewrite (take_S_r _ _ (Some (pos p.2))).
    + rewrite take_insert_ge by lia. by rewrite <- app_assoc.
    + apply list_lookup_insert_eq. lia.
Qed.

Lemma calls_length c : wf_chunk c -> length (calls c) = length (data c).
Proof.
  intros [Hlen _]. unfold calls. rewrite length_fmap, length_seqZ. lia.
Qed.

Lemma calls_elem c p :
  0 <= width c -> 0 <= depth c ->
  p ∈ calls c <-> cellInBounds c p.2 = true /\ p.1 = getCell c p.2.
Proof.
  intros Hw Hd. unfold calls. rewrite list_elem_of_fmap. split.
  - intros (k & -> & Hk). apply elem_of_seqZ in Hk. cbn [fst snd].
    destruct (getCell_indexCell c k) as (Hin & _ & E); [done|done|lia|].
    by rewrite E.
  - destruct p as [v [x y z]]. cbn [fst snd]. intros [Hin ->].
    unfold cellInBounds in Hin. cbn [cell_x cell_y cell_z] in Hin.
    exists (getIndex c x y z).
    pose proof (getIndex_range c x y z Hin) as Hr.
    pose proof Hin as Hb. apply inBounds_spec in Hb as (Hx & _ & Hz).
    split; [|apply elem_of_seqZ; lia].
    rewrite indexCell_getIndex by done. f_equal.
    unfold getCell, getBlock. cbn [cell_x cell_y cell_z]. by rewrite Hin.
Qed.

Lemma elem_of_filter_calls (P : JsNum * Cell -> bool) c p :
  p ∈ List.filter P (calls c) <-> p ∈ calls c /\ P p = true.
Proof. rewrite !list_elem_of_In. apply List.filter_In. Qed.

(** X20. The single-block build draws exactly the solid cells.  For a grid
    whose byte array matches its (non-negative) dimensions and a mesh whose
    buffer has one slot per cell, [refreshChunkInstances] leaves, whatever
    the buffer held before, [count] equal to the number of cells that read
    [Block.SOLID] and the drawn instances equal to the positions of these
    cells in storage order: a position is drawn if and only if it is the
    position of an in-bounds cell that reads [Block.SOLID]. *)
Theorem singleBlock_instances_are_solid_cells (m : Mesh) (c : VoxelChunk) :
  wf_chunk c -> 0 <= width c -> 0 <= height c -> 0 <= depth c ->
  length (matrices m) = length (data c) ->
  let m' := SingleBlock.refreshChunkInstances m c in
  let solid := List.filter (fun p => num_eqb p.1 Block.SOLID) (calls c) in
  instances m' = (fun p => Some (cellPosition c p.2)) <$> solid
  /\ count m' = Z.of_nat (length solid)
  /\ length (matrices m') = length (matrices m)
  /\ forall q, q ∈ instances m' <->
       exists cl, q = Some (cellPosition c cl)
                  /\ cellInBounds c cl = true
                  /\ getCell c cl = Some Block.SOLID.
Proof.
  intros Hwf Hw Hh Hd Hcap. cbv zeta.
  set (P := fun p : JsNum * Cell => num_eqb p.1 Block.SOLID).
  assert (Hfold :
    SingleBlock.refreshChunkInstances m c
    = let r := fold_left
                 (fun (acc : Mesh * Z) p =>
                    if P p
                    then (setMatrixAt acc.1 acc.2 (cellPosition c p.2),
                          acc.2 + 1)
                    else acc)
                 (calls c) (m, 0) in
      mkMesh (matrices r.1) r.2 (visible r.1)).
  { unfold SingleBlock.refreshChunkInstances.
    rewrite forEach_calls by done. cbv zeta.
    match goal with
    | |- (let '(_, _) := fold_left ?f _ _ in _) = _ =>
        rewrite (fold_left_ext_elem f
                   (fun (acc : Mesh * Z) p =>
                      if P p
                      then (setMatrixAt acc.1 acc.2 (cellPosition c p.2),
                            acc.2 + 1)
                      else acc))
    end.
    - by destruct (fold_left _ _ _).
    - intros [m0 i0] p _. unfold P, cellPosition. cbn [fst snd].
      by destruct (num_eqb p.1 Block.SOLID). }
  rewrite Hfold. clear Hfold. cbv zeta.
  destruct (place_instances P (cellPosition c) (calls c) m 0)
    as (E1 & E2 & E3 & _); [lia| |].
  { pose proof (List.filter_length_le P (calls c)) as Hle.
    rewrite calls_length in Hle by done. lia. }
  cbv zeta in E1, E2, E3.
  unfold instances. cbn [matrices count].
  rewrite E2, E1, E3. change (Z.to_nat 0) with 0%nat.
  change (take 0 (matrices m)) with (@nil (option Vec3)).
  cbn [app]. rewrite Z.add_0_l.
  split; [done|]. split; [done|]. split; [done|].
  intros q. rewrite list_elem_of_fmap. split.
  - intros (p & -> & Hp). apply elem_of_filter_calls in Hp as [Hp HP].
    apply calls_elem in Hp as [Hin Hv]; [|done..].
    exists p.2. split; [done|]. split; [done|].
    unfold P in HP. rewrite Hv in HP. by apply num_eqb_true in HP.
  - intros (cl & -> & Hin & Hv). exists (getCell c cl, cl).
    split; [done|]. apply elem_of_filter_calls. split.
    + by apply calls_elem.
    + unfold P. cbn [fst]. by apply num_eqb_true.
Qed.

Lemma singleBlock_instances_are_solid_cells_witness :
  let c := setBlock (newChunk 2 2 2) 1 0 1 Block.SOLID in
  let m := newMesh 8 true in
  let m' := SingleBlock.refreshChunkInstances m c in
  let solid := List.filter (fun p => num_eqb p.1 Block.SOLID) (calls c) in
  instances m' = (fun p => Some (cellPosition c p.2)) <$> solid
  /\ count m' = Z.of_nat (length solid)
  /\ length (matrices m') = length (matrices m)
  /\ forall q, q ∈ instances m' <->
       exists cl, q = Some (cellPosition c cl)
                  /\ cellInBounds c cl = true
                  /\ getCell c cl = Some Block.SOLID.
Proof.
  apply (singleBlock_instances_are_solid_cells (newMesh 8 true)
           (setBlock (newChunk 2 2 2) 1 0 1 Block.SOLID)).
  - apply setBlock_wf, newChunk_wf. by vm_compute.
  - by vm_compute.
  - by vm_compute.
  - by vm_compute.
  - by vm_compute.
Defined.

Lemma refreshChunkInstances_fold states c :
  0 <= width c -> 0 <= height c -> 0 <= depth c ->
  refreshChunkInstances states c
  = let r := fold_left (instanceStep c) (calls c)
               ((fun k => (fun s => mkMeshState (mesh s) 0) <$> states k), 0) in
    ((fun k =>
        (fun s =>
           mkMeshState (mkMesh (matrices (mesh s)) (index s) (0 <? index s))
             (index s)) <$> r.1 k),
     r.2).
Proof.
  intros Hw Hh Hd. unfold refreshChunkInstances. cbv zeta.
  rewrite forEach_calls by done.
  match goal with
  | |- (let '(_, _) := fold_left ?f _ _ in _) = _ =>
      rewrite (fold_left_ext_elem f (instanceStep c))
  end.
  - by destruct (fold_left _ _ _).
  - intros [st t] p _. unfold instanceStep, cellPosition. cbn [fst snd].
    destruct (num_eqb p.1 Block.AIR); [done|].
    destruct p.1 as [v|]; [|done]. by destruct (getState st (Some v)).
Qed.

Lemma instanceStep_state c l st t k :
  (fold_left (instanceStep c) l (st, t)).1 k
  = (fun s =>
       let r := fold_left
                  (fun (acc : Mesh * Z) p =>
                     if holds k p
                     then (setMatrixAt acc.1 acc.2 (cellPosition c p.2),
                           acc.2 + 1)
                     else acc)
                  l (mesh s, index s) in
       mkMeshState r.1 r.2) <$> st k.
Proof.
  revert st t. induction l as [|p l IH]; intros st t.
  - cbn [fold_left fst]. by destruct (st k) as [[]|].
  - cbn [fold_left]. unfold instanceStep at 2. cbn [fst snd].
    destruct (num_eqb p.1 Block.AIR) eqn:Hair.
    { assert (Hh : holds k p = false) by (unfold holds; by rewrite Hair).
      rewrite Hh. apply IH. }
    destruct p.1 as [v|] eqn:Hv.
    2: { assert (Hh : holds k p = false) by (unfold holds; by rewrite Hv).
         rewrite Hh. apply IH. }
    assert (Hh : holds k p = (v =? k)).
    { unfold holds. rewrite Hv. cbn [num_eqb] in Hair |- *.
      by rewrite Hair. }
    rewrite Hh. cbn [getState].
    destruct (st v) as [s0|] eqn:Hs0.
    + rewrite IH. unfold setState. rewrite (Z.eqb_sym v k).
      destruct (Z.eqb_spec k v) as [->|Hne]; [|done].
      by rewrite Hs0.
    + rewrite IH. destruct (Z.eqb_spec v k) as [->|Hne]; [|done].
      by rewrite Hs0.
Qed.

Lemma instanceStep_keys c l st t k :
  is_some ((fold_left (instanceStep c) l (st, t)).1 k) = is_some (st k).
Proof. rewrite instanceStep_state. by destruct (st k). Qed.

Lemma instanceStep_total c l st t :
  (fold_left (instanceStep c) l (st, t)).2
  = t + Z.of_nat (length (List.filter (hasMesh st) l)).
Proof.
  revert st t. induction l as [|p l IH]; intros st t.
  - cbn. lia.
  - cbn [fold_left List.filter]. unfold instanceStep at 2. cbn [fst snd].
    destruct (num_eqb p.1 Block.AIR) eqn:Hair.
    { assert (Hh : hasMesh st p = false) by (unfold hasMesh; by rewrite Hair).
      rewrite Hh. apply IH. }
    destruct p.1 as [v|] eqn:Hv.
    2: { assert (Hh : hasMesh st p = false).
         { unfold hasMesh. rewrite Hv. by cbn. }
         rewrite Hh. apply IH. }
    assert (Hh : hasMesh st p = is_some (st v)).
    { unfold hasMesh. rewrite Hv. cbn [getState]. by rewrite Hair. }
    rewrite Hh. cbn [getState].
    destruct (st v) as [s0|] eqn:Hs0; [|apply IH].
    cbn [is_some length]. rewrite IH.
    rewrite (List.filter_ext (hasMesh (setState st v _)) (hasMesh st)); [lia|].
    intros q. unfold hasMesh. f_equal. destruct q.1 as [w|]; [|done].
    cbn [getState]. unfold setState.
    destruct (Z.eqb_spec w v) as [->|]; [by rewrite Hs0|done].
Qed.

Lemma blockMeshStates_lookup c k :
  blockMeshStates c k
  = if (1 <=? k) && (k <=? 5)
    then Some (mkMeshState (newMesh (cellCount c) false) 0) else None.
Proof.
  unfold blockMeshStates.
  let l := eval vm_compute in placeableBlocks in
  change placeableBlocks with l.
  cbn [fold_left id]. unfold setState.
  repeat match goal with
         | |- context [k =? ?n] => destruct (Z.eqb_spec k n) as [->|?]
         end; try done.
  replace ((1 <=? k) && (k <=? 5)) with false; [done|].
  symmetry. apply andb_false_iff. lia.
Qed.

Lemma refreshChunkInstances_spec (states : MeshStates)
    (c : VoxelChunk) :
  wf_chunk c -> 0 <= width c -> 0 <= height c -> 0 <= depth c ->
  (forall k s, states k = Some s ->
     length (matrices (mesh s)) = length (data c)) ->
  let r := refreshChunkInstances states c in
  (forall k, is_some (r.1 k) = is_some (states k))
  /\ (forall k s', r.1 k = Some s' ->
        instances (mesh s')
        = (fun p => Some (cellPosition c p.2))
            <$> List.filter (holds k) (calls c)
        /\ count (mesh s')
           = Z.of_nat (length (List.filter (holds k) (calls c)))
        /\ visible (mesh s') = (0 <? count (mesh s'))
        /\ forall q, q ∈ instances (mesh s') <->
             exists cl, q = Some (cellPosition c cl)
                        /\ cellInBounds c cl = true
                        /\ getCell c cl = Some k /\ k <> Block.AIR)
  /\ r.2 = Z.of_nat (length (List.filter (hasMesh states) (calls c))).
Proof.
  intros Hwf Hw Hh Hd Hcap. cbv zeta.
  rewrite refreshChunkInstances_fold by done. cbv zeta. cbn [fst snd].
  set (st0 := fun k => (fun s => mkMeshState (mesh s) 0) <$> states k).
  split; [|split].
  - intros k. rewrite instanceStep_state. unfold st0.
    by destruct (states k).
  - intros k s'. rewrite instanceStep_state. unfold st0.
    destruct (states k) as [s|] eqn:Hs; [|done].
    cbn [fmap option_fmap option_map mesh index]. cbv zeta.
    intros [= <-]. cbn [mesh]. unfold instances. cbn [matrices count visible].
    destruct (place_instances (holds k) (cellPosition c) (calls c) (mesh s) 0)
      as (E1 & E2 & _); [lia| |].
    { pose proof (List.filter_length_le (holds k) (calls c)) as Hle.
      rewrite calls_length in Hle by done. rewrite (Hcap k s Hs). lia. }
    cbv zeta in E1, E2. rewrite E2, E1.
    change (Z.to_nat 0) with 0%nat.
    change (take 0 (matrices (mesh s))) with (@nil (option Vec3)).
    cbn [app]. rewrite Z.add_0_l.
    split; [done|]. split; [done|]. split; [done|].
    intros q. rewrite list_elem_of_fmap. split.
    + intros (p & -> & Hp). apply elem_of_filter_calls in Hp as [Hp HP].
      apply calls_elem in Hp as [Hin Hv]; [|done..].
      exists p.2. split; [done|]. split; [done|].
      unfold holds in HP. apply andb_prop in HP as [Hair Hk].
      rewrite Hv in Hair, Hk. apply num_eqb_true in Hk.
      split; [done|]. intros ->. rewrite Hk in Hair. done.
    + intros (cl & -> & Hin & Hv & Hk). exists (getCell c cl, cl).
      split; [done|]. apply elem_of_filter_calls. split.
      * by apply calls_elem.
      * unfold holds. cbn [fst]. rewrite Hv. cbn [num_eqb].
        rewrite Z.eqb_refl, andb_true_r. apply negb_true_iff.
        by apply Z.eqb_neq.
  - rewrite instanceStep_total, Z.add_0_l. do 2 f_equal.
    apply List.filter_ext. intros p. unfold hasMesh, st0. f_equal.
    destruct p.1 as [v|]; [|done]. cbn [getState]. by destruct (states v).
Qed.

(** X21. Every mesh of the multi-block build draws exactly the cells of its
    block type.  For a grid whose byte array matches its (non-negative)
    dimensions and meshes with one buffer slot per cell,
    [refreshChunkInstances] keeps the set of block types that have a mesh
    and leaves, for each of them and whatever the buffers held before,
    [count] equal to the number of cells that hold that (non-air) type, the
    drawn instances equal to the positions of these cells in storage order,
    and the mesh visible exactly when it draws something; the total it
    reports is the number of non-air cells whose type has a mesh. *)
Theorem refreshChunkInstances_per_type (states : MeshStates)
    (c : VoxelChunk) :
  wf_chunk c -> 0 <= width c -> 0 <= height c -> 0 <= depth c ->
  (forall k s, states k = Some s ->
     length (matrices (mesh s)) = length (data c)) ->
  let r := refreshChunkInstances states c in
  (forall k, is_some (r.1 k) = is_some (states k))
  /\ (forall k s', r.1 k = Some s' ->
        instances (mesh s')
        = (fun p => Some (cellPosition c p.2))
            <$> List.filter (holds k) (calls c)
        /\ count (mesh s')
           = Z.of_nat (length (List.filter (holds k) (calls c)))
        /\ visible (mesh s') = (0 <? count (mesh s'))
        /\ forall q, q ∈ instances (mesh s') <->
             exists cl, q = Some (cellPosition c cl)
                        /\ cellInBounds c cl = true
                        /\ getCell c cl = Some k /\ k <> Block.AIR)
  /\ r.2 = Z.of_nat (length (List.filter (hasMesh states) (calls c))).
Proof. apply refreshChunkInstances_spec. Qed.

Lemma refreshChunkInstances_per_type_witness :
  let c := setBlock (newChunk 2 2 2) 1 0 1 Block.STONE in
  let states := blockMeshStates c in
  let r := refreshChunkInstances states c in
  (forall k, is_some (r.1 k) = is_some (states k))
  /\ (forall k s', r.1 k = Some s' ->
        instances (mesh s')
        = (fun p => Some (cellPosition c p.2))
            <$> List.filter (holds k) (calls c)
        /\ count (mesh s')
           = Z.of_nat (length (List.filter (holds k) (calls c)))
        /\ visible (mesh s') = (0 <? count (mesh s'))
        /\ forall q, q ∈ instances (mesh s') <->
             exists cl, q = Some (cellPosition c cl)
                        /\ cellInBounds c cl = true
                        /\ getCell c cl = Some k /\ k <> Block.AIR)
  /\ r.2 = Z.of_nat (length (List.filter (hasMesh states) (calls c))).
Proof.
  apply (refreshChunkInstances_per_type
           (blockMeshStates (setBlock (newChunk 2 2 2) 1 0 1 Block.STONE))
           (setBlock (newChunk 2 2 2) 1 0 1 Block.STONE)).
  - apply setBlock_wf, newChunk_wf. by vm_compute.
  - by vm_compute.
  - by vm_compute.
  - by vm_compute.
  - intros k s. rewrite blockMeshStates_lookup.
    destruct ((1 <=? k) && (k <=? 5)); [|done]. by intros [= <-].
Defined.

Lemma blockTypeById_known b :
  is_some (blockTypeById b) = true /\ b <> Block.AIR <-> 1 <= b <= 5.
Proof.
  unfold blockTypeById.
  let l := eval vm_compute in BLOCK_TYPES in change BLOCK_TYPES with l.
  cbn [List.find id]. unfold Block.AIR.
  repeat match goal with
         | |- context [?n =? b] => destruct (Z.eqb_spec n b) as [<-|?]
         end; cbn [is_some]; split; try lia; try (intros [? ?]; done).
  all: intros _; split; [done|lia].
Qed.

(** X22. What is on screen is what the picker can hit.  With the meshes the
    module creates (one per placeable block type, a buffer slot per cell),
    after [refreshChunkInstances] a position is drawn by some mesh if and
    only if it is the position of a cell that holds a non-air block of a
    known type; each such cell is drawn by the mesh of its own type. *)
Theorem instances_are_drawn_cells (c : VoxelChunk) (q : option Vec3) :
  wf_chunk c -> 0 <= width c -> 0 <= height c -> 0 <= depth c ->
  let r := refreshChunkInstances (blockMeshStates c) c in
  ((exists k s', r.1 k = Some s' /\ q ∈ instances (mesh s'))
   <-> exists cl, q = Some (cellPosition c cl) /\ drawn c cl)
  /\ forall cl b,
       drawn c cl -> getCell c cl = Some b ->
       exists s', r.1 b = Some s'
                  /\ Some (cellPosition c cl) ∈ instances (mesh s').
Proof.
  intros Hwf Hw Hh Hd. cbv zeta.
  assert (Hcap : forall k s, blockMeshStates c k = Some s ->
                   length (matrices (mesh s)) = length (data c)).
  { intros k s. rewrite blockMeshStates_lookup.
    destruct ((1 <=? k) && (k <=? 5)); [|done]. intros [= <-].
    cbn [mesh newMesh matrices]. rewrite length_replicate.
    destruct Hwf as [Hlen _]. lia. }
  destruct (refreshChunkInstances_spec (blockMeshStates c) c
              Hwf Hw Hh Hd Hcap) as (Hkeys & Hspec & _).
  cbv zeta in Hkeys, Hspec.
  set (r := refreshChunkInstances (blockMeshStates c) c) in *.
  assert (Hfwd : forall cl b, drawn c cl -> getCell c cl = Some b ->
            exists s', r.1 b = Some s'
                       /\ Some (cellPosition c cl) ∈ instances (mesh s')).
  { intros cl b (Hin & b' & Hget & Hne & Hknown) Hb.
    rewrite Hget in Hb. injection Hb as ->.
    assert (Hrange : 1 <= b <= 5) by (by apply blockTypeById_known).
    pose proof (Hkeys b) as Hk. rewrite blockMeshStates_lookup in Hk.
    replace ((1 <=? b) && (b <=? 5)) with true in Hk by lia.
    destruct (r.1 b) as [s'|] eqn:Hs'; [|done].
    exists s'. split; [done|].
    destruct (Hspec b s' Hs') as (_ & _ & _ & Hiff).
    apply Hiff. by exists cl. }
  split; [|done]. split.
  - intros (k & s' & Hs' & Hq).
    destruct (Hspec k s' Hs') as (_ & _ & _ & Hiff).
    apply Hiff in Hq as (cl & -> & Hin & Hget & Hne).
    exists cl. split; [done|]. split; [done|]. exists k.
    split; [done|]. split; [done|].
    pose proof (Hkeys k) as Hk. rewrite Hs', blockMeshStates_lookup in Hk.
    apply blockTypeById_known.
    destruct (Z.leb_spec 1 k), (Z.leb_spec k 5); cbn in Hk; done || lia.
  - intros (cl & -> & Hdrawn).
    pose proof Hdrawn as (_ & b & Hget & _).
    destruct (Hfwd cl b Hdrawn Hget) as (s' & Hs' & Hq). by exists b, s'.
Qed.

Lemma instances_are_drawn_cells_witness :
  let c := setBlock (newChunk 2 2 2) 1 0 1 Block.STONE in
  let q := Some (cellPosition c (mkCell 1 0 1)) in
  let r := refreshChunkInstances (blockMeshStates c) c in
  ((exists k s', r.1 k = Some s' /\ q ∈ instances (mesh s'))
   <-> exists cl, q = Some (cellPosition c cl) /\ drawn c cl)
  /\ forall cl b,
       drawn c cl -> getCell c cl = Some b ->
       exists s', r.1 b = Some s'
                  /\ Some (cellPosition c cl) ∈ instances (mesh s').
Proof.
  apply (instances_are_drawn_cells
           (setBlock (newChunk 2 2 2) 1 0 1 Block.STONE)
           (Some (cellPosition (setBlock (newChunk 2 2 2) 1 0 1 Block.STONE)
                    (mkCell 1 0 1)))).
  - apply setBlock_wf, newChunk_wf. by vm_compute.
  - by vm_compute.
  - by vm_compute.
  - by vm_compute.
Defined.

(** ** Edits of the single-block build *)

(** X23. In the single-block build, placing a block and removing it again
    restores the grid.  On a grid whose byte array matches its dimensions,
    [attemptPlace] on an in-bounds cell that reads [Block.AIR] makes it read
    [Block.SOLID] and changes no other cell; placing there again is
    rejected and changes nothing; [attemptRemove] on the cell then gives
    back the grid as it was, with a save pending. *)
Theorem singleBlock_place_then_remove (s : SingleBlock.State) (cl : Cell)
    (hits hits' hits'' : list Hit) :
  wf_chunk (SingleBlock.chunk s) ->
  cellInBounds (SingleBlock.chunk s) cl = true ->
  getCell (SingleBlock.chunk s) cl = Some Block.AIR ->
  let s1 := SingleBlock.attemptPlace s (Some cl) hits in
  let s2 := SingleBlock.attemptRemove s1 (Some cl) hits'' in
  getCell (SingleBlock.chunk s1) cl = Some Block.SOLID
  /\ (forall x, x <> cl ->
        getCell (SingleBlock.chunk s1) x = getCell (SingleBlock.chunk s) x)
  /\ SingleBlock.attemptPlace s1 (Some cl) hits' = s1
  /\ SingleBlock.chunk s2 = SingleBlock.chunk s
  /\ SingleBlock.saveTimer s2 = Some Armed.
Proof.
  intros Hwf Hin Hair. cbv zeta.
  assert (E1 : exists p r,
             SingleBlock.attemptPlace s (Some cl) hits
             = SingleBlock.with_hover
                 (SingleBlock.scheduleSave
                    (SingleBlock.with_chunk s
                       (setCell (SingleBlock.chunk s) cl Block.SOLID))) p r).
  { unfold SingleBlock.attemptPlace. rewrite Hair. cbn [num_eqb negb].
    cbv zeta.
    match goal with
    | |- context [SingleBlock.updateHoverFromPointer ?t hits] =>
        destruct (singleBlock_updateHoverFromPointer_shape t hits)
          as (p & r & -> & _)
    end.
    by exists p, r. }
  destruct E1 as (p & r & E1). rewrite E1.
  cbn [SingleBlock.with_hover SingleBlock.scheduleSave SingleBlock.with_chunk
       SingleBlock.chunk].
  assert (Hsolid : getCell (setCell (SingleBlock.chunk s) cl Block.SOLID) cl
                   = Some Block.SOLID).
  { unfold getCell, setCell. by rewrite getBlock_setBlock_eq. }
  split; [done|]. split.
  { intros x Hx. unfold getCell, setCell. apply getBlock_setBlock_ne.
    by apply cell_neq_coords. }
  split.
  { unfold SingleBlock.attemptPlace.
    cbn [SingleBlock.with_hover SingleBlock.scheduleSave
         SingleBlock.with_chunk SingleBlock.chunk].
    by rewrite Hsolid. }
  unfold SingleBlock.attemptRemove.
  cbn [SingleBlock.with_hover SingleBlock.scheduleSave SingleBlock.with_chunk
       SingleBlock.chunk].
  rewrite Hsolid. cbn [num_eqb]. cbv zeta.
  match goal with
  | |- context [SingleBlock.updateHoverFromPointer ?t hits''] =>
      destruct (singleBlock_updateHoverFromPointer_shape t hits'')
        as (p' & r' & -> & _)
  end.
  cbn [SingleBlock.with_hover SingleBlock.scheduleSave SingleBlock.with_chunk
       SingleBlock.chunk SingleBlock.saveTimer].
  split; [|done]. by apply setCell_restore.
Qed.

Lemma singleBlock_place_then_remove_witness :
  let s := SingleBlock.mkState (newChunk 2 2 2) None None None None None
             idlePointerState in
  let cl := mkCell 1 0 1 in
  let s1 := SingleBlock.attemptPlace s (Some cl) [] in
  let s2 := SingleBlock.attemptRemove s1 (Some cl) [] in
  getCell (SingleBlock.chunk s1) cl = Some Block.SOLID
  /\ (forall x, x <> cl ->
        getCell (SingleBlock.chunk s1) x = getCell (SingleBlock.chunk s) x)
  /\ SingleBlock.attemptPlace s1 (Some cl) [] = s1
  /\ SingleBlock.chunk s2 = SingleBlock.chunk s
  /\ SingleBlock.saveTimer s2 = Some Armed.
Proof.
  apply (singleBlock_place_then_remove
           (SingleBlock.mkState (newChunk 2 2 2) None None None None None
              idlePointerState)
           (mkCell 1 0 1) [] [] []).
  - apply newChunk_wf. by vm_compute.
  - reflexivity.
  - reflexivity.
Defined.

(** ** Flushing when the page is hidden *)

Lemma with_storage_same s : with_storage s (storage s) = s.
Proof. by destruct s. Qed.

(** X24. The flush on page hide or unload adds no new behaviour.  The
    listeners for [beforeunload] and [visibilitychange] call [flushSave]
    directly; from a reachable state, and whether or not
    [localStorage.setItem] succeeds, the result is a reachable state up to
    the stored text: with a save pending it is the very state the debounce
    timer would have produced with the same outcome of the write, and with
    none pending only the stored item can change.  When the write succeeds
    the stored text decodes to the bytes of the grid; when it fails the
    stored item stays as it was. *)
Theorem flushSave_stays_reachable (s : State) (ok : bool) :
  reachable s ->
  exists s',
    reachable s'
    /\ with_storage (flushSave s ok) (storage s') = s'
    /\ chunk s' = chunk s
    /\ (saveTimer s = Some Armed -> s' = step s (SaveTimeout ok))
    /\ (saveTimer s = None -> s' = s)
    /\ (ok = true ->
        exists text, storage (flushSave s ok) = Some text
                     /\ atob text = Some (data (chunk s)))
    /\ (ok = false -> storage (flushSave s ok) = storage s).
Proof.
  intros Hreach.
  pose proof (reachable_chunk_wf s Hreach) as Hwf.
  pose proof (reachable_saveTimer s Hreach) as Hspent.
  assert (Hflush : flushSave s ok
                   = if ok
                     then with_storage (with_saveTimer s None)
                            (Some (b64_encode (data (chunk s))))
                     else with_saveTimer s None).
  { unfold flushSave. cbv zeta. cbn [with_saveTimer chunk].
    by rewrite (encodeChunkData_wf _ Hwf). }
  assert (Hatob : atob (b64_encode (data (chunk s))) = Some (data (chunk s))).
  { apply atob_b64_encode. by destruct Hwf. }
  assert (Hstore :
    (ok = true ->
     exists text, storage (flushSave s ok) = Some text
                  /\ atob text = Some (data (chunk s)))
    /\ (ok = false -> storage (flushSave s ok) = storage s)).
  { rewrite Hflush. destruct ok.
    - split; [|done]. intros _. by eexists.
    - split; [done|]. done. }
  destruct (saveTimer s) as [[]|] eqn:Ht; [|done|].
  - exists (step s (SaveTimeout ok)).
    assert (E : step s (SaveTimeout ok) = flushSave s ok).
    { cbn [step]. rewrite Ht. unfold saveTimeout. rewrite Hflush.
      by destruct ok. }
    split; [apply reachable_step, Hreach|].
    rewrite E. split; [apply with_storage_same|].
    split; [rewrite Hflush; by destruct ok|]. done.
  - exists s. split; [done|]. split.
    { rewrite Hflush. destruct s, ok; cbn in Ht |- *; by rewrite Ht. }
    done.
Qed.

Lemma flushSave_stays_reachable_witness :
  let s := step (startup None [(mkCell 8 0 8, Block.STONE)] true)
             (ClickBlock Block.STONE) in
  exists s',
    reachable s'
    /\ with_storage (flushSave s false) (storage s') = s'
    /\ chunk s' = chunk s
    /\ (saveTimer s = Some Armed -> s' = step s (SaveTimeout false))
    /\ (saveTimer s = None -> s' = s)
    /\ (false = true ->
        exists text, storage (flushSave s false) = Some text
                     /\ atob text = Some (data (chunk s)))
    /\ (false = false -> storage (flushSave s false) = storage s).
Proof.
  apply (flushSave_stays_reachable
           (step (startup None [(mkCell 8 0 8, Block.STONE)] true)
              (ClickBlock Block.STONE)) false).
  apply reachable_step, reachable_startup.
Defined.
